(** * Superposition: a shallow embedding of the amplitude engine

    Sources embedded here:
    - [src/core/Complex.js]        (immutable complex amplitudes)
    - [src/core/QuantumState.js]   (normalisation, pruning, measurement, collapse)
    - [src/core/Entanglement.js]   (propagation between two states)
    - [src/operators/Interference.js]
    - [src/control/QuantumLoops.js], [src/control/QuantumConditionals.js]
    - [src/operators/QuantumGates.js]
    - [src/ai/QuantumLLM.js]       (the synchronous helpers [ensemble], [_clamp01])

    JavaScript numbers are IEEE-754 binary64 values: they are modelled by
    Rocq's primitive floats, whose [+ - * / sqrt] and comparisons are the
    same correctly rounded operations.  [Math.hypot] is only
    "implementation-approximated" in ECMA-262, so the development is
    parametric in it.  A JavaScript [Map] iterates in insertion order, which
    the measurement walk depends on: it is modelled by an association list
    with unique keys kept in insertion order. *)

From Stdlib Require Import PrimFloat ZArith Bool Lia FunctionalExtensionality.
From Stdlib Require FloatOps FloatAxioms SpecFloat.
From stdpp Require Import base decidable option list strings pretty.

Set Warnings "-inexact-float".
Set Default Proof Using "Type".

(* ===================================================================== *)
(** ** JavaScript values, errors and completion records *)

(** Outcome keys are arbitrary JavaScript values; the primitive ones are
    enough for every scenario of the specification.  Numeric keys are the
    integer-valued ones, compared as [Map] does (SameValueZero). *)
Inductive JsValue : Type :=
  | JUndefined
  | JNull
  | JBool (b : bool)
  | JNum (n : Z)
  | JStr (s : string).

#[global] Instance JsValue_eq_dec : EqDecision JsValue.
Proof. solve_decision. Defined.

(** [ToBoolean]: the test of [conditionValue ? ... : ...]. *)
Definition truthy (v : JsValue) : bool :=
  match v with
  | JUndefined | JNull => false
  | JBool b => b
  | JNum n => negb (n =? 0)%Z
  | JStr s => match s with EmptyString => false | _ => true end
  end.

(** The three error classes the sources throw, with their messages. *)
Inductive JsError : Type :=
  | TypeError (msg : string)
  | RangeError (msg : string)
  | Error (msg : string).

(** A call either returns or throws. *)
Inductive Outcome (A : Type) : Type :=
  | Ret (a : A)
  | Throw (e : JsError).
Arguments Ret {A} a.
Arguments Throw {A} e.

#[global] Instance Outcome_ret : MRet Outcome := fun A a => Ret a.

#[global] Instance Outcome_bind : MBind Outcome := fun A B k m =>
  match m with
  | Ret a => k a
  | Throw e => Throw e
  end.

(* ===================================================================== *)
(** ** Complex.js *)

Record Complex : Type := mkComplex { real : float; imag : float }.

(** [Number.isFinite] *)
Definition Number_isFinite (x : float) : bool := is_finite x.

(** [Number.EPSILON] = 2^-52 *)
Definition Number_EPSILON : float := 0x1p-52%float.

(** [constructor(real, imag)]: rejects non-finite components. *)
Definition Complex_new (re im : float) : Outcome Complex :=
  if negb (Number_isFinite re) || negb (Number_isFinite im)
  then Throw (TypeError "Complex components must be finite numbers.")
  else Ret (mkComplex re im).

Definition Complex_zero : Complex := mkComplex 0 0.
Definition Complex_one : Complex := mkComplex 1 0.

Definition magnitudeSquared (z : Complex) : float :=
  (real z * real z + imag z * imag z)%float.

Definition Complex_add (z w : Complex) : Outcome Complex :=
  Complex_new (real z + real w)%float (imag z + imag w)%float.

Definition Complex_subtract (z w : Complex) : Outcome Complex :=
  Complex_new (real z - real w)%float (imag z - imag w)%float.

Definition Complex_multiply (z w : Complex) : Outcome Complex :=
  Complex_new (real z * real w - imag z * imag w)%float
              (real z * imag w + imag z * real w)%float.

Definition Complex_scale (z : Complex) (scalar : float) : Outcome Complex :=
  if negb (Number_isFinite scalar)
  then Throw (TypeError "Scale factor must be a finite number.")
  else Complex_new (real z * scalar)%float (imag z * scalar)%float.

Definition Complex_conjugate (z : Complex) : Outcome Complex :=
  Complex_new (real z) (- imag z)%float.

Definition Complex_divide (z w : Complex) : Outcome Complex :=
  let denominator := magnitudeSquared w in
  if (denominator <=? Number_EPSILON)%float
  then Throw (RangeError "Cannot divide by zero-magnitude complex number.")
  else
    wc ← Complex_conjugate w;
    numerator ← Complex_multiply z wc;
    Complex_new (real numerator / denominator)%float (imag numerator / denominator)%float.

(** [equals(other, epsilon = 1e-12)] with the default tolerance. *)
Definition Complex_equals (z w : Complex) : bool :=
  (abs (real z - real w) <=? 1e-12)%float && (abs (imag z - imag w) <=? 1e-12)%float.

Definition Complex_clone (z : Complex) : Outcome Complex :=
  Complex_new (real z) (imag z).

(** [Math.hypot(x, y)].  ECMA-262 fixes its value on infinities, NaN and
    zeros and leaves the rest "implementation-approximated".  The engine
    below takes it as a parameter; statements that evaluate the engine on
    amplitudes lying on the real axis only need it to be exact there, which
    [on_axis] builds in.  [Math_hypot_ref] is one conforming instance. *)
Definition axis_exact (hypot : float -> float -> float) : Prop :=
  forall x y, is_zero y = true -> hypot x y = abs x.

Definition on_axis (hypot : float -> float -> float) (x y : float) : float :=
  if is_zero y then abs x else hypot x y.

Definition Math_hypot_ref (x y : float) : float :=
  if is_zero y then abs x
  else if is_zero x then abs y
  else if is_infinity x || is_infinity y then infinity
  else if is_nan x || is_nan y then nan
  else sqrt (x * x + y * y)%float.

(** [toBeCloseTo] of the specification: within 1e-9. *)
Definition close_to (x y : float) : bool := (abs (x - y) <=? 1e-9)%float.

(* ===================================================================== *)
(** ** The JavaScript [Map], keyed by [JsValue], in insertion order *)

Definition JsMap (V : Type) : Type := list (JsValue * V).

Fixpoint Map_get {V} (k : JsValue) (m : JsMap V) : option V :=
  match m with
  | [] => None
  | (k', v) :: m' => if decide (k' = k) then Some v else Map_get k m'
  end.

Definition Map_has {V} (k : JsValue) (m : JsMap V) : bool :=
  match Map_get k m with Some _ => true | None => false end.

(** [set] overwrites in place when the key exists and appends otherwise. *)
Fixpoint Map_set {V} (k : JsValue) (v : V) (m : JsMap V) : JsMap V :=
  match m with
  | [] => [(k, v)]
  | (k', v') :: m' =>
      if decide (k' = k) then (k, v) :: m' else (k', v') :: Map_set k v m'
  end.

Definition Map_keys {V} (m : JsMap V) : list JsValue := map fst m.

Definition Map_size {V} (m : JsMap V) : nat := length m.

(* ===================================================================== *)
(** ** Mutable objects: a state monad with exceptions

    A method runs on a mutable store and either returns or throws; what it
    wrote before throwing stays written, so the store is returned in both
    cases. *)

Definition Eff (S A : Type) : Type := S -> S * Outcome A.

#[global] Instance Eff_ret S : MRet (Eff S) := fun A a s => (s, Ret a).

#[global] Instance Eff_bind S : MBind (Eff S) := fun A B k m s =>
  match m s with
  | (s', Ret a) => k a s'
  | (s', Throw e) => (s', Throw e)
  end.

Definition throw {S A} (e : JsError) : Eff S A := fun s => (s, Throw e).
Definition getS {S} : Eff S S := fun s => (s, Ret s).
Definition modifyS {S} (f : S -> S) : Eff S unit := fun s => (f s, Ret tt).
Definition liftO {S A} (o : Outcome A) : Eff S A := fun s => (s, o).

(** [for (const x of xs) body(x)], stopping at the first throw. *)
Fixpoint forEach {S A} (xs : list A) (body : A -> Eff S unit) : Eff S unit :=
  match xs with
  | [] => mret tt
  | x :: xs' => body x;; forEach xs' body
  end.

(* ===================================================================== *)
(** ** QuantumState.js: the object *)

Definition StateId : Type := nat.
Definition LinkId : Type := nat.

(** One record of [measurementHistory]. *)
Record HistoryEntry : Type := mkHistoryEntry {
  timestamp : Z;
  result : JsValue;
  reason : string;
  preMeasurementProbs : JsMap float
}.

Record QuantumState : Type := mkQuantumState {
  basis : JsMap Complex;
  entanglements : list LinkId;
  measurementHistory : list HistoryEntry;
  isCollapsed : bool;
  collapsedValue : JsValue
}.

Definition set_basis (b : JsMap Complex) (q : QuantumState) : QuantumState :=
  mkQuantumState b (entanglements q) (measurementHistory q) (isCollapsed q) (collapsedValue q).

Definition set_entanglements (l : list LinkId) (q : QuantumState) : QuantumState :=
  mkQuantumState (basis q) l (measurementHistory q) (isCollapsed q) (collapsedValue q).

Definition set_flags (c : bool) (v : JsValue) (q : QuantumState) : QuantumState :=
  mkQuantumState (basis q) (entanglements q) (measurementHistory q) c v.

Definition AMPLITUDE_PRUNE_EPSILON : float := 1e-12%float.
Definition NORMALIZATION_EPSILON : float := 1e-15%float.

(** The argument of [setAmplitude]: a [Complex] instance or anything else. *)
Inductive JsArg : Type :=
  | AComplex (c : Complex)
  | AOther (v : JsValue).

(** [metadata] of [collapseTo]: both fields are optional. *)
Record CollapseMeta : Type := mkMeta {
  meta_reason : option string;
  meta_preMeasurementProbs : option (JsMap float)
}.

(** [getProbabilities()]: a fresh map, one [set] per entry. *)
Definition getProbabilities (q : QuantumState) : JsMap float :=
  fold_left (fun probs e => Map_set e.1 (magnitudeSquared e.2) probs) (basis q) [].

(** [getAmplitude(value)]: zero when absent. *)
Definition getAmplitude (q : QuantumState) (value : JsValue) : Complex :=
  match Map_get value (basis q) with
  | Some a => a
  | None => Complex_zero
  end.

(** The probability the engine reports for a value. *)
Definition probability (q : QuantumState) (value : JsValue) : float :=
  magnitudeSquared (getAmplitude q value).

(** [_updateCollapsedFlags()] *)
Definition _updateCollapsedFlags : Eff QuantumState unit := fun q =>
  match basis q with
  | [(value, amplitude)] =>
      let c := Complex_equals amplitude Complex_one in
      (set_flags c (if c then value else JUndefined) q, Ret tt)
  | _ => (set_flags false JUndefined q, Ret tt)
  end.

(** The first loop of [normalize()]. *)
Definition totalProbability (b : JsMap Complex) : float :=
  fold_left (fun total e => (total + magnitudeSquared e.2)%float) b 0%float.

(** The second loop of [normalize()]: entries are rescaled one by one, so a
    throw in [scale] leaves the entries before it rescaled. *)
Fixpoint scale_entries (factor : float) (b : JsMap Complex) : JsMap Complex * Outcome unit :=
  match b with
  | [] => ([], Ret tt)
  | (value, amplitude) :: b' =>
      match Complex_scale amplitude factor with
      | Throw e => (b, Throw e)
      | Ret scaled =>
          let (b'', r) := scale_entries factor b' in
          ((value, scaled) :: b'', r)
      end
  end.

(** The loop of the constructor: entries sharing a key add up. *)
Fixpoint accumulate (entries : list (JsValue * Complex)) (b : JsMap Complex)
  : Outcome (JsMap Complex) :=
  match entries with
  | [] => Ret b
  | (value, amplitude) :: rest =>
      let current := default Complex_zero (Map_get value b) in
      sum ← Complex_add current amplitude;
      accumulate rest (Map_set value sum b)
  end.

Section Engine.

(** [Math.hypot] of the JavaScript engine. *)
Variable Math_hypot : float -> float -> float.

Definition magnitude (z : Complex) : float := Math_hypot (real z) (imag z).

(** [_pruneNearZeroAmplitudes()] *)
Definition _pruneNearZeroAmplitudes : Eff QuantumState unit := fun q =>
  let kept :=
    List.filter (fun e => negb (magnitude e.2 <? AMPLITUDE_PRUNE_EPSILON)%float) (basis q) in
  let q' := set_basis kept q in
  if (Map_size kept =? 0)%nat
  then (q', Throw (Error "Quantum state has no non-zero amplitudes after pruning."))
  else (q', Ret tt).

(** [normalize()] up to and including [_updateCollapsedFlags()]; the
    notification of the entanglements follows in [normalize] below. *)
Definition normalize_own : Eff QuantumState unit := fun q =>
  let total := totalProbability (basis q) in
  if negb (Number_isFinite total) || (total <=? NORMALIZATION_EPSILON)%float
  then (q, Throw (Error "Quantum state collapsed to zero probability mass."))
  else
    let norm := sqrt total in
    let (b', r) := scale_entries (1 / norm)%float (basis q) in
    match r with
    | Throw e => (set_basis b' q, Throw e)
    | Ret _ => (_pruneNearZeroAmplitudes;; _updateCollapsedFlags) (set_basis b' q)
    end.

(** [new QuantumState(basis)].  The entries are typed, which discharges
    [_validateBasisEntry]; the fresh object has no entanglement, so the
    notification loop of [normalize()] has nothing to visit (lemma
    [normalize_no_links] below). *)
Definition QuantumState_new (entries : list (JsValue * Complex)) : Outcome QuantumState :=
  match entries with
  | [] => Throw (RangeError "QuantumState basis must contain at least one state.")
  | _ =>
      b ← accumulate entries [];
      let this := mkQuantumState b [] [] false JUndefined in
      match (_pruneNearZeroAmplitudes;; normalize_own) this with
      | (this', Ret _) => Ret this'
      | (_, Throw e) => Throw e
      end
  end.

(** [clone()]: a new object built from copies of the entries, with the
    flags and the history copied over and no entanglement. *)
Definition clone (q : QuantumState) : Outcome QuantumState :=
  entries ← mapM (fun e => a ← Complex_clone e.2; mret (e.1, a)) (basis q);
  copy ← QuantumState_new entries;
  mret (mkQuantumState (basis copy) (entanglements copy) (measurementHistory q)
                       (isCollapsed q) (collapsedValue q)).

(* ===================================================================== *)
(** ** Entanglement.js and the store of objects *)

(** [relationFn] is taken to be a pure function of the value it is given;
    [JUndefined] is its [undefined]. *)
Record Entanglement : Type := mkEntanglement {
  state1 : StateId;
  state2 : StateId;
  relationFn : JsValue -> JsValue;
  isActive : bool
}.

(** The objects alive in the program, and the two ambient sources the
    engine reads: [Math.random] and [Date.now], each as the sequence of the
    values it hands out and the number of calls made so far. *)
Record World : Type := mkWorld {
  states : list QuantumState;
  links : list Entanglement;
  Math_random : nat -> float;
  random_calls : nat;
  Date_now : nat -> Z;
  now_calls : nat
}.

Definition set_states (l : list QuantumState) (w : World) : World :=
  mkWorld l (links w) (Math_random w) (random_calls w) (Date_now w) (now_calls w).

Definition set_links (l : list Entanglement) (w : World) : World :=
  mkWorld (states w) l (Math_random w) (random_calls w) (Date_now w) (now_calls w).

(** Following a reference.  References always denote an object in
    JavaScript; an id outside the store is answered like a property read
    on [undefined]. *)
Definition getState (id : StateId) : Eff World QuantumState := fun w =>
  match states w !! id with
  | Some q => (w, Ret q)
  | None => (w, Throw (TypeError "Cannot read properties of undefined"))
  end.

Definition getLink (e : LinkId) : Eff World Entanglement := fun w =>
  match links w !! e with
  | Some ent => (w, Ret ent)
  | None => (w, Throw (TypeError "Cannot read properties of undefined"))
  end.

(** Running a method of the object [id]. *)
Definition onState {A} (id : StateId) (m : Eff QuantumState A) : Eff World A := fun w =>
  match states w !! id with
  | Some q => let (q', r) := m q in (set_states (<[id := q']> (states w)) w, r)
  | None => (w, Throw (TypeError "Cannot read properties of undefined"))
  end.

Definition call_Math_random : Eff World float := fun w =>
  (mkWorld (states w) (links w) (Math_random w) (S (random_calls w)) (Date_now w) (now_calls w),
   Ret (Math_random w (random_calls w))).

Definition call_Date_now : Eff World Z := fun w =>
  (mkWorld (states w) (links w) (Math_random w) (random_calls w) (Date_now w) (S (now_calls w)),
   Ret (Date_now w (now_calls w))).

(** What the engine raises when the cascade nests deeper than the stack. *)
Definition stack_overflow {A} : Eff World A :=
  throw (RangeError "Maximum call stack size exceeded").

(** The loop of [updateEntanglement] for a source in superposition. *)
Fixpoint induce (f : JsValue -> JsValue) (entries : JsMap Complex)
    (inducedBasis : JsMap Complex) : Outcome (JsMap Complex) :=
  match entries with
  | [] => Ret inducedBasis
  | (value1, amp1) :: rest =>
      let mappedValue := f value1 in
      if bool_decide (mappedValue = JUndefined)
      then Throw (Error "Entanglement relationFn returned undefined for an input value.")
      else
        let existing := default Complex_zero (Map_get mappedValue inducedBasis) in
        sum ← Complex_add existing amp1;
        induce f rest (Map_set mappedValue sum inducedBasis)
  end.

(** The state written by [collapseTo] and by the injection of
    [_collapseState2]: one entry of amplitude (1,0), and one more record. *)
Definition collapsed_on (value : JsValue) (h : HistoryEntry) (q : QuantumState)
  : QuantumState :=
  mkQuantumState [(value, Complex_one)] (entanglements q)
                 (measurementHistory q ++ [h]) true value.

(** [metadata.reason || 'manual-collapse'] *)
Definition reason_or_default (r : option string) : string :=
  match r with
  | Some (String c s) => String c s
  | _ => "manual-collapse"
  end.

(** The methods that call each other while a collapse propagates.
    [depth] is the number of nested calls among them that the stack still
    admits; one call deeper, the engine raises its stack overflow. *)
Fixpoint _collapseState2 (depth : nat) (e : LinkId) (value : JsValue)
    {struct depth} : Eff World unit :=
  ent ← getLink e;
  q2 ← getState (state2 ent);
  if Map_has value (basis q2) then
    match depth with
    | 0 => stack_overflow
    | S d => collapseTo d (state2 ent) value (mkMeta (Some "entanglement-collapse") None)
    end
  else
    now ← call_Date_now;
    onState (state2 ent)
      (modifyS (collapsed_on value (mkHistoryEntry now value "entanglement-collapse" [])))

with collapseTo (depth : nat) (this : StateId) (value : JsValue) (metadata : CollapseMeta)
    {struct depth} : Eff World unit :=
  q ← getState this;
  if negb (Map_has value (basis q))
  then throw (RangeError "Cannot collapse to a value not present in the basis.")
  else
    let pre := default (getProbabilities q) (meta_preMeasurementProbs metadata) in
    now ← call_Date_now;
    onState this
      (modifyS (collapsed_on value
         (mkHistoryEntry now value (reason_or_default (meta_reason metadata)) pre)));;
    (* _notifyEntangledStates *)
    forEach (entanglements q) (fun e =>
      match depth with
      | 0 => stack_overflow
      | S d => onMeasurement d e this value
      end)

with onMeasurement (depth : nat) (e : LinkId) (measuredState : StateId)
    (measuredValue : JsValue) {struct depth} : Eff World unit :=
  ent ← getLink e;
  if negb (isActive ent) then mret tt else
  if bool_decide (measuredState = state1 ent) then
    let mappedValue := relationFn ent measuredValue in
    if bool_decide (mappedValue = JUndefined)
    then throw (Error "Entanglement relationFn returned undefined for measured value.")
    else
      match depth with
      | 0 => stack_overflow
      | S d => _collapseState2 d e mappedValue
      end
  else mret tt.

(** The methods that call each other while a renormalisation propagates. *)
Fixpoint normalize (depth : nat) (this : StateId) {struct depth} : Eff World unit :=
  onState this normalize_own;;
  q ← getState this;
  (* _notifyEntanglementUpdates *)
  forEach (entanglements q) (fun e =>
    match depth with
    | 0 => stack_overflow
    | S d => updateEntanglement d e (Some this)
    end)

with updateEntanglement (depth : nat) (e : LinkId) (source : option StateId)
    {struct depth} : Eff World unit :=
  ent ← getLink e;
  if negb (isActive ent) then mret tt else
  if match source with
     | Some s => negb (bool_decide (s = state1 ent))
     | None => false
     end
  then mret tt else
  q1 ← getState (state1 ent);
  if isCollapsed q1 then
    let targetValue := relationFn ent (collapsedValue q1) in
    if bool_decide (targetValue = JUndefined)
    then throw (Error "Entanglement relationFn returned undefined during collapsed propagation.")
    else
      match depth with
      | 0 => stack_overflow
      | S d => _collapseState2 d e targetValue
      end
  else
    inducedBasis ← liftO (induce (relationFn ent) (basis q1) []);
    onState (state2 ent) (modifyS (set_basis inducedBasis));;
    match depth with
    | 0 => stack_overflow
    | S d => normalize d (state2 ent)
    end.

(** The walk of [measure()]: the first entry whose cumulative probability
    reaches the sample, [undefined] when the walk is exhausted. *)
Fixpoint walk (rand cumulative : float) (probabilities : JsMap float) : JsValue :=
  match probabilities with
  | [] => JUndefined
  | (value, p) :: rest =>
      let cumulative' := (cumulative + p)%float in
      if (rand <=? cumulative')%float then value else walk rand cumulative' rest
  end.

(** [values[values.length - 1]] *)
Definition last_key (b : JsMap Complex) : JsValue :=
  default JUndefined (last (Map_keys b)).

(** What [measure()] picks for a given sample. *)
Definition pick (rand : float) (q : QuantumState) : JsValue :=
  let hit := walk rand 0%float (getProbabilities q) in
  if bool_decide (hit = JUndefined) then last_key (basis q) else hit.

Definition measure (depth : nat) (this : StateId) : Eff World JsValue :=
  q ← getState this;
  if isCollapsed q then mret (collapsedValue q) else
  let probabilities := getProbabilities q in
  rand ← call_Math_random;
  let measuredValue := pick rand q in
  collapseTo depth this measuredValue (mkMeta (Some "measurement") (Some probabilities));;
  mret measuredValue.

(** [setAmplitude] after the type check and before [normalize()]. *)
Definition setAmplitude_own (value : JsValue) (a : Complex) : Eff QuantumState unit :=
  modifyS (fun q => set_basis (Map_set value a (basis q)) q);;
  _pruneNearZeroAmplitudes;;
  q ← getS;
  if (Map_size (basis q) =? 0)%nat
  then throw (Error "Cannot set amplitude resulting in an empty quantum basis.")
  else mret tt.

Definition setAmplitude (depth : nat) (this : StateId) (value : JsValue) (amplitude : JsArg)
  : Eff World unit :=
  match amplitude with
  | AOther _ => throw (TypeError "setAmplitude requires amplitude to be Complex.")
  | AComplex a =>
      onState this (setAmplitude_own value a);;
      normalize depth this
  end.

Definition stabilize (depth : nat) (this : StateId) : Eff World unit :=
  onState this _pruneNearZeroAmplitudes;;
  normalize depth this.

(** [Set.prototype.add] and [delete] on the set of entanglements. *)
Definition Set_add (e : LinkId) (l : list LinkId) : list LinkId :=
  if bool_decide (e ∈ l) then l else l ++ [e].

Definition Set_delete (e : LinkId) (l : list LinkId) : list LinkId :=
  List.filter (fun x => negb (bool_decide (x = e))) l.

Definition allocState (q : QuantumState) : Eff World StateId := fun w =>
  (set_states (states w ++ [q]) w, Ret (length (states w))).

Definition allocLink (ent : Entanglement) : Eff World LinkId := fun w =>
  (set_links (links w ++ [ent]) w, Ret (length (links w))).

Definition writeLink (e : LinkId) (ent : Entanglement) : Eff World unit := fun w =>
  (set_links (<[e := ent]> (links w)) w, Ret tt).

(** [new QuantumState(basis)] placed in the store. *)
Definition QuantumState_alloc (entries : list (JsValue * Complex)) : Eff World StateId :=
  q ← liftO (QuantumState_new entries);
  allocState q.

(** [new Entanglement(state1, state2, relationFn)]: the entanglement is
    registered on both objects before the first derivation runs, and stays
    registered when that derivation throws. *)
Definition Entanglement_new (depth : nat) (s1 s2 : StateId) (f : JsValue -> JsValue)
  : Eff World LinkId :=
  getState s1;; getState s2;;
  if bool_decide (s1 = s2)
  then throw (RangeError "Entanglement requires two distinct quantum states.")
  else
    e ← allocLink (mkEntanglement s1 s2 f true);
    onState s1 (modifyS (fun q => set_entanglements (Set_add e (entanglements q)) q));;
    onState s2 (modifyS (fun q => set_entanglements (Set_add e (entanglements q)) q));;
    updateEntanglement depth e None;;
    mret e.

(** [dispose()] *)
Definition dispose (e : LinkId) : Eff World unit :=
  ent ← getLink e;
  if negb (isActive ent) then mret tt else
  writeLink e (mkEntanglement (state1 ent) (state2 ent) (relationFn ent) false);;
  onState (state1 ent) (modifyS (fun q => set_entanglements (Set_delete e (entanglements q)) q));;
  onState (state2 ent) (modifyS (fun q => set_entanglements (Set_delete e (entanglements q)) q)).

(* ===================================================================== *)
(** ** Interference.js *)

Definition PRUNE_EPSILON : float := 1e-12%float.

(** An array length or loop counter as a Number (exact below 2^53). *)
Fixpoint Number_of_nat (n : nat) : float :=
  match n with
  | 0 => 0%float
  | S n' => (Number_of_nat n' + 1)%float
  end.

(** The loop of [_resolveWeights] over explicit weights. *)
Fixpoint sumSquares (weights : list float) (acc : float) : Outcome float :=
  match weights with
  | [] => Ret acc
  | w :: rest =>
      if negb (Number_isFinite w)
      then Throw (TypeError "weights must contain only finite numbers.")
      else sumSquares rest (acc + w * w)%float
  end.

Definition _resolveWeights (size : nat) (weights : option (list float)) : Outcome (list float) :=
  match weights with
  | None => Ret (replicate size (1 / sqrt (Number_of_nat size))%float)
  | Some ws =>
      if negb (length ws =? size)%nat
      then Throw (RangeError ("weights must be an array of length " +:+ pretty size +:+ "."))
      else
        total ← sumSquares ws 0%float;
        if (total <=? Number_EPSILON)%float
        then Throw (RangeError "weights must not all be zero.")
        else
          let norm := sqrt total in
          Ret (map (fun w => (w / norm)%float) ws)
  end.

(** [allValues]: a [Set] filled with the keys of every state, in order. *)
Definition Set_add_value (v : JsValue) (l : list JsValue) : list JsValue :=
  if bool_decide (v ∈ l) then l else l ++ [v].

Definition allValues (qstates : list QuantumState) : list JsValue :=
  fold_left (fun acc q => fold_left (fun acc' v => Set_add_value v acc') (Map_keys (basis q)) acc)
            qstates [].

(** The inner loop of [interfere]: the weighted sum at one value. *)
Fixpoint combinedAmplitude (value : JsValue) (weighted : list (QuantumState * float))
    (total : Complex) : Outcome Complex :=
  match weighted with
  | [] => Ret total
  | (q, w) :: rest =>
      let amp := getAmplitude q value in
      scaled ← Complex_scale amp w;
      total' ← Complex_add total scaled;
      combinedAmplitude value rest total'
  end.

(** The outer loop of [interfere]. *)
Fixpoint interfere_entries (values : list JsValue) (weighted : list (QuantumState * float))
  : Outcome (list (JsValue * Complex)) :=
  match values with
  | [] => Ret []
  | value :: rest =>
      total ← combinedAmplitude value weighted Complex_zero;
      entries ← interfere_entries rest weighted;
      Ret (if (PRUNE_EPSILON <? magnitude total)%float then (value, total) :: entries else entries)
  end.

Definition interfere (qstates : list QuantumState) (weights : option (list float))
  : Outcome QuantumState :=
  match qstates with
  | [] => Throw (RangeError
            "Interference.interfere requires a non-empty array of QuantumState instances.")
  | _ =>
      resolvedWeights ← _resolveWeights (length qstates) weights;
      entries ← interfere_entries (allValues qstates) (zip qstates resolvedWeights);
      match entries with
      | [] => Throw (Error "Interference cancelled all amplitudes to zero.")
      | _ => QuantumState_new entries
      end
  end.

(* ===================================================================== *)
(** ** QuantumConditionals.js and QuantumLoops.js *)

(** What a branch or a loop body hands back: a plain value or a state.
    Branches, bodies and conditions are taken to be pure functions; the
    checks that an argument is a [QuantumState] or a function are
    discharged by the types. *)
Inductive BranchResult : Type :=
  | Plain (v : JsValue)
  | AState (q : QuantumState).

(** [_coerceToState] / [_coerceResultState] *)
Definition _coerceToState (r : BranchResult) : Outcome QuantumState :=
  match r with
  | AState q => Ret q
  | Plain v => QuantumState_new [(v, Complex_one)]
  end.

(** [_buildStateFromMap(amplitudeMap, operation)] *)
Definition _buildStateFromMap (amplitudeMap : JsMap Complex) (operation : string)
  : Outcome QuantumState :=
  match amplitudeMap with
  | [] => Throw (Error (operation +:+ " produced an empty superposition."))
  | _ => QuantumState_new amplitudeMap
  end.

(** The inner loop shared by the combinators: every entry of the branch
    state, times the amplitude of the outcome that selected the branch, is
    added into [combined] at its value. *)
Fixpoint merge_branch (weight : Complex) (entries : JsMap Complex) (combined : JsMap Complex)
  : Outcome (JsMap Complex) :=
  match entries with
  | [] => Ret combined
  | (resultValue, resultAmplitude) :: rest =>
      weighted ← Complex_multiply resultAmplitude weight;
      let existing := default Complex_zero (Map_get resultValue combined) in
      sum ← Complex_add existing weighted;
      merge_branch weight rest (Map_set resultValue sum combined)
  end.

(** The outer loop of [quantumIf]. *)
Fixpoint quantumIf_loop (entries : JsMap Complex) (thenBranch elseBranch : JsValue -> BranchResult)
    (combined : JsMap Complex) : Outcome (JsMap Complex) :=
  match entries with
  | [] => Ret combined
  | (conditionValue, conditionAmplitude) :: rest =>
      let branchResult :=
        if truthy conditionValue then thenBranch conditionValue
        else elseBranch conditionValue in
      branchState ← _coerceToState branchResult;
      combined' ← merge_branch conditionAmplitude (basis branchState) combined;
      quantumIf_loop rest thenBranch elseBranch combined'
  end.

Definition quantumIf (condition : QuantumState) (thenBranch elseBranch : JsValue -> BranchResult)
  : Outcome QuantumState :=
  combined ← quantumIf_loop (basis condition) thenBranch elseBranch [];
  _buildStateFromMap combined "quantumIf".

(** [_applyConditionalBody]: outcomes failing the condition pass through,
    the others are replaced by the weighted outcomes of the body. *)
Fixpoint conditionalBody_loop (entries : JsMap Complex) (iteration : nat)
    (condition : JsValue -> bool) (bodyFn : JsValue -> nat -> BranchResult)
    (combined : JsMap Complex) : Outcome (JsMap Complex) :=
  match entries with
  | [] => Ret combined
  | (value, amplitude) :: rest =>
      if negb (condition value) then
        let existing := default Complex_zero (Map_get value combined) in
        sum ← Complex_add existing amplitude;
        conditionalBody_loop rest iteration condition bodyFn (Map_set value sum combined)
      else
        resultState ← _coerceToState (bodyFn value iteration);
        combined' ← merge_branch amplitude (basis resultState) combined;
        conditionalBody_loop rest iteration condition bodyFn combined'
  end.

Definition _applyConditionalBody (state : QuantumState) (iteration : nat)
    (condition : JsValue -> bool) (bodyFn : JsValue -> nat -> BranchResult)
  : Outcome QuantumState :=
  combined ← conditionalBody_loop (basis state) iteration condition bodyFn [];
  _buildStateFromMap combined "quantumWhile".

Record WhileResult : Type := mkWhileResult {
  finalState : QuantumState;
  history : list QuantumState;
  iterations : nat;
  terminatedByMaxIterations : bool
}.

(** [anyTrue] of the loop of [quantumWhile]. *)
Definition anyTrue (condition : JsValue -> bool) (state : QuantumState) : bool :=
  existsb condition (Map_keys (basis state)).

(** [while (iteration < maxIterations)], with [remaining] standing for
    [maxIterations - iteration]. *)
Fixpoint quantumWhile_loop (remaining : nat) (iteration : nat)
    (condition : JsValue -> bool) (bodyFn : JsValue -> nat -> BranchResult)
    (currentState : QuantumState) (hist : list QuantumState) : Outcome WhileResult :=
  match remaining with
  | 0 => Ret (mkWhileResult currentState hist iteration true)
  | S remaining' =>
      if negb (anyTrue condition currentState)
      then Ret (mkWhileResult currentState hist iteration false)
      else
        next ← _applyConditionalBody currentState iteration condition bodyFn;
        snapshot ← clone next;
        quantumWhile_loop remaining' (S iteration) condition bodyFn next (hist ++ [snapshot])
  end.

(** [quantumWhile(condition, bodyFn, initialState, maxIterations)]; the
    integers stand for the Numbers that pass [Number.isInteger]. *)
Definition quantumWhile (condition : JsValue -> bool) (bodyFn : JsValue -> nat -> BranchResult)
    (initialState : QuantumState) (maxIterations : Z) : Outcome WhileResult :=
  if (maxIterations <? 0)%Z
  then Throw (RangeError "quantumWhile maxIterations must be a non-negative integer.")
  else
    currentState ← clone initialState;
    first ← clone currentState;
    quantumWhile_loop (Z.to_nat maxIterations) 0 condition bodyFn currentState [first].

(* ===================================================================== *)
(** ** The remaining operations *)

(** [isNearClassical(threshold = 0.999999)] of [QuantumState.js]. *)
Definition maxProbability (probabilities : JsMap float) : float :=
  fold_left (fun mx e => if (mx <? e.2)%float then e.2 else mx) probabilities 0%float.

Definition isNearClassical (q : QuantumState) (threshold : option float) : Outcome bool :=
  let t := default 0.999999%float threshold in
  if negb (Number_isFinite t) || (t <=? 0)%float || (1 <? t)%float
  then Throw (RangeError "isNearClassical threshold must be in (0, 1].")
  else Ret (t <=? maxProbability (getProbabilities q))%float.

(** [analyzeInterference(qstates, options)] of [Interference.js]. *)
Record AnalysisRow : Type := mkRow {
  row_value : JsValue;
  ratio : float;
  combinedProb : float;
  avgIndividualProb : float
}.

Record Analysis : Type := mkAnalysis {
  constructive : list AnalysisRow;
  destructive : list AnalysisRow;
  neutral : list AnalysisRow
}.

Definition analysis_row (qstates : list QuantumState) (combined : QuantumState)
    (value : JsValue) : AnalysisRow :=
  let combinedProb := magnitudeSquared (getAmplitude combined value) in
  let avg :=
    (fold_left (fun acc state => acc + magnitudeSquared (getAmplitude state value)) qstates 0
     / Number_of_nat (length qstates))%float in
  let ratio := if (avg <=? Number_EPSILON)%float then infinity else (combinedProb / avg)%float in
  mkRow value ratio combinedProb avg.

Definition classify (constructiveThreshold destructiveThreshold : float)
    (analysis : Analysis) (row : AnalysisRow) : Analysis :=
  if (constructiveThreshold <? ratio row)%float
  then mkAnalysis (constructive analysis ++ [row]) (destructive analysis) (neutral analysis)
  else if (ratio row <? destructiveThreshold)%float
  then mkAnalysis (constructive analysis) (destructive analysis ++ [row]) (neutral analysis)
  else mkAnalysis (constructive analysis) (destructive analysis) (neutral analysis ++ [row]).

Definition analyzeInterference (qstates : list QuantumState)
    (constructiveThreshold destructiveThreshold : option float) : Outcome Analysis :=
  match qstates with
  | [] => Throw (RangeError
      "Interference.analyzeInterference requires a non-empty array of QuantumState instances.")
  | _ =>
      let ct := default 1.2%float constructiveThreshold in
      let dt := default 0.8%float destructiveThreshold in
      if negb (Number_isFinite ct) || negb (Number_isFinite dt)
      then Throw (TypeError "Interference thresholds must be finite numbers.")
      else if (ct <=? dt)%float
      then Throw (RangeError "destructiveThreshold must be less than constructiveThreshold.")
      else
        combined ← interfere qstates None;
        Ret (fold_left (fun analysis value =>
                          classify ct dt analysis (analysis_row qstates combined value))
                       (allValues qstates) (mkAnalysis [] [] []))
  end.

(** [_applyBodyToState] of [QuantumLoops.js]: every outcome is replaced by
    the weighted outcomes of the body. *)
Fixpoint applyBody_loop (entries : JsMap Complex) (iteration : nat)
    (bodyFn : JsValue -> nat -> BranchResult) (combined : JsMap Complex)
  : Outcome (JsMap Complex) :=
  match entries with
  | [] => Ret combined
  | (value, amplitude) :: rest =>
      resultState ← _coerceToState (bodyFn value iteration);
      combined' ← merge_branch amplitude (basis resultState) combined;
      applyBody_loop rest iteration bodyFn combined'
  end.

Definition _applyBodyToState (state : QuantumState) (iteration : nat)
    (bodyFn : JsValue -> nat -> BranchResult) : Outcome QuantumState :=
  combined ← applyBody_loop (basis state) iteration bodyFn [];
  _buildStateFromMap combined "quantumFor".

Record ForResult : Type := mkForResult {
  for_finalState : QuantumState;
  for_history : list QuantumState
}.

(** [for (let index = 0; index < iterations; index += 1)], with
    [remaining] standing for [iterations - index]. *)
Fixpoint quantumFor_loop (remaining : nat) (index : nat)
    (bodyFn : JsValue -> nat -> BranchResult)
    (currentState : QuantumState) (hist : list QuantumState) : Outcome ForResult :=
  match remaining with
  | 0 => Ret (mkForResult currentState hist)
  | S remaining' =>
      next ← _applyBodyToState currentState index bodyFn;
      snapshot ← clone next;
      quantumFor_loop remaining' (S index) bodyFn next (hist ++ [snapshot])
  end.

Definition quantumFor (iterations : Z) (initialState : QuantumState)
    (bodyFn : JsValue -> nat -> BranchResult) : Outcome ForResult :=
  if (iterations <? 0)%Z
  then Throw (RangeError "quantumFor iterations must be a non-negative integer.")
  else
    currentState ← clone initialState;
    first ← clone currentState;
    quantumFor_loop (Z.to_nat iterations) 0 bodyFn currentState [first].

(** [Number::toString] writes an integer in decimal digits below 1e21 and
    in exponent notation, with the shortest digits that read back as the
    same Number, from there on.  The exponent notation is taken from the
    engine. *)
Variable Number_toString_exponential : Z -> string.

(** [String(value)], which is also the property key [cases[value]] reads. *)
Definition JsValue_toString (v : JsValue) : string :=
  match v with
  | JUndefined => "undefined"
  | JNull => "null"
  | JBool true => "true"
  | JBool false => "false"
  | JNum n =>
      if (Z.abs n <? 10 ^ 21)%Z then pretty n else Number_toString_exponential n
  | JStr s => s
  end.

(** What an own property of [cases] holds: a function, [undefined], or
    something that is neither. *)
Inductive CaseSlot : Type :=
  | SlotFunction (handler : JsValue -> BranchResult)
  | SlotUndefined
  | SlotOther.

(** The own properties of the [cases] object. *)
Definition Cases : Type := list (string * CaseSlot).

Fixpoint ownProperty (key : string) (cases : Cases) : option CaseSlot :=
  match cases with
  | [] => None
  | (k, slot) :: cases' => if decide (k = key) then Some slot else ownProperty key cases'
  end.

(** [hasOwnProperty.call(cases, value) ? cases[value] : defaultCase] *)
Definition selectHandler (cases : Cases) (defaultCase : option (JsValue -> BranchResult))
    (value : JsValue) : CaseSlot :=
  match ownProperty (JsValue_toString value) cases with
  | Some slot => slot
  | None =>
      match defaultCase with
      | Some handler => SlotFunction handler
      | None => SlotUndefined
      end
  end.

(** The outer loop of [quantumSwitch]. *)
Fixpoint quantumSwitch_loop (entries : JsMap Complex) (cases : Cases)
    (defaultCase : option (JsValue -> BranchResult)) (combined : JsMap Complex)
  : Outcome (JsMap Complex) :=
  match entries with
  | [] => Ret combined
  | (value, amplitude) :: rest =>
      match selectHandler cases defaultCase value with
      | SlotUndefined => quantumSwitch_loop rest cases defaultCase combined
      | SlotOther =>
          Throw (TypeError ("quantumSwitch handler for " +:+ JsValue_toString value
                            +:+ " must be a function."))
      | SlotFunction handler =>
          branchState ← _coerceToState (handler value);
          combined' ← merge_branch amplitude (basis branchState) combined;
          quantumSwitch_loop rest cases defaultCase combined'
      end
  end.

Definition quantumSwitch (qstate : QuantumState) (cases : Cases)
    (defaultCase : option (JsValue -> BranchResult)) : Outcome QuantumState :=
  combined ← quantumSwitch_loop (basis qstate) cases defaultCase [];
  _buildStateFromMap combined "quantumSwitch".

(** ** QuantumGates.js *)

(** [Math.cos] and [Math.sin] of the JavaScript engine, which ECMA-262
    leaves implementation-approximated. *)
Variable Math_cos Math_sin : float -> float.

(** [Complex.fromPolar(magnitude, phase)] *)
Definition Complex_fromPolar (r theta : float) : Outcome Complex :=
  if negb (Number_isFinite r) || negb (Number_isFinite theta)
  then Throw (TypeError "Polar components must be finite numbers.")
  else if (r <? 0)%float
  then Throw (RangeError "Polar magnitude must be non-negative.")
  else Complex_new (r * Math_cos theta)%float (r * Math_sin theta)%float.

Definition hadamard (qstate : QuantumState) : Outcome QuantumState :=
  match Map_keys (basis qstate) with
  | [v0; v1] =>
      let a0 := getAmplitude qstate v0 in
      let a1 := getAmplitude qstate v1 in
      let factor := (1 / sqrt 2)%float in
      sum ← Complex_add a0 a1;
      nextA0 ← Complex_scale sum factor;
      difference ← Complex_subtract a0 a1;
      nextA1 ← Complex_scale difference factor;
      QuantumState_new [(v0, nextA0); (v1, nextA1)]
  | values =>
      Throw (RangeError ("Hadamard requires exactly 2 basis states, received "
                         +:+ pretty (length values) +:+ "."))
  end.

Definition phase (qstate : QuantumState) (targetValue : JsValue) (phaseAngle : float)
  : Outcome QuantumState :=
  if negb (Number_isFinite phaseAngle)
  then Throw (TypeError "phaseAngle must be a finite number in radians.")
  else if negb (Map_has targetValue (basis qstate))
  then Throw (RangeError "Target value does not exist in quantum basis.")
  else
    phaseFactor ← Complex_fromPolar 1 phaseAngle;
    entries ← mapM (fun e =>
                 a ← (if bool_decide (e.1 = targetValue)
                      then Complex_multiply e.2 phaseFactor
                      else Complex_clone e.2);
                 mret (e.1, a)) (basis qstate);
    QuantumState_new entries.

Definition rotate (qstate : QuantumState) (angle : float) : Outcome QuantumState :=
  if negb (Number_isFinite angle)
  then Throw (TypeError "angle must be a finite number in radians.")
  else
    rotor ← Complex_fromPolar 1 angle;
    entries ← mapM (fun e => a ← Complex_multiply e.2 rotor; mret (e.1, a)) (basis qstate);
    QuantumState_new entries.

(** The loop of [amplify]: the new entries, and whether a target was met. *)
Fixpoint amplify_entries (entries : JsMap Complex) (targets : list JsValue) (factor : float)
  : Outcome (list (JsValue * Complex) * bool) :=
  match entries with
  | [] => Ret ([], false)
  | (value, amplitude) :: rest =>
      if bool_decide (value ∈ targets) then
        scaled ← Complex_scale amplitude factor;
        more ← amplify_entries rest targets factor;
        Ret ((value, scaled) :: more.1, true)
      else
        copy ← Complex_clone amplitude;
        more ← amplify_entries rest targets factor;
        Ret ((value, copy) :: more.1, more.2)
  end.

(** [amplify(qstate, targetValues, factor = 1.5)]; [targetValues] is an
    array or a set, of which only membership is used. *)
Definition amplify (qstate : QuantumState) (targetValues : list JsValue) (factor : option float)
  : Outcome QuantumState :=
  let f := default 1.5%float factor in
  if negb (Number_isFinite f) || (f <=? 0)%float
  then Throw (RangeError "Amplification factor must be a finite number > 0.")
  else
    match targetValues with
    | [] => Throw (RangeError "targetValues must contain at least one value.")
    | _ =>
        scaled ← amplify_entries (basis qstate) targetValues f;
        if negb scaled.2
        then Throw (RangeError "None of the targetValues exist in the quantum basis.")
        else QuantumState_new scaled.1
    end.

(** ** QuantumLLM.js: the synchronous helpers *)

(** [ensemble(qstates, analysisMode = 'interference')] *)
Definition ensemble (qstates : list QuantumState) (analysisMode : option string)
  : Outcome QuantumState :=
  match qstates with
  | [] => Throw (RangeError "ensemble requires a non-empty array of QuantumState instances.")
  | _ =>
      let mode := default "interference" analysisMode in
      if decide (mode = "interference") then interfere qstates None
      else if decide (mode = "classical") then
        entries ← mapM (fun e => a ← Complex_clone e.2; mret (e.1, a))
                       (flat_map basis qstates);
        QuantumState_new entries
      else Throw (RangeError ("Unsupported analysisMode: " +:+ mode))
  end.


(* ===================================================================== *)
(** ** Vocabulary of the statements *)

(** Everything but the basis is kept. *)
Definition same_but_basis (q q' : QuantumState) : Prop :=
  entanglements q' = entanglements q /\
  measurementHistory q' = measurementHistory q /\
  isCollapsed q' = isCollapsed q /\
  collapsedValue q' = collapsedValue q.

(** [this] is the source of none of the active entanglements registered
    on it. *)
Definition only_target (w : World) (this : StateId) (q : QuantumState) : Prop :=
  forall e ent, e ∈ entanglements q -> links w !! e = Some ent ->
    isActive ent = false \/ state1 ent <> this.

(** A method that writes to the object [this] at most. *)
Definition writes_only {A} (this : StateId) (m : Eff World A) (w : World) : Prop :=
  links (m w).1 = links w /\
  forall i, i <> this -> states (m w).1 !! i = states w !! i.

(** No active entanglement has [i] as its target. *)
Definition not_targeted (w : World) (i : StateId) : Prop :=
  forall e ent, links w !! e = Some ent -> isActive ent = true -> state2 ent <> i.

(** What a propagating collapse may do to the store: the entanglements
    stay, a collapsed object stays collapsed, and an object that no active
    entanglement targets is written only if it is in [X]. *)
Definition cascade_step (X : StateId -> Prop) (w w' : World) : Prop :=
  links w' = links w /\
  (forall i q, states w !! i = Some q -> isCollapsed q = true ->
     exists q', states w' !! i = Some q' /\ isCollapsed q' = true) /\
  (forall i, not_targeted w i -> ~ X i -> states w' !! i = states w !! i).

(** The same store under another ambient [Math.random]. *)
Definition with_random (R : nat -> float) (n : nat) (w : World) : World :=
  mkWorld (states w) (links w) R n (Date_now w) (now_calls w).

(** A method that neither reads nor advances [Math.random]: under any
    other random source it does the same thing and hands that source back
    as it found it. *)
Definition random_blind {A} (m : Eff World A) : Prop :=
  forall R n w, m (with_random R n w) = (with_random R n (m w).1, (m w).2).

(** No entry is below the prune epsilon. *)
Definition all_kept (b : JsMap Complex) : Prop :=
  Forall (fun e => (magnitude e.2 <? AMPLITUDE_PRUNE_EPSILON)%float = false) b.

(** Every entanglement registered on [this] exists and is inactive or
    has another object as its source. *)
Definition source_of_none (w : World) (this : StateId) (q : QuantumState) : Prop :=
  forall e, e ∈ entanglements q ->
    exists ent, links w !! e = Some ent /\ (isActive ent = false \/ state1 ent <> this).

(** Every stored amplitude has finite components. *)
Definition finite_amplitudes (b : JsMap Complex) : Prop :=
  Forall (fun e => Number_isFinite (real e.2) = true /\ Number_isFinite (imag e.2) = true) b.

(** The collapsed flag says what the basis says: it is raised exactly when
    the basis is one entry, equal to (1,0) within 1e-12, at the stored
    value; when it is down the stored value is [undefined]. *)
Definition collapsed_flags_agree (q : QuantumState) : Prop :=
  (isCollapsed q = true <->
   exists a, basis q = [(collapsedValue q, a)] /\ Complex_equals a Complex_one = true) /\
  (isCollapsed q = false -> collapsedValue q = JUndefined).

(** What propagation may do to the records of the store: the
    entanglements and the objects stay the ones they were, every object
    keeps its set of entanglements, and a history only grows at its end. *)
Definition log_extended (w w' : World) : Prop :=
  links w' = links w /\ length (states w') = length (states w) /\
  forall i q, states w !! i = Some q ->
    exists q', states w' !! i = Some q' /\ entanglements q' = entanglements q /\
               measurementHistory q `prefix_of` measurementHistory q'.

Definition keeps_log {A} (m : Eff World A) : Prop :=
  forall w, log_extended w (m w).1.

(** The invariants of a state at rest. *)
Definition well_formed (q : QuantumState) : Prop :=
  basis q <> [] /\ all_kept (basis q) /\ finite_amplitudes (basis q) /\
  collapsed_flags_agree q.

(** The keys of a list of entries, each once, in the order of their first
    mention. *)
Definition first_mentions (keys : list JsValue) : list JsValue :=
  fold_left (fun acc k => Set_add_value k acc) keys [].

(** The rows of an analysis are where their ratios put them, and each
    holds the figures of its own outcome. *)
Definition classified (qstates : list QuantumState) (combined : QuantumState)
    (ct dt : float) (analysis : Analysis) : Prop :=
  Forall (fun row => (ct <? ratio row)%float = true) (constructive analysis) /\
  Forall (fun row => (ct <? ratio row)%float = false /\ (ratio row <? dt)%float = true)
         (destructive analysis) /\
  Forall (fun row => (ct <? ratio row)%float = false /\ (ratio row <? dt)%float = false)
         (neutral analysis) /\
  Forall (fun row => row = analysis_row qstates combined (row_value row))
         (constructive analysis ++ destructive analysis ++ neutral analysis).


(** Two calls that return the same value or both throw. *)
Definition same_return {A} (x y : Outcome A) : Prop :=
  match x, y with
  | Ret a, Ret b => a = b
  | Throw _, Throw _ => True
  | _, _ => False
  end.

(** A state as the operators hand it out: well formed, with distinct
    outcomes, no entanglement and no history. *)
Definition fresh_state (q : QuantumState) : Prop :=
  well_formed q /\ NoDup (Map_keys (basis q)) /\
  entanglements q = [] /\ measurementHistory q = [].

(** A state that holds outcomes and is entangled with nothing. *)
Definition detached (q : QuantumState) : Prop :=
  basis q <> [] /\ entanglements q = [].

(** A complex number with finite components. *)
Definition Complex_finite (z : Complex) : Prop :=
  Number_isFinite (real z) = true /\ Number_isFinite (imag z) = true.

(** [j] is reached from [i] along active entanglements, each followed from
    its source to its target. *)
Inductive reaches (ls : list Entanglement) : StateId -> StateId -> Prop :=
  | reaches_link (e : LinkId) (ent : Entanglement) :
      ls !! e = Some ent -> isActive ent = true ->
      reaches ls (state1 ent) (state2 ent)
  | reaches_trans (i j k : StateId) :
      reaches ls i j -> reaches ls j k -> reaches ls i k.

(** The entanglements stay and only objects in [P] are written. *)
Definition writes_within (P : StateId -> Prop) (w w' : World) : Prop :=
  links w' = links w /\ forall i, ~ P i -> states w' !! i = states w !! i.

(** The state the loop of [quantumWhile] holds after [k] more rounds, the
    first of them numbered [iteration]: a round replaces the outcomes that
    satisfy the condition by the weighted outcomes of the body. *)
Fixpoint rounds (iteration k : nat) (condition : JsValue -> bool)
    (bodyFn : JsValue -> nat -> BranchResult) (state : QuantumState) : Outcome QuantumState :=
  match k with
  | 0 => Ret state
  | S k' =>
      next ← _applyConditionalBody state iteration condition bodyFn;
      rounds (S iteration) k' condition bodyFn next
  end.

(** The weighting law in the words of the specification.  JavaScript's
    truthiness, spelled out: every value is truthy but [undefined], [null],
    [false], [0] and the empty string. *)
Definition law_truthy (v : JsValue) : bool :=
  negb (bool_decide (v ∈ [JUndefined; JNull; JBool false; JNum 0; JStr EmptyString])).

(** "invoke thenFn(v) if truthy else elseFn(v)" *)
Definition law_branch (thenFn elseFn : JsValue -> BranchResult) (v : JsValue) : BranchResult :=
  if law_truthy v then thenFn v else elseFn v.

(** The complex product and sum, on the components. *)
Definition law_times (a c : Complex) : Complex :=
  mkComplex (real a * real c - imag a * imag c)%float (real a * imag c + imag a * real c)%float.

Definition law_plus (x y : Complex) : Complex :=
  mkComplex (real x + real y)%float (imag x + imag y)%float.

(** "branch-result amplitudes are multiplied by the condition amplitude":
    every result value with its weighted amplitude, outcome by outcome of
    the condition and entry by entry of the branch state. *)
Definition law_contributions (branches : list (Complex * QuantumState))
  : list (JsValue * Complex) :=
  flat_map (fun b => map (fun e => (e.1, law_times e.2 b.1)) (basis b.2)) branches.

(** "merged by complex addition per result value": the sum, in order, of
    the contributions at a value, and the map that holds it at every value
    the contributions mention. *)
Definition law_amplitude (r : JsValue) (contribs : list (JsValue * Complex)) : Complex :=
  fold_left law_plus
    (map snd (List.filter (fun c => bool_decide (c.1 = r)) contribs)) Complex_zero.

Definition law_merged (contribs : list (JsValue * Complex)) : JsMap Complex :=
  map (fun r => (r, law_amplitude r contribs)) (first_mentions (map fst contribs)).

(** The result the law prescribes: the state constructed from the merged
    contributions of the branch states, a plain branch value counting as
    the state that holds it with amplitude (1,0). *)
Definition law_result (condition : QuantumState) (thenFn elseFn : JsValue -> BranchResult)
  : Outcome QuantumState :=
  branchStates ← mapM (fun o => _coerceToState (law_branch thenFn elseFn o.1))
                      (basis condition);
  QuantumState_new (law_merged (law_contributions (zip (map snd (basis condition)) branchStates))).

(** The merge as the loops carry it out, on amplitudes already weighted. *)
Fixpoint merge_weighted (contribs : list (JsValue * Complex)) (combined : JsMap Complex)
  : JsMap Complex :=
  match contribs with
  | [] => combined
  | (r, c) :: rest =>
      merge_weighted rest
        (Map_set r (law_plus (default Complex_zero (Map_get r combined)) c) combined)
  end.

(** Every amplitude a map holds is finite. *)
Definition map_finite (m : JsMap Complex) : Prop :=
  forall k s, Map_get k m = Some s -> Complex_finite s.

(* ===================================================================== *)
(** * Properties *)

(** ** Running effectful code *)

Lemma bind_run {S A B} (m : Eff S A) (k : A -> Eff S B) (s : S) :
  (m ≫= k) s = match m s with
               | (s', Ret a) => k a s'
               | (s', Throw e) => (s', Throw e)
               end.
Proof. reflexivity. Qed.

Lemma getState_run (id : StateId) (w : World) (q : QuantumState) :
  states w !! id = Some q -> getState id w = (w, Ret q).
Proof. intros H. unfold getState. now rewrite H. Qed.

Lemma getLink_run (e : LinkId) (w : World) (ent : Entanglement) :
  links w !! e = Some ent -> getLink e w = (w, Ret ent).
Proof. intros H. unfold getLink. now rewrite H. Qed.

Lemma getState_world (id : StateId) (w w' : World) (r : Outcome QuantumState) :
  getState id w = (w', r) -> w' = w.
Proof. unfold getState. destruct (states w !! id); congruence. Qed.

Lemma getLink_world (e : LinkId) (w w' : World) (r : Outcome Entanglement) :
  getLink e w = (w', r) -> w' = w.
Proof. unfold getLink. destruct (links w !! e); congruence. Qed.

(** The bodies of the recursive methods, whatever the depth. *)
Lemma normalize_eq (depth : nat) (this : StateId) :
  normalize depth this =
  (onState this normalize_own;;
   q ← getState this;
   forEach (entanglements q) (fun e =>
     match depth with
     | 0 => stack_overflow
     | S d => updateEntanglement d e (Some this)
     end)).
Proof. destruct depth; reflexivity. Qed.

Lemma updateEntanglement_eq (depth : nat) (e : LinkId) (source : option StateId) :
  updateEntanglement depth e source =
  (ent ← getLink e;
   if negb (isActive ent) then mret tt else
   if match source with
      | Some s => negb (bool_decide (s = state1 ent))
      | None => false
      end
   then mret tt else
   q1 ← getState (state1 ent);
   if isCollapsed q1 then
     let targetValue := relationFn ent (collapsedValue q1) in
     if bool_decide (targetValue = JUndefined)
     then throw (Error "Entanglement relationFn returned undefined during collapsed propagation.")
     else
       match depth with
       | 0 => stack_overflow
       | S d => _collapseState2 d e targetValue
       end
   else
     inducedBasis ← liftO (induce (relationFn ent) (basis q1) []);
     onState (state2 ent) (modifyS (set_basis inducedBasis));;
     match depth with
     | 0 => stack_overflow
     | S d => normalize d (state2 ent)
     end).
Proof. destruct depth; reflexivity. Qed.

Lemma _collapseState2_eq (depth : nat) (e : LinkId) (value : JsValue) :
  _collapseState2 depth e value =
  (ent ← getLink e;
   q2 ← getState (state2 ent);
   if Map_has value (basis q2) then
     match depth with
     | 0 => stack_overflow
     | S d => collapseTo d (state2 ent) value (mkMeta (Some "entanglement-collapse") None)
     end
   else
     now ← call_Date_now;
     onState (state2 ent)
       (modifyS (collapsed_on value (mkHistoryEntry now value "entanglement-collapse" [])))).
Proof. destruct depth; reflexivity. Qed.

Lemma collapseTo_eq (depth : nat) (this : StateId) (value : JsValue) (metadata : CollapseMeta) :
  collapseTo depth this value metadata =
  (q ← getState this;
   if negb (Map_has value (basis q))
   then throw (RangeError "Cannot collapse to a value not present in the basis.")
   else
     let pre := default (getProbabilities q) (meta_preMeasurementProbs metadata) in
     now ← call_Date_now;
     onState this
       (modifyS (collapsed_on value
          (mkHistoryEntry now value (reason_or_default (meta_reason metadata)) pre)));;
     forEach (entanglements q) (fun e =>
       match depth with
       | 0 => stack_overflow
       | S d => onMeasurement d e this value
       end)).
Proof. destruct depth; reflexivity. Qed.

Lemma onMeasurement_eq (depth : nat) (e : LinkId) (measuredState : StateId)
    (measuredValue : JsValue) :
  onMeasurement depth e measuredState measuredValue =
  (ent ← getLink e;
   if negb (isActive ent) then mret tt else
   if bool_decide (measuredState = state1 ent) then
     let mappedValue := relationFn ent measuredValue in
     if bool_decide (mappedValue = JUndefined)
     then throw (Error "Entanglement relationFn returned undefined for measured value.")
     else
       match depth with
       | 0 => stack_overflow
       | S d => _collapseState2 d e mappedValue
       end
   else mret tt).
Proof. destruct depth; reflexivity. Qed.

(** A fresh object has no entanglement to notify: [normalize()] is then
    [normalize_own], which is what the constructor runs. *)
Lemma normalize_no_links (depth : nat) (this : StateId) (w : World) (q : QuantumState) :
  states w !! this = Some q ->
  entanglements q = [] ->
  normalize depth this w = onState this normalize_own w.
Proof.
  intros Hq Hl. rewrite normalize_eq, bind_run.
  unfold onState at 1 2. rewrite Hq.
  destruct (normalize_own q) as [q' r] eqn:Hown.
  assert (Hl' : entanglements q' = []).
  { revert Hown. unfold normalize_own.
    destruct (_ || _); [intros [= <- <-]; exact Hl|].
    destruct (scale_entries _ _) as [b' [[]|e]]; [|intros [= <- <-]; exact Hl].
    rewrite bind_run. unfold _pruneNearZeroAmplitudes at 1.
    destruct (_ =? _)%nat; [intros [= <- <-]; exact Hl|].
    unfold _updateCollapsedFlags. simpl.
    destruct (List.filter _ _) as [|[v a] [|? ?]]; intros [= <- <-]; exact Hl. }
  destruct r as [[]|e]; [|reflexivity].
  rewrite bind_run. unfold getState. simpl.
  assert (Hlt : this < length (states w)) by (eapply lookup_lt_Some; eauto).
  rewrite list_lookup_insert_eq by exact Hlt.
  rewrite Hl'. reflexivity.
Qed.

(** ** What the methods of one object leave alone *)

Lemma same_but_basis_refl (q : QuantumState) : same_but_basis q q.
Proof. now repeat split. Qed.

Lemma same_but_basis_set (b : JsMap Complex) (q : QuantumState) :
  same_but_basis q (set_basis b q).
Proof. now repeat split. Qed.

Lemma same_but_basis_trans (q1 q2 q3 : QuantumState) :
  same_but_basis q1 q2 -> same_but_basis q2 q3 -> same_but_basis q1 q3.
Proof. unfold same_but_basis. intuition congruence. Qed.

Lemma prune_same (q q' : QuantumState) (r : Outcome unit) :
  _pruneNearZeroAmplitudes q = (q', r) -> same_but_basis q q'.
Proof.
  unfold _pruneNearZeroAmplitudes.
  destruct (_ =? _)%nat; intros [= <- <-]; apply same_but_basis_set.
Qed.

Lemma prune_nonempty (q q' : QuantumState) :
  _pruneNearZeroAmplitudes q = (q', Ret tt) -> basis q' <> [].
Proof.
  unfold _pruneNearZeroAmplitudes.
  destruct (_ =? _)%nat eqn:E; intros [= <-]; simpl.
  intros Hnil. rewrite Hnil in E. discriminate.
Qed.

Lemma updateCollapsedFlags_keeps (q q' : QuantumState) (r : Outcome unit) :
  _updateCollapsedFlags q = (q', r) ->
  basis q' = basis q /\ entanglements q' = entanglements q /\
  measurementHistory q' = measurementHistory q.
Proof.
  unfold _updateCollapsedFlags.
  destruct (basis q) as [|[v a] [|? ?]] eqn:Hb; intros [= <- <-]; simpl; now rewrite ?Hb.
Qed.

(** [normalize()] writes the flags last: when its own part throws, only
    the basis can have changed. *)
Lemma normalize_own_throw (q q' : QuantumState) (e : JsError) :
  normalize_own q = (q', Throw e) -> same_but_basis q q'.
Proof.
  unfold normalize_own.
  destruct (_ || _); [intros [= <-]; apply same_but_basis_refl|].
  destruct (scale_entries _ _) as [b' [[]|e']].
  - rewrite bind_run.
    destruct (_pruneNearZeroAmplitudes _) as [q1 [[]|e1]] eqn:Hp.
    + unfold _updateCollapsedFlags.
      destruct (basis q1) as [|[v a] [|? ?]]; discriminate.
    + intros [= <- <-]. apply prune_same in Hp.
      eapply same_but_basis_trans; [apply same_but_basis_set|exact Hp].
  - intros [= <- <-]. apply same_but_basis_set.
Qed.

Lemma normalize_own_keeps (q q' : QuantumState) (r : Outcome unit) :
  normalize_own q = (q', r) ->
  entanglements q' = entanglements q /\ measurementHistory q' = measurementHistory q.
Proof.
  destruct r as [[]|e]; [|intros H; apply normalize_own_throw in H; split; apply H].
  unfold normalize_own.
  destruct (_ || _); [discriminate|].
  destruct (scale_entries _ _) as [b' [[]|e']]; [|discriminate].
  rewrite bind_run.
  destruct (_pruneNearZeroAmplitudes _) as [q1 [[]|e1]] eqn:Hp; [|discriminate].
  intros Hf. apply updateCollapsedFlags_keeps in Hf as (_ & Hl & Hh).
  apply prune_same in Hp as (Hl1 & Hh1 & _). simpl in *. split; congruence.
Qed.

(** ** Stores *)

Lemma onState_run {A} (id : StateId) (m : Eff QuantumState A) (w : World) (q : QuantumState) :
  states w !! id = Some q ->
  onState id m w = (set_states (<[id := (m q).1]> (states w)) w, (m q).2).
Proof. intros H. unfold onState. rewrite H. now destruct (m q). Qed.

Lemma lookup_set_states_eq (id : StateId) (q q' : QuantumState) (w : World) :
  states w !! id = Some q ->
  states (set_states (<[id := q']> (states w)) w) !! id = Some q'.
Proof.
  intros H. simpl. apply list_lookup_insert_eq. eapply lookup_lt_Some; eauto.
Qed.

Lemma lookup_set_states_ne (id i : StateId) (q' : QuantumState) (w : World) :
  i <> id ->
  states (set_states (<[id := q']> (states w)) w) !! i = states w !! i.
Proof. intros H. simpl. now apply list_lookup_insert_ne. Qed.

Lemma forEach_skip {A} (xs : list A) (body : A -> Eff World unit) (w : World) :
  (forall x, x ∈ xs -> body x w = (w, Ret tt)) ->
  forEach xs body w = (w, Ret tt).
Proof.
  induction xs as [|x xs IH]; intros H; simpl; [reflexivity|].
  rewrite bind_run, (H x) by left. apply IH. intros y Hy. apply H. now right.
Qed.

(** A loop whose every round leaves the store as it is leaves it so. *)
Lemma forEach_fixed {A} (xs : list A) (body : A -> Eff World unit) (w : World) :
  (forall x, x ∈ xs -> exists r, body x w = (w, r)) ->
  exists r, forEach xs body w = (w, r).
Proof.
  induction xs as [|x xs IH]; intros H; simpl.
  - now exists (Ret tt).
  - rewrite bind_run. destruct (H x) as [r Hr]; [left|]. rewrite Hr.
    destruct r as [[]|e]; [|now eexists].
    apply IH. intros y Hy. apply H. now right.
Qed.

(** ** One-directional propagation *)

Lemma updateEntanglement_foreign (depth : nat) (e : LinkId) (ent : Entanglement)
    (origin : StateId) (w : World) :
  links w !! e = Some ent ->
  isActive ent = false \/ state1 ent <> origin ->
  updateEntanglement depth e (Some origin) w = (w, Ret tt).
Proof.
  intros He Hor. rewrite updateEntanglement_eq, bind_run, (getLink_run _ _ _ He).
  destruct Hor as [-> | Hne]; [reflexivity|].
  destruct (isActive ent); [|reflexivity]. simpl.
  rewrite bool_decide_eq_false_2 by congruence. reflexivity.
Qed.

Lemma onMeasurement_foreign (depth : nat) (e : LinkId) (ent : Entanglement)
    (origin : StateId) (value : JsValue) (w : World) :
  links w !! e = Some ent ->
  isActive ent = false \/ state1 ent <> origin ->
  onMeasurement depth e origin value w = (w, Ret tt).
Proof.
  intros He Hor. rewrite onMeasurement_eq, bind_run, (getLink_run _ _ _ He).
  destruct Hor as [-> | Hne]; [reflexivity|].
  destruct (isActive ent); [|reflexivity]. simpl.
  rewrite bool_decide_eq_false_2 by congruence. reflexivity.
Qed.

(** The two notification loops, run from an object that is only a target,
    write nothing. *)
Lemma notify_updates_only_target (depth : nat) (this : StateId) (q : QuantumState) (w : World) :
  only_target w this q ->
  exists r, forEach (entanglements q) (fun e =>
              match depth with
              | 0 => stack_overflow
              | S d => updateEntanglement d e (Some this)
              end) w = (w, r).
Proof.
  intros Hot. apply forEach_fixed. intros e He.
  destruct depth as [|d]; [now eexists|].
  destruct (links w !! e) as [ent|] eqn:Hl.
  - exists (Ret tt). eapply updateEntanglement_foreign; eauto.
  - rewrite updateEntanglement_eq, bind_run. unfold getLink. rewrite Hl. now eexists.
Qed.

Lemma notify_measured_only_target (depth : nat) (this : StateId) (value : JsValue)
    (q : QuantumState) (w : World) :
  only_target w this q ->
  exists r, forEach (entanglements q) (fun e =>
              match depth with
              | 0 => stack_overflow
              | S d => onMeasurement d e this value
              end) w = (w, r).
Proof.
  intros Hot. apply forEach_fixed. intros e He.
  destruct depth as [|d]; [now eexists|].
  destruct (links w !! e) as [ent|] eqn:Hl.
  - exists (Ret tt). eapply onMeasurement_foreign; eauto.
  - rewrite onMeasurement_eq, bind_run. unfold getLink. rewrite Hl. now eexists.
Qed.

Lemma only_target_set_states (w : World) (this : StateId) (q q' : QuantumState)
    (l : list QuantumState) :
  entanglements q' = entanglements q ->
  only_target w this q -> only_target (set_states l w) this q'.
Proof. intros Hl Hot e ent He. rewrite Hl in He. simpl. now apply Hot. Qed.

Lemma normalize_writes_only (depth : nat) (this : StateId) (q : QuantumState) (w : World) :
  states w !! this = Some q ->
  only_target w this q ->
  writes_only this (normalize depth this) w.
Proof.
  intros Hq Hot. unfold writes_only.
  rewrite normalize_eq, bind_run, (onState_run _ _ _ _ Hq).
  destruct (normalize_own q) as [q' r] eqn:Hown. simpl fst. simpl snd.
  set (w1 := set_states _ w).
  assert (H1 : links w1 = links w /\ forall i, i <> this -> states w1 !! i = states w !! i).
  { split; [reflexivity|]. intros i Hi. now apply lookup_set_states_ne. }
  destruct r as [[]|err]; [|exact H1].
  rewrite bind_run, (getState_run this w1 q') by (eapply lookup_set_states_eq; eauto).
  apply normalize_own_keeps in Hown as [Hl _].
  destruct (notify_updates_only_target depth this q' w1) as [r Hr].
  { eapply only_target_set_states; eauto. }
  rewrite Hr. exact H1.
Qed.

Lemma only_target_links (w w' : World) (this : StateId) (q q' : QuantumState) :
  links w' = links w ->
  entanglements q' = entanglements q ->
  only_target w this q -> only_target w' this q'.
Proof. intros Hw Hl Hot e ent He. rewrite Hl in He. rewrite Hw. now apply Hot. Qed.

Lemma writes_only_bind {A B} (this : StateId) (m : Eff World A) (k : A -> Eff World B)
    (w : World) :
  writes_only this m w ->
  (forall a, (m w).2 = Ret a -> writes_only this (k a) (m w).1) ->
  writes_only this (m ≫= k) w.
Proof.
  unfold writes_only. intros [Hl Hs] Hk. rewrite bind_run.
  destruct (m w) as [w1 [a|e]]; simpl in *; [|now split].
  destruct (Hk a eq_refl) as [Hl' Hs']. split; [congruence|].
  intros i Hi. rewrite Hs' by exact Hi. now apply Hs.
Qed.

Lemma writes_only_same {A} (this : StateId) (m : Eff World A) (w : World) :
  (m w).1 = w -> writes_only this m w.
Proof. intros H. unfold writes_only. now rewrite H. Qed.

Lemma writes_only_onState {A} (this : StateId) (m : Eff QuantumState A) (w : World) :
  writes_only this (onState this m) w.
Proof.
  unfold writes_only, onState. destruct (states w !! this) as [q|]; [|now split].
  destruct (m q) as [q' r]. split; [reflexivity|].
  intros i Hi. now apply lookup_set_states_ne.
Qed.

Lemma setAmplitude_own_same (value : JsValue) (a : Complex) (q q' : QuantumState)
    (r : Outcome unit) :
  setAmplitude_own value a q = (q', r) -> same_but_basis q q'.
Proof.
  unfold setAmplitude_own. rewrite bind_run. unfold modifyS at 1. rewrite bind_run.
  destruct (_pruneNearZeroAmplitudes _) as [q1 [[]|e]] eqn:Hp.
  - rewrite bind_run. unfold getS at 1.
    intros H. apply prune_same in Hp.
    assert (q' = q1) as ->.
    { destruct (_ =? _)%nat; now inversion H. }
    eapply same_but_basis_trans; [apply same_but_basis_set|exact Hp].
  - intros [= <- <-]. apply prune_same in Hp.
    eapply same_but_basis_trans; [apply same_but_basis_set|exact Hp].
Qed.

Lemma stabilize_writes_only (depth : nat) (this : StateId) (q : QuantumState) (w : World) :
  states w !! this = Some q ->
  only_target w this q ->
  writes_only this (stabilize depth this) w.
Proof.
  intros Hq Hot. unfold stabilize. apply writes_only_bind; [apply writes_only_onState|].
  intros [] _. rewrite (onState_run _ _ _ _ Hq). simpl fst.
  destruct (_pruneNearZeroAmplitudes q) as [q1 r] eqn:Hp. simpl fst.
  eapply normalize_writes_only; [eapply lookup_set_states_eq; eauto|].
  apply prune_same in Hp as [Hl _]. eapply only_target_links; eauto.
Qed.

Lemma setAmplitude_writes_only (depth : nat) (this : StateId) (value : JsValue)
    (amplitude : JsArg) (q : QuantumState) (w : World) :
  states w !! this = Some q ->
  only_target w this q ->
  writes_only this (setAmplitude depth this value amplitude) w.
Proof.
  intros Hq Hot. destruct amplitude as [a|v]; [|now apply writes_only_same].
  unfold setAmplitude. apply writes_only_bind; [apply writes_only_onState|].
  intros [] _. rewrite (onState_run _ _ _ _ Hq). simpl fst.
  destruct (setAmplitude_own value a q) as [q1 r] eqn:Hp. simpl fst.
  eapply normalize_writes_only; [eapply lookup_set_states_eq; eauto|].
  apply setAmplitude_own_same in Hp as [Hl _]. eapply only_target_links; eauto.
Qed.

Lemma collapseTo_writes_only (depth : nat) (this : StateId) (value : JsValue)
    (metadata : CollapseMeta) (q : QuantumState) (w : World) :
  states w !! this = Some q ->
  only_target w this q ->
  writes_only this (collapseTo depth this value metadata) w.
Proof.
  intros Hq Hot. rewrite collapseTo_eq.
  apply writes_only_bind; [apply writes_only_same; now rewrite (getState_run _ _ _ Hq)|].
  intros q0. rewrite (getState_run _ _ _ Hq). simpl. intros [= <-].
  destruct (negb _); [now apply writes_only_same|].
  apply writes_only_bind; [now split|]. intros now _. simpl fst.
  apply writes_only_bind; [apply writes_only_onState|]. intros [] _.
  apply writes_only_same.
  edestruct notify_measured_only_target as [r ->]; [|reflexivity].
  unfold onState. simpl. rewrite Hq. simpl. exact Hot.
Qed.

Lemma measure_writes_only (depth : nat) (this : StateId) (q : QuantumState) (w : World) :
  states w !! this = Some q ->
  only_target w this q ->
  writes_only this (measure depth this) w.
Proof.
  intros Hq Hot. unfold measure.
  apply writes_only_bind; [apply writes_only_same; now rewrite (getState_run _ _ _ Hq)|].
  intros q0. rewrite (getState_run _ _ _ Hq). simpl. intros [= <-].
  destruct (isCollapsed q); [now apply writes_only_same|].
  apply writes_only_bind; [now split|]. intros rand _. simpl fst.
  apply writes_only_bind; [|intros; now apply writes_only_same].
  eapply collapseTo_writes_only; [exact Hq|exact Hot].
Qed.

(** C10 — Propagation is one-directional.  An update or measurement
    notification whose originating state is not the source ([state1]) of the
    Correlation returns at once and writes nothing; hence normalizing,
    stabilizing, mutating, collapsing or measuring an object that is only a
    target leaves every other object, the source included, exactly as it
    was. *)
Theorem propagation_is_one_directional (depth : nat) (w : World) :
  (forall e ent origin value,
      links w !! e = Some ent ->
      origin <> state1 ent ->
      updateEntanglement depth e (Some origin) w = (w, Ret tt) /\
      onMeasurement depth e origin value w = (w, Ret tt)) /\
  (forall target q,
      states w !! target = Some q ->
      only_target w target q ->
      writes_only target (normalize depth target) w /\
      writes_only target (stabilize depth target) w /\
      (forall value amplitude,
          writes_only target (setAmplitude depth target value amplitude) w) /\
      (forall value metadata,
          writes_only target (collapseTo depth target value metadata) w) /\
      writes_only target (measure depth target) w).
Proof.
  split.
  - intros e ent origin value He Hne. split.
    + eapply updateEntanglement_foreign; eauto.
    + eapply onMeasurement_foreign; eauto.
  - intros target q Hq Hot. repeat split.
    + eapply normalize_writes_only; eauto.
    + eapply normalize_writes_only; eauto.
    + eapply stabilize_writes_only; eauto.
    + eapply stabilize_writes_only; eauto.
    + eapply setAmplitude_writes_only; eauto.
    + eapply setAmplitude_writes_only; eauto.
    + eapply collapseTo_writes_only; eauto.
    + eapply collapseTo_writes_only; eauto.
    + eapply measure_writes_only; eauto.
    + eapply measure_writes_only; eauto.
Qed.

(** ** A collapse that propagates *)

Lemma cascade_step_refl (X : StateId -> Prop) (w : World) : cascade_step X w w.
Proof. repeat split; eauto. Qed.

Lemma cascade_step_trans (X Y Z : StateId -> Prop) (w1 w2 w3 : World) :
  (forall i, X i -> Z i) -> (forall i, Y i -> Z i) ->
  cascade_step X w1 w2 -> cascade_step Y w2 w3 -> cascade_step Z w1 w3.
Proof.
  intros HX HY (Hl1 & Hc1 & Hu1) (Hl2 & Hc2 & Hu2). repeat split.
  - congruence.
  - intros i q Hq Hc. destruct (Hc1 i q Hq Hc) as (q' & Hq' & Hc'). eauto.
  - intros i Hn Hz. rewrite Hu2, Hu1; auto.
    intros e ent He Ha. rewrite Hl1 in He. exact (Hn e ent He Ha).
Qed.

Lemma cascade_step_weaken (X Z : StateId -> Prop) (w w' : World) :
  (forall i, not_targeted w i -> X i -> Z i) ->
  cascade_step X w w' -> cascade_step Z w w'.
Proof.
  intros HX (Hl & Hc & Hu). split; [exact Hl|split; [exact Hc|]].
  intros i Hn Hz. apply Hu; [exact Hn|]. intros Hx. exact (Hz (HX i Hn Hx)).
Qed.

Lemma cascade_step_forEach {A} (xs : list A) (body : A -> Eff World unit) :
  (forall x w w' r, body x w = (w', r) -> cascade_step (fun _ => False) w w') ->
  forall w w' r, forEach xs body w = (w', r) -> cascade_step (fun _ => False) w w'.
Proof.
  intros Hbody. induction xs as [|x xs IH]; intros w w' r; simpl.
  - intros [= <- <-]. apply cascade_step_refl.
  - rewrite bind_run. destruct (body x w) as [w1 [[]|e]] eqn:Hb.
    + intros H.
      eapply (cascade_step_trans (fun _ => False) (fun _ => False));
        [auto|auto|eapply Hbody; eauto|eapply IH; eauto].
    + intros [= <- <-]. eapply Hbody; eauto.
Qed.

(** The write shared by [collapseTo] and the injection. *)
Lemma collapsed_on_step (x : StateId) (value : JsValue) (w w1 w' : World) (now : Z)
    (h : Z -> HistoryEntry) (q : QuantumState) (r : Outcome unit) :
  states w !! x = Some q ->
  call_Date_now w = (w1, Ret now) ->
  onState x (modifyS (collapsed_on value (h now))) w1 = (w', r) ->
  r = Ret tt /\
  states w' = <[x := collapsed_on value (h now) q]> (states w) /\
  cascade_step (fun i => i = x) w w'.
Proof.
  intros Hq [= <- <-]. unfold onState. simpl. rewrite Hq. simpl.
  intros [= <- <-]. repeat split.
  - intros i q0 Hq0 Hc. simpl. destruct (decide (i = x)) as [->|Hne].
    + rewrite list_lookup_insert_eq by (eapply lookup_lt_Some; eauto). eauto.
    + rewrite list_lookup_insert_ne by congruence. eauto.
  - intros i _ Hne. simpl. apply list_lookup_insert_ne. congruence.
Qed.

Lemma collapse_cascade (depth : nat) :
  (forall e value w w' r,
      _collapseState2 depth e value w = (w', r) ->
      cascade_step (fun i => exists ent, links w !! e = Some ent /\ state2 ent = i) w w') /\
  (forall this value metadata w w' r,
      collapseTo depth this value metadata w = (w', r) ->
      cascade_step (fun i => i = this) w w') /\
  (forall e measuredState value w w' r,
      onMeasurement depth e measuredState value w = (w', r) ->
      cascade_step (fun _ => False) w w').
Proof.
  induction depth as [depth IH] using lt_wf_ind.
  assert (Hmeasured : forall e measuredState value w w' r,
      onMeasurement depth e measuredState value w = (w', r) ->
      cascade_step (fun _ => False) w w').
  { intros e s value w w' r. rewrite onMeasurement_eq, bind_run.
    unfold getLink. destruct (links w !! e) as [ent|] eqn:He;
      [|intros [= <- <-]; apply cascade_step_refl].
    destruct (isActive ent) eqn:Hact; simpl; [|intros [= <- <-]; apply cascade_step_refl].
    destruct (bool_decide _); [|intros [= <- <-]; apply cascade_step_refl].
    destruct (bool_decide _); [intros [= <- <-]; apply cascade_step_refl|].
    destruct depth as [|d]; [intros [= <- <-]; apply cascade_step_refl|].
    intros H. destruct (IH d (Nat.lt_succ_diag_r d)) as (H2 & _ & _).
    apply H2 in H. eapply cascade_step_weaken; [|exact H].
    intros i Hn (ent' & He' & <-). rewrite He in He'. injection He' as <-.
    exact (Hn e ent He Hact eq_refl). }
  assert (Hcollapse : forall this value metadata w w' r,
      collapseTo depth this value metadata w = (w', r) ->
      cascade_step (fun i => i = this) w w').
  { intros this value metadata w w' r. rewrite collapseTo_eq, bind_run.
    unfold getState. destruct (states w !! this) as [q|] eqn:Hq;
      [|intros [= <- <-]; apply cascade_step_refl].
    destruct (negb _); [intros [= <- <-]; apply cascade_step_refl|].
    cbv zeta. rewrite bind_run.
    destruct (call_Date_now w) as [w1 [now|?]] eqn:Hnow; [|discriminate Hnow].
    rewrite bind_run.
    destruct (onState this _ w1) as [w2 r2] eqn:Hon.
    destruct (collapsed_on_step this value w w1 w2 now
                (fun t => mkHistoryEntry t value (reason_or_default (meta_reason metadata))
                            (default (getProbabilities q) (meta_preMeasurementProbs metadata)))
                q r2 Hq Hnow Hon) as (-> & _ & Hstep).
    intros H.
    eapply (cascade_step_trans (fun i => i = this) (fun _ => False));
      [auto|intros i []|exact Hstep|].
    eapply cascade_step_forEach; [|exact H].
    intros e wa wb rb. destruct depth as [|d]; [intros [= <- <-]; apply cascade_step_refl|].
    destruct (IH d (Nat.lt_succ_diag_r d)) as (_ & _ & H3). apply H3. }
  split; [|split; assumption].
  intros e value w w' r. rewrite _collapseState2_eq, bind_run.
  unfold getLink. destruct (links w !! e) as [ent|] eqn:He;
    [|intros [= <- <-]; apply cascade_step_refl].
  rewrite bind_run. unfold getState.
  destruct (states w !! state2 ent) as [q2|] eqn:Hq2;
    [|intros [= <- <-]; apply cascade_step_refl].
  destruct (Map_has value (basis q2)).
  - destruct depth as [|d]; [intros [= <- <-]; apply cascade_step_refl|].
    intros H. destruct (IH d (Nat.lt_succ_diag_r d)) as (_ & H2 & _).
    apply H2 in H. eapply cascade_step_weaken; [|exact H].
    intros i _ ->. eauto.
  - rewrite bind_run.
    destruct (call_Date_now w) as [w1 [now|?]] eqn:Hnow; [|discriminate Hnow].
    intros Hon.
    destruct (collapsed_on_step (state2 ent) value w w1 w' now
                (fun t => mkHistoryEntry t value "entanglement-collapse" [])
                q2 r Hq2 Hnow Hon) as (_ & _ & Hstep).
    eapply cascade_step_weaken; [|exact Hstep].
    intros i _ ->. eauto.
Qed.

(** ** Measuring *)

Lemma measure_collapsed_run (depth : nat) (this : StateId) (w : World) (q : QuantumState) :
  states w !! this = Some q ->
  isCollapsed q = true ->
  measure depth this w = (w, Ret (collapsedValue q)).
Proof.
  intros Hq Hc. unfold measure.
  rewrite bind_run, (getState_run _ _ _ Hq), Hc. reflexivity.
Qed.

Lemma measure_uncollapsed_run (depth : nat) (this : StateId) (w : World) (q : QuantumState) :
  states w !! this = Some q ->
  isCollapsed q = false ->
  let rand := Math_random w (random_calls w) in
  let after :=
    collapseTo depth this (pick rand q)
      (mkMeta (Some "measurement") (Some (getProbabilities q)))
      (with_random (Math_random w) (S (random_calls w)) w) in
  measure depth this w =
  (after.1, match after.2 with Ret _ => Ret (pick rand q) | Throw e => Throw e end).
Proof.
  intros Hq Hc. cbv zeta. unfold measure.
  rewrite bind_run, (getState_run _ _ _ Hq), Hc, bind_run.
  unfold call_Math_random at 1. rewrite bind_run. unfold with_random.
  now destruct (collapseTo _ _ _ _ _) as [w2 [[]|e]].
Qed.

(** C9 — A further [measure()] on a collapsed object returns the stored
    value and leaves the whole store as it was: the basis, the flag, the
    stored value and the history of that object (no new record), and with
    them every other object and the two ambient call counters. *)
Theorem measure_collapsed_changes_nothing (depth : nat) (this : StateId) (w : World)
    (q : QuantumState) :
  states w !! this = Some q ->
  isCollapsed q = true ->
  measure depth this w = (w, Ret (collapsedValue q)).
Proof.
  intros Hq Hc. unfold measure. rewrite bind_run.
  unfold getState. rewrite Hq, Hc. reflexivity.
Qed.

(** [collapseTo], when the value is in the basis: its own write, then the
    notifications. *)
Lemma collapseTo_split (depth : nat) (this : StateId) (value : JsValue)
    (metadata : CollapseMeta) (w w' : World) (r : Outcome unit) (q : QuantumState) :
  states w !! this = Some q ->
  collapseTo depth this value metadata w = (w', r) ->
  (Map_has value (basis q) = false /\ w' = w /\
   r = Throw (RangeError "Cannot collapse to a value not present in the basis.")) \/
  (exists wa h,
      Map_has value (basis q) = true /\
      states wa = <[this := collapsed_on value h q]> (states w) /\
      links wa = links w /\
      random_calls wa = random_calls w /\
      cascade_step (fun _ => False) wa w').
Proof.
  intros Hq. rewrite collapseTo_eq, bind_run, (getState_run _ _ _ Hq).
  destruct (Map_has value (basis q)); cbn [negb];
    [|intros [= <- <-]; left; auto].
  cbv zeta. rewrite bind_run.
  destruct (call_Date_now w) as [w1 [now|?]] eqn:Hnow; [|discriminate Hnow].
  rewrite bind_run.
  destruct (onState this _ w1) as [w2 r2] eqn:Hon.
  destruct (collapsed_on_step this value w w1 w2 now
              (fun t => mkHistoryEntry t value (reason_or_default (meta_reason metadata))
                          (default (getProbabilities q) (meta_preMeasurementProbs metadata)))
              q r2 Hq Hnow Hon) as (-> & Hst & Hl & _).
  intros H. right. exists w2. eexists.
  split; [reflexivity|]. split; [exact Hst|]. split; [exact Hl|]. split.
  - revert Hon. injection Hnow as <- _. unfold onState. simpl. rewrite Hq. simpl.
    now intros [= <-].
  - eapply cascade_step_forEach; [|exact H].
    intros e wa wb rb. destruct depth as [|d]; [intros [= <- <-]; apply cascade_step_refl|].
    apply (collapse_cascade d).
Qed.

(** ** [measure()] returns *)

Lemma Map_get_set {V} (k r : JsValue) (v : V) (m : JsMap V) :
  Map_get r (Map_set k v m) = if decide (k = r) then Some v else Map_get r m.
Proof.
  induction m as [|[k' v'] m IH]; simpl.
  - reflexivity.
  - destruct (decide (k' = k)) as [->|Hne]; simpl.
    + now destruct (decide (k = r)).
    + destruct (decide (k' = r)) as [->|Hne'].
      * now rewrite decide_False by congruence.
      * exact IH.
Qed.

Lemma Map_has_keys {V} (k : JsValue) (m : JsMap V) :
  Map_has k m = true <-> k ∈ Map_keys m.
Proof.
  unfold Map_has. induction m as [|[k' v] m IH]; simpl.
  - split; [discriminate|]. intros H. inversion H.
  - destruct (decide (k' = k)) as [->|Hne].
    + split; [left|reflexivity].
    + rewrite IH. split; [now right|]. intros H. inversion H; subst; [congruence|assumption].
Qed.

Lemma Map_keys_set {V} (x k : JsValue) (v : V) (m : JsMap V) :
  x ∈ Map_keys (Map_set k v m) <-> x = k \/ x ∈ Map_keys m.
Proof.
  rewrite <- !Map_has_keys. unfold Map_has. rewrite Map_get_set.
  destruct (decide (k = x)) as [->|Hne].
  - split; [now left|reflexivity].
  - split; [now right|]. intros [->|H]; [congruence|exact H].
Qed.

Lemma getProbabilities_keys (q : QuantumState) (k : JsValue) :
  k ∈ Map_keys (getProbabilities q) <-> k ∈ Map_keys (basis q).
Proof.
  unfold getProbabilities.
  assert (H : forall b acc,
             k ∈ Map_keys (fold_left (fun probs e => Map_set e.1 (magnitudeSquared e.2) probs)
                                     b acc)
             <-> k ∈ Map_keys acc \/ k ∈ Map_keys b).
  { induction b as [|[k' a] b IH]; intros acc; simpl.
    - split; [now left|]. intros [H|H]; [exact H|inversion H].
    - rewrite IH, Map_keys_set. split.
      + intros [[->|H]|H]; [right; left|now left|right; now right].
      + intros [H|H]; [left; now right|].
        inversion H; subst; [left; now left|now right]. }
  rewrite H. split; [|now right]. intros [Hnil|Hb]; [inversion Hnil|exact Hb].
Qed.

Lemma walk_keys (rand : float) (probabilities : JsMap float) :
  forall cumulative,
    walk rand cumulative probabilities = JUndefined \/
    walk rand cumulative probabilities ∈ Map_keys probabilities.
Proof.
  induction probabilities as [|[v p] rest IH]; intros cumulative; simpl.
  - now left.
  - destruct (_ <=? _)%float.
    + right. left.
    + destruct (IH (cumulative + p)%float) as [H|H]; [now left|right; now right].
Qed.

Lemma last_key_keys (b : JsMap Complex) : b <> [] -> last_key b ∈ Map_keys b.
Proof.
  intros Hne. unfold last_key.
  destruct (last (Map_keys b)) as [k|] eqn:Hlast.
  - simpl. eapply last_Some_elem_of; eauto.
  - apply last_None in Hlast. destruct b; [congruence|discriminate].
Qed.

(** The value [measure()] picks is always in the basis: the fallback on
    the last entry covers the walk that ends without a hit. *)
Lemma pick_in_basis (rand : float) (q : QuantumState) :
  basis q <> [] -> Map_has (pick rand q) (basis q) = true.
Proof.
  intros Hne. apply Map_has_keys. unfold pick.
  destruct (bool_decide _) eqn:Hu; [now apply last_key_keys|].
  apply bool_decide_eq_false in Hu.
  destruct (walk_keys rand (getProbabilities q) 0%float) as [H|H]; [congruence|].
  now apply getProbabilities_keys.
Qed.

Lemma collapseTo_no_links_run (depth : nat) (this : StateId) (value : JsValue)
    (metadata : CollapseMeta) (w : World) (q : QuantumState) :
  states w !! this = Some q ->
  Map_has value (basis q) = true ->
  entanglements q = [] ->
  collapseTo depth this value metadata w =
  (mkWorld
     (<[this := collapsed_on value
                  (mkHistoryEntry (Date_now w (now_calls w)) value
                     (reason_or_default (meta_reason metadata))
                     (default (getProbabilities q) (meta_preMeasurementProbs metadata))) q]>
        (states w))
     (links w) (Math_random w) (random_calls w) (Date_now w) (S (now_calls w)),
   Ret tt).
Proof.
  intros Hq Hhas Hl.
  rewrite collapseTo_eq, bind_run, (getState_run _ _ _ Hq), Hhas. cbn [negb]. cbv zeta.
  rewrite bind_run. unfold call_Date_now at 1. rewrite bind_run.
  unfold onState at 1. simpl. rewrite Hq. simpl. rewrite Hl. reflexivity.
Qed.

(** On an object in superposition, with no entanglement and a basis that
    is not empty, [measure()] returns the value it picked, whatever the
    depth of the stack. *)
Lemma measure_returns (depth : nat) (this : StateId) (w : World) (q : QuantumState) :
  states w !! this = Some q ->
  isCollapsed q = false ->
  entanglements q = [] ->
  basis q <> [] ->
  exists w1, measure depth this w = (w1, Ret (pick (Math_random w (random_calls w)) q)).
Proof.
  intros Hq Hc Hl Hne. rewrite (measure_uncollapsed_run _ _ _ _ Hq Hc). cbv zeta.
  rewrite (collapseTo_no_links_run depth this _ _ (with_random _ _ w) q Hq
             (pick_in_basis _ _ Hne) Hl).
  simpl. now eexists.
Qed.

(** ** How far a collapse propagates *)

Lemma writes_within_refl (P : StateId -> Prop) (w : World) : writes_within P w w.
Proof. now split. Qed.

Lemma writes_within_trans (P : StateId -> Prop) (w1 w2 w3 : World) :
  writes_within P w1 w2 -> writes_within P w2 w3 -> writes_within P w1 w3.
Proof.
  intros [Hl1 H1] [Hl2 H2]. split; [congruence|].
  intros i Hi. now rewrite H2, H1.
Qed.

Lemma writes_within_weaken (P Q : StateId -> Prop) (w w' : World) :
  (forall i, P i -> Q i) -> writes_within P w w' -> writes_within Q w w'.
Proof. intros HPQ [Hl H]. split; [exact Hl|]. intros i Hi. apply H. auto. Qed.

Lemma writes_within_forEach {A} (P : StateId -> Prop) (ls : list Entanglement)
    (xs : list A) (body : A -> Eff World unit) :
  (forall x w w' r, links w = ls -> body x w = (w', r) -> writes_within P w w') ->
  forall w w' r, links w = ls -> forEach xs body w = (w', r) -> writes_within P w w'.
Proof.
  intros Hbody. induction xs as [|x xs IH]; intros w w' r Hls; simpl.
  - intros [= <- <-]. apply writes_within_refl.
  - rewrite bind_run. destruct (body x w) as [w1 [[]|e]] eqn:Hb.
    + intros H. pose proof (Hbody _ _ _ _ Hls Hb) as H1.
      eapply writes_within_trans; [exact H1|]. eapply IH; [|exact H].
      destruct H1 as [Hl _]. congruence.
    + intros [= <- <-]. eapply Hbody; eauto.
Qed.

Lemma writes_within_collapsed_on (x : StateId) (value : JsValue) (w w1 w' : World)
    (now : Z) (h : HistoryEntry) (r : Outcome unit) :
  call_Date_now w = (w1, Ret now) ->
  onState x (modifyS (collapsed_on value h)) w1 = (w', r) ->
  writes_within (fun i => i = x) w w'.
Proof.
  intros [= <- <-]. unfold onState. simpl.
  destruct (states w !! x) as [q|]; simpl; intros [= <- <-]; split; try reflexivity.
  intros i Hne. simpl. apply list_lookup_insert_ne. congruence.
Qed.

(** A propagating collapse writes only objects that are reached from
    where it starts. *)
Lemma collapse_cascade_reach (depth : nat) :
  (forall e value w w' r,
      _collapseState2 depth e value w = (w', r) ->
      writes_within
        (fun i => exists ent, links w !! e = Some ent /\
                              (i = state2 ent \/ reaches (links w) (state2 ent) i)) w w') /\
  (forall this value metadata w w' r,
      collapseTo depth this value metadata w = (w', r) ->
      writes_within (fun i => i = this \/ reaches (links w) this i) w w') /\
  (forall e measuredState value w w' r,
      onMeasurement depth e measuredState value w = (w', r) ->
      writes_within (fun i => reaches (links w) measuredState i) w w').
Proof.
  induction depth as [depth IH] using lt_wf_ind.
  assert (Hmeasured : forall e measuredState value w w' r,
      onMeasurement depth e measuredState value w = (w', r) ->
      writes_within (fun i => reaches (links w) measuredState i) w w').
  { intros e s value w w' r. rewrite onMeasurement_eq, bind_run.
    unfold getLink. destruct (links w !! e) as [ent|] eqn:He;
      [|intros [= <- <-]; apply writes_within_refl].
    destruct (isActive ent) eqn:Hact; simpl; [|intros [= <- <-]; apply writes_within_refl].
    destruct (bool_decide _) eqn:Hsrc; [|intros [= <- <-]; apply writes_within_refl].
    apply bool_decide_eq_true in Hsrc.
    destruct (bool_decide _); [intros [= <- <-]; apply writes_within_refl|].
    destruct depth as [|d]; [intros [= <- <-]; apply writes_within_refl|].
    intros H. destruct (IH d (Nat.lt_succ_diag_r d)) as (H2 & _ & _).
    apply H2 in H. eapply writes_within_weaken; [|exact H].
    intros i (ent' & He' & Hi). rewrite He in He'. injection He' as <-. subst s.
    pose proof (reaches_link (links w) e ent He Hact) as Hstep.
    destruct Hi as [->|Hi]; [exact Hstep|]. eapply reaches_trans; eauto. }
  assert (Hcollapse : forall this value metadata w w' r,
      collapseTo depth this value metadata w = (w', r) ->
      writes_within (fun i => i = this \/ reaches (links w) this i) w w').
  { intros this value metadata w w' r. rewrite collapseTo_eq, bind_run.
    unfold getState. destruct (states w !! this) as [q|] eqn:Hq;
      [|intros [= <- <-]; apply writes_within_refl].
    destruct (negb _); [intros [= <- <-]; apply writes_within_refl|].
    cbv zeta. rewrite bind_run.
    destruct (call_Date_now w) as [w1 [now|?]] eqn:Hnow; [|discriminate Hnow].
    rewrite bind_run.
    destruct (onState this _ w1) as [w2 r2] eqn:Hon.
    pose proof (writes_within_collapsed_on _ _ _ _ _ _ _ _ Hnow Hon) as Hown.
    destruct r2 as [[]|e2];
      [|intros [= <- <-]; eapply writes_within_weaken; [|exact Hown]; intros i ->; now left].
    intros H. eapply writes_within_trans.
    - eapply writes_within_weaken; [|exact Hown]. intros i ->. now left.
    - destruct Hown as [Hl _].
      eapply (writes_within_forEach _ (links w)); [|exact Hl|exact H].
      intros e wa wb rb Hla. destruct depth as [|d];
        [intros [= <- <-]; apply writes_within_refl|].
      intros Hm. destruct (IH d (Nat.lt_succ_diag_r d)) as (_ & _ & H3).
      apply H3 in Hm. rewrite Hla in Hm.
      eapply writes_within_weaken; [|exact Hm]. intros i Hi. now right. }
  split; [|split; assumption].
  intros e value w w' r. rewrite _collapseState2_eq, bind_run.
  unfold getLink. destruct (links w !! e) as [ent|] eqn:He;
    [|intros [= <- <-]; apply writes_within_refl].
  rewrite bind_run. unfold getState.
  destruct (states w !! state2 ent) as [q2|] eqn:Hq2;
    [|intros [= <- <-]; apply writes_within_refl].
  destruct (Map_has value (basis q2)).
  - destruct depth as [|d]; [intros [= <- <-]; apply writes_within_refl|].
    intros H. destruct (IH d (Nat.lt_succ_diag_r d)) as (_ & H2 & _).
    apply H2 in H. eapply writes_within_weaken; [|exact H].
    intros i Hi. exists ent. now split.
  - rewrite bind_run.
    destruct (call_Date_now w) as [w1 [now|?]] eqn:Hnow; [|discriminate Hnow].
    intros Hon.
    eapply writes_within_weaken;
      [|exact (writes_within_collapsed_on _ _ _ _ _ _ _ _ Hnow Hon)].
    intros i ->. exists ent. split; [reflexivity|now left].
Qed.

(** What [collapseTo] leaves once it has written its own object: the
    notifications write only objects reached from it. *)
Lemma collapseTo_reach (depth : nat) (this : StateId) (value : JsValue)
    (metadata : CollapseMeta) (w w' : World) (q : QuantumState) :
  states w !! this = Some q ->
  collapseTo depth this value metadata w = (w', Ret tt) ->
  exists wa h,
    states wa = <[this := collapsed_on value h q]> (states w) /\
    writes_within (fun i => reaches (links w) this i) wa w'.
Proof.
  intros Hq. rewrite collapseTo_eq, bind_run, (getState_run _ _ _ Hq).
  destruct (Map_has value (basis q)); cbn [negb]; [|discriminate].
  cbv zeta. rewrite bind_run.
  destruct (call_Date_now w) as [w1 [now|?]] eqn:Hnow; [|discriminate Hnow].
  rewrite bind_run.
  destruct (onState this _ w1) as [w2 r2] eqn:Hon.
  destruct (collapsed_on_step this value w w1 w2 now
              (fun t => mkHistoryEntry t value (reason_or_default (meta_reason metadata))
                          (default (getProbabilities q) (meta_preMeasurementProbs metadata)))
              q r2 Hq Hnow Hon) as (-> & Hst & Hl & _).
  intros H. exists w2. eexists. split; [exact Hst|].
  rewrite <- Hl. eapply (writes_within_forEach _ (links w2)); [|reflexivity|exact H].
  intros e wa wb rb Hla. destruct depth as [|d];
    [intros [= <- <-]; apply writes_within_refl|].
  intros Hm. apply (collapse_cascade_reach d) in Hm. now rewrite Hla in Hm.
Qed.

Lemma reaches_source (ls : list Entanglement) (i j : StateId) :
  reaches ls i j ->
  exists e ent, ls !! e = Some ent /\ isActive ent = true /\ state1 ent = i.
Proof. induction 1 as [e ent He Ha|i j k _ IH _ _]; [now exists e, ent|exact IH]. Qed.

(** X28 — [measure()] twice.  Whenever a first [measure()] returns, the
    object is collapsed, so a second call draws no sample, walks no
    distribution, writes nothing and returns the stored [collapsedValue].
    That value is the one the first call returned unless the measured
    object can be reached from itself along active entanglements: a source,
    a target and a link of a chain all measure the same twice.  On an
    object without entanglement and with a basis that is not empty the
    first call does return. *)
Theorem second_measure_agrees_off_cycles (depth depth' : nat) (this : StateId) (w : World) :
  (forall w1 v,
      measure depth this w = (w1, Ret v) ->
      (exists q1,
          states w1 !! this = Some q1 /\ isCollapsed q1 = true /\
          measure depth' this w1 = (w1, Ret (collapsedValue q1))) /\
      (~ reaches (links w) this this -> measure depth' this w1 = (w1, Ret v))) /\
  (forall q,
      states w !! this = Some q ->
      entanglements q = [] ->
      basis q <> [] ->
      exists w1 v, measure depth this w = (w1, Ret v)).
Proof.
  split.
  - intros w1 v. unfold measure at 1. rewrite bind_run. unfold getState.
    destruct (states w !! this) as [q|] eqn:Hq; [|discriminate].
    destruct (isCollapsed q) eqn:Hc.
    + intros [= <- <-]. split.
      * exists q. repeat split; auto. now apply measure_collapsed_run.
      * intros _. now apply measure_collapsed_run.
    + rewrite bind_run. unfold call_Math_random at 1. rewrite bind_run.
      set (wr := mkWorld _ _ _ _ _ _).
      destruct (collapseTo depth this _ _ wr) as [w2 [[]|err]] eqn:Hcol; [|discriminate].
      intros [= <- <-].
      assert (Hqr : states wr !! this = Some q) by exact Hq.
      split.
      * destruct (collapseTo_split _ _ _ _ _ _ _ _ Hqr Hcol)
          as [(_ & _ & ?)|(wa & h & _ & Hst & Hl & _ & Hc1 & Hc2 & Hc3)]; [discriminate|].
        assert (Ha : states wa !! this
                     = Some (collapsed_on (pick (Math_random w (random_calls w)) q) h q)).
        { rewrite Hst. apply list_lookup_insert_eq. eapply lookup_lt_Some; eauto. }
        destruct (Hc2 this _ Ha eq_refl) as (q1 & Hq1 & Hcq1).
        exists q1. repeat split; auto. now apply measure_collapsed_run.
      * intros Hacyclic.
        destruct (collapseTo_reach _ _ _ _ _ _ _ Hqr Hcol) as (wa & h & Hst & _ & Hfar).
        assert (Hq1 : states w2 !! this
                      = Some (collapsed_on (pick (Math_random w (random_calls w)) q) h q)).
        { rewrite (Hfar this Hacyclic), Hst.
          apply list_lookup_insert_eq. eapply lookup_lt_Some; eauto. }
        apply (measure_collapsed_run depth' this w2 _ Hq1 eq_refl).
  - intros q Hq Hl Hne. destruct (isCollapsed q) eqn:Hc.
    + exists w, (collapsedValue q). now apply measure_collapsed_run.
    + destruct (measure_returns depth this w q Hq Hc Hl Hne) as [w1 H]. eauto.
Qed.

(** ** [setAmplitude] that fails *)

(** [normalize()] on an object that is the source of no active
    entanglement: the notifications all return at once. *)
Lemma normalize_source_of_none (depth : nat) (this : StateId) (w : World) (q : QuantumState) :
  states w !! this = Some q ->
  source_of_none w this q ->
  normalize (S depth) this w = onState this normalize_own w.
Proof.
  intros Hq Hs. rewrite normalize_eq, bind_run, (onState_run _ _ _ _ Hq).
  destruct (normalize_own q) as [q' r] eqn:Hown. simpl fst. simpl snd.
  destruct r as [[]|e]; [|reflexivity].
  rewrite bind_run, (getState_run this _ q') by (eapply lookup_set_states_eq; eauto).
  apply normalize_own_keeps in Hown as [Hl _]. rewrite Hl.
  apply forEach_skip. intros e He. destruct (Hs e He) as (ent & Hent & Hor).
  eapply updateEntanglement_foreign; [exact Hent|exact Hor].
Qed.

(** C5 (amended) — An argument that is not a [Complex] is refused before
    anything is written.  When [setAmplitude] fails later, on an object
    that is the source of no active entanglement, no other object is
    written and the object keeps its collapsed flag, its stored value, its
    history and its entanglements; its basis is not promised to be the one
    it had. *)
Theorem setAmplitude_failure (depth : nat) (this : StateId) (value : JsValue) (w : World) :
  (forall v,
      setAmplitude depth this value (AOther v) w =
      (w, Throw (TypeError "setAmplitude requires amplitude to be Complex."))) /\
  (forall a q w' err,
      states w !! this = Some q ->
      source_of_none w this q ->
      setAmplitude (S depth) this value (AComplex a) w = (w', Throw err) ->
      exists q', w' = set_states (<[this := q']> (states w)) w /\ same_but_basis q q').
Proof.
  split; [reflexivity|].
  intros a q w' err Hq Hs. unfold setAmplitude.
  rewrite bind_run, (onState_run _ _ _ _ Hq).
  destruct (setAmplitude_own value a q) as [q1 r1] eqn:Hown. simpl fst. simpl snd.
  pose proof (setAmplitude_own_same _ _ _ _ _ Hown) as Hs1.
  destruct r1 as [[]|e1].
  - set (w1 := set_states _ w).
    assert (Hq1 : states w1 !! this = Some q1) by (eapply lookup_set_states_eq; eauto).
    assert (Hs' : source_of_none w1 this q1).
    { intros e He. destruct Hs1 as [Hl _]. rewrite Hl in He. exact (Hs e He). }
    rewrite (normalize_source_of_none depth this w1 q1 Hq1 Hs').
    rewrite (onState_run _ _ _ _ Hq1).
    destruct (normalize_own q1) as [q2 r2] eqn:Hn. simpl.
    intros [= <- ->]. exists q2. split.
    + unfold set_states. simpl. now rewrite list_insert_insert_eq.
    + eapply same_but_basis_trans; [exact Hs1|]. eapply normalize_own_throw; eauto.
  - intros [= <- <-]. eauto.
Qed.

(** ** [quantumWhile] *)

Lemma rounds_anyTrue_step (condition : JsValue -> bool)
    (bodyFn : JsValue -> nat -> BranchResult) (iteration n : nat)
    (state next : QuantumState) :
  anyTrue condition state = true ->
  _applyConditionalBody state iteration condition bodyFn = Ret next ->
  (forall k s, k < n -> rounds (S iteration) k condition bodyFn next = Ret s ->
               anyTrue condition s = true) ->
  forall k s, k < S n -> rounds iteration k condition bodyFn state = Ret s ->
              anyTrue condition s = true.
Proof.
  intros Hany Hnext Hrest [|k] s Hk; simpl.
  - now intros [= <-].
  - rewrite Hnext. simpl. apply Hrest. lia.
Qed.

(** What a run of the loop that returns has done. *)
Lemma quantumWhile_loop_run (condition : JsValue -> bool)
    (bodyFn : JsValue -> nat -> BranchResult) (remaining : nat) :
  forall iteration currentState hist r,
    quantumWhile_loop remaining iteration condition bodyFn currentState hist = Ret r ->
    exists n,
      iterations r = iteration + n /\ n <= remaining /\
      rounds iteration n condition bodyFn currentState = Ret (finalState r) /\
      (forall k s, k < n -> rounds iteration k condition bodyFn currentState = Ret s ->
                   anyTrue condition s = true) /\
      terminatedByMaxIterations r = bool_decide (n = remaining) /\
      (n < remaining -> anyTrue condition (finalState r) = false).
Proof.
  induction remaining as [|remaining IH]; intros iteration currentState hist r; simpl.
  - intros [= <-]. exists 0. simpl.
    split; [lia|]. split; [lia|]. split; [reflexivity|]. split; [intros k s Hk; lia|].
    split; [reflexivity|]. lia.
  - destruct (anyTrue condition currentState) eqn:Hany; simpl.
    + destruct (_applyConditionalBody _ _ _ _) as [next|e] eqn:Hnext; [|discriminate]. simpl.
      destruct (clone next) as [snapshot|e]; [|discriminate]. simpl.
      intros H. apply IH in H as (n & Hit & Hle & Hrun & Hbefore & Hflag & Hstop).
      exists (S n). simpl. rewrite Hnext. simpl.
      split; [lia|]. split; [lia|]. split; [exact Hrun|]. split.
      * eapply rounds_anyTrue_step; eauto.
      * split; [|intros Hlt; apply Hstop; lia].
        rewrite Hflag. apply bool_decide_ext. lia.
    + intros [= <-]. exists 0. simpl.
      split; [lia|]. split; [lia|]. split; [reflexivity|]. split; [intros k s Hk; lia|].
      split; [reflexivity|]. intros _. exact Hany.
Qed.

(** When the loop returns. *)
Lemma quantumWhile_loop_returns (condition : JsValue -> bool)
    (bodyFn : JsValue -> nat -> BranchResult) (remaining : nat) :
  forall iteration currentState hist n final,
    n <= remaining ->
    rounds iteration n condition bodyFn currentState = Ret final ->
    (forall k s, k < n -> rounds iteration k condition bodyFn currentState = Ret s ->
                 anyTrue condition s = true) ->
    n = remaining \/ anyTrue condition final = false ->
    (forall k s, 0 < k <= n -> rounds iteration k condition bodyFn currentState = Ret s ->
                 exists snapshot, clone s = Ret snapshot) ->
    exists hist',
      quantumWhile_loop remaining iteration condition bodyFn currentState hist =
      Ret (mkWhileResult final hist' (iteration + n) (bool_decide (n = remaining))).
Proof.
  induction remaining as [|remaining IH];
    intros iteration currentState hist n final Hle Hrun Hbefore Hstop Hclone.
  - assert (n = 0) as -> by lia. simpl in Hrun. injection Hrun as <-.
    exists hist. simpl. now rewrite Nat.add_0_r.
  - destruct n as [|n].
    + simpl in Hrun. injection Hrun as <-.
      destruct Hstop as [Hstop|Hstop]; [discriminate|].
      exists hist. simpl. rewrite Hstop. simpl. now rewrite Nat.add_0_r.
    + simpl. rewrite (Hbefore 0 currentState) by (simpl; first [lia|reflexivity]). simpl.
      simpl in Hrun.
      destruct (_applyConditionalBody _ _ _ _) as [next|e] eqn:Hnext; [|discriminate].
      simpl in Hrun |- *.
      destruct (Hclone 1 next) as [snapshot Hsnap]; [lia|simpl; now rewrite Hnext|].
      rewrite Hsnap. simpl.
      destruct (IH (S iteration) next (hist ++ [snapshot]) n final) as [hist' Hloop].
      * lia.
      * exact Hrun.
      * intros k s Hk Hs. apply (Hbefore (S k) s); [lia|]. simpl. now rewrite Hnext.
      * destruct Hstop as [Hstop|Hstop]; [left; lia|now right].
      * intros k s Hk Hs. apply (Hclone (S k) s); [lia|]. simpl. now rewrite Hnext.
      * exists hist'. rewrite Hloop. f_equal. f_equal; [lia|].
        apply bool_decide_ext. lia.
Qed.

(** C7 — How [quantumWhile] ends, for every condition, body, initial
    state and [maxIterations].  A negative [maxIterations] is refused.  A
    call that returns has run exactly [iterations] rounds from the copy of
    the initial state and hands back the state those rounds lead to; before
    each of these rounds some outcome satisfied the condition; at most
    [maxIterations] rounds were run; the flag is false exactly when the
    loop stopped before [maxIterations] rounds, and it stopped there
    because no outcome of the final state satisfies the condition; the flag
    is true exactly when [maxIterations] rounds were run (with
    [maxIterations = 0]: no round at all).  Conversely the call does
    return, with these values, as soon as the rounds up to the first state
    with no outcome satisfying the condition (or up to [maxIterations])
    return and their states can be copied. *)
Theorem quantumWhile_termination_flag (condition : JsValue -> bool)
    (bodyFn : JsValue -> nat -> BranchResult) (initialState : QuantumState)
    (maxIterations : Z) :
  ((maxIterations < 0)%Z ->
   quantumWhile condition bodyFn initialState maxIterations =
   Throw (RangeError "quantumWhile maxIterations must be a non-negative integer.")) /\
  (forall r,
      quantumWhile condition bodyFn initialState maxIterations = Ret r ->
      exists start,
        clone initialState = Ret start /\
        rounds 0 (iterations r) condition bodyFn start = Ret (finalState r) /\
        (forall k s, k < iterations r -> rounds 0 k condition bodyFn start = Ret s ->
                     anyTrue condition s = true) /\
        (Z.of_nat (iterations r) <= maxIterations)%Z /\
        (terminatedByMaxIterations r = false <->
         (Z.of_nat (iterations r) < maxIterations)%Z) /\
        (terminatedByMaxIterations r = false ->
         anyTrue condition (finalState r) = false) /\
        (terminatedByMaxIterations r = true <->
         Z.of_nat (iterations r) = maxIterations)) /\
  (forall start first n final,
      clone initialState = Ret start ->
      clone start = Ret first ->
      (Z.of_nat n <= maxIterations)%Z ->
      rounds 0 n condition bodyFn start = Ret final ->
      (forall k s, k < n -> rounds 0 k condition bodyFn start = Ret s ->
                   anyTrue condition s = true) ->
      Z.of_nat n = maxIterations \/ anyTrue condition final = false ->
      (forall k s, 0 < k <= n -> rounds 0 k condition bodyFn start = Ret s ->
                   exists snapshot, clone s = Ret snapshot) ->
      exists hist,
        quantumWhile condition bodyFn initialState maxIterations =
        Ret (mkWhileResult final hist n (bool_decide (Z.of_nat n = maxIterations)))).
Proof.
  split; [|split].
  - intros Hneg. unfold quantumWhile. now rewrite (proj2 (Z.ltb_lt _ _) Hneg).
  - intros r. unfold quantumWhile.
    destruct (maxIterations <? 0)%Z eqn:Hneg; [discriminate|].
    apply Z.ltb_ge in Hneg.
    destruct (clone initialState) as [start|e]; [|discriminate]. simpl.
    destruct (clone start) as [first|e]; [|discriminate]. simpl.
    intros H. apply quantumWhile_loop_run in H
      as (n & Hit & Hle & Hrun & Hbefore & Hflag & Hstop).
    simpl in Hit. subst n. exists start.
    split; [reflexivity|]. split; [exact Hrun|]. split; [exact Hbefore|].
    split; [lia|]. rewrite Hflag. split; [|split].
    + rewrite bool_decide_eq_false. lia.
    + rewrite bool_decide_eq_false. intros Hne. apply Hstop. lia.
    + rewrite bool_decide_eq_true. lia.
  - intros start first n final Hstart Hfirst Hle Hrun Hbefore Hstop Hclone.
    unfold quantumWhile.
    destruct (maxIterations <? 0)%Z eqn:Hneg; [apply Z.ltb_lt in Hneg; lia|].
    rewrite Hstart. simpl. rewrite Hfirst. simpl.
    destruct (quantumWhile_loop_returns condition bodyFn (Z.to_nat maxIterations)
                0 start [first] n final) as [hist Hloop];
      [lia|exact Hrun|exact Hbefore| |exact Hclone|].
    + destruct Hstop as [Hstop|Hstop]; [left; lia|now right].
    + exists hist. rewrite Hloop. simpl. f_equal. f_equal.
      apply bool_decide_ext. lia.
Qed.

(** ** Randomness *)

Lemma with_random_self (w : World) : with_random (Math_random w) (random_calls w) w = w.
Proof. now destruct w. Qed.

Lemma random_blind_keeps {A} (m : Eff World A) (w : World) :
  random_blind m ->
  random_calls (m w).1 = random_calls w /\ Math_random (m w).1 = Math_random w.
Proof.
  intros Hm. specialize (Hm (Math_random w) (random_calls w) w).
  rewrite with_random_self in Hm. destruct (m w) as [w' r]. simpl in *.
  injection Hm as ->. now split.
Qed.

Lemma random_blind_ret {A} (a : A) : random_blind (mret a : Eff World A).
Proof. now intros R n w. Qed.

Lemma random_blind_throw {A} (e : JsError) : random_blind (throw e : Eff World A).
Proof. now intros R n w. Qed.

Lemma random_blind_liftO {A} (o : Outcome A) : random_blind (liftO o : Eff World A).
Proof. now intros R n w. Qed.

Lemma random_blind_bind {A B} (m : Eff World A) (k : A -> Eff World B) :
  random_blind m -> (forall a, random_blind (k a)) -> random_blind (m ≫= k).
Proof.
  intros Hm Hk R n w. rewrite !bind_run, Hm.
  destruct (m w) as [w1 [a|e]]; simpl; [apply Hk|reflexivity].
Qed.

Lemma random_blind_getState (id : StateId) : random_blind (getState id).
Proof. intros R n w. unfold getState. simpl. now destruct (states w !! id). Qed.

Lemma random_blind_getLink (e : LinkId) : random_blind (getLink e).
Proof. intros R n w. unfold getLink. simpl. now destruct (links w !! e). Qed.

Lemma random_blind_onState {A} (id : StateId) (m : Eff QuantumState A) :
  random_blind (onState id m).
Proof.
  intros R n w. unfold onState. simpl. destruct (states w !! id) as [q|]; [|reflexivity].
  now destruct (m q).
Qed.

Lemma random_blind_Date_now : random_blind call_Date_now.
Proof. now intros R n w. Qed.

Lemma random_blind_allocState (q : QuantumState) : random_blind (allocState q).
Proof. now intros R n w. Qed.

Lemma random_blind_allocLink (ent : Entanglement) : random_blind (allocLink ent).
Proof. now intros R n w. Qed.

Lemma random_blind_writeLink (e : LinkId) (ent : Entanglement) : random_blind (writeLink e ent).
Proof. now intros R n w. Qed.

Lemma random_blind_forEach {A} (xs : list A) (body : A -> Eff World unit) :
  (forall x, random_blind (body x)) -> random_blind (forEach xs body).
Proof.
  intros Hb. induction xs as [|x xs IH]; simpl.
  - apply random_blind_ret.
  - apply random_blind_bind; auto.
Qed.

Create HintDb blind.

#[local] Hint Resolve random_blind_ret random_blind_throw random_blind_liftO
  random_blind_getState random_blind_getLink random_blind_onState random_blind_Date_now
  random_blind_allocState random_blind_allocLink random_blind_writeLink : blind.

Ltac blind_step :=
  match goal with
  | |- random_blind (_ ≫= _) => apply random_blind_bind; [|intros ?]
  | |- random_blind (forEach _ _) => apply random_blind_forEach; intros ?
  | |- random_blind (if ?b then _ else _) => destruct b
  | |- random_blind (let _ := _ in _) => cbv zeta
  | |- random_blind stack_overflow => apply random_blind_throw
  | |- random_blind _ => solve [auto with blind]
  end.

Lemma collapse_cascade_blind (depth : nat) :
  (forall e value, random_blind (_collapseState2 depth e value)) /\
  (forall this value metadata, random_blind (collapseTo depth this value metadata)) /\
  (forall e measuredState value, random_blind (onMeasurement depth e measuredState value)).
Proof.
  induction depth as [depth IH] using lt_wf_ind.
  repeat split; intros.
  - rewrite _collapseState2_eq. repeat blind_step.
    destruct depth as [|d]; [blind_step|]. apply (IH d); lia.
  - rewrite collapseTo_eq. repeat blind_step.
    destruct depth as [|d]; [blind_step|]. apply (IH d); lia.
  - rewrite onMeasurement_eq. repeat blind_step.
    destruct depth as [|d]; [blind_step|]. apply (IH d); lia.
Qed.

Lemma normalize_cascade_blind (depth : nat) :
  (forall this, random_blind (normalize depth this)) /\
  (forall e source, random_blind (updateEntanglement depth e source)).
Proof.
  induction depth as [depth IH] using lt_wf_ind.
  split; intros.
  - rewrite normalize_eq. repeat blind_step.
    destruct depth as [|d]; [blind_step|]. apply (IH d); lia.
  - rewrite updateEntanglement_eq. repeat blind_step.
    + destruct depth as [|d]; [blind_step|]. apply (collapse_cascade_blind d).
    + destruct depth as [|d]; [blind_step|]. apply (IH d); lia.
Qed.

(** C8 (amended) — [measure()] is the one consumer of randomness, and it
    reads the ambient [Math.random].  Every other method of the store
    neither reads nor advances it; [measure()] advances it by exactly one
    call on an object in superposition and by none on a collapsed one; and
    two stores that differ only in their random source answer [measure()]
    alike as soon as the next sample is the same. *)
Theorem randomness_only_in_measure (depth : nat) :
  ((forall this, random_blind (normalize depth this)) /\
   (forall this, random_blind (stabilize depth this)) /\
   (forall this value amplitude, random_blind (setAmplitude depth this value amplitude)) /\
   (forall this value metadata, random_blind (collapseTo depth this value metadata)) /\
   (forall e source, random_blind (updateEntanglement depth e source)) /\
   (forall e measuredState value, random_blind (onMeasurement depth e measuredState value)) /\
   (forall entries, random_blind (QuantumState_alloc entries)) /\
   (forall s1 s2 f, random_blind (Entanglement_new depth s1 s2 f)) /\
   (forall e, random_blind (dispose e))) /\
  (forall this w q,
      states w !! this = Some q ->
      Math_random (measure depth this w).1 = Math_random w /\
      random_calls (measure depth this w).1 =
        if isCollapsed q then random_calls w else S (random_calls w)) /\
  (forall this R n w,
      R n = Math_random w (random_calls w) ->
      (measure depth this (with_random R n w)).2 = (measure depth this w).2 /\
      states (measure depth this (with_random R n w)).1 = states (measure depth this w).1).
Proof.
  pose proof (collapse_cascade_blind depth) as (Hc2 & Hct & Hom).
  pose proof (normalize_cascade_blind depth) as (Hn & Hu).
  split; [|split].
  - repeat split; intros; auto.
    + unfold stabilize. repeat blind_step.
    + unfold setAmplitude. destruct amplitude; repeat blind_step.
    + unfold QuantumState_alloc. repeat blind_step.
    + unfold Entanglement_new. repeat blind_step.
    + unfold dispose. repeat blind_step.
  - intros this w q Hq. destruct (isCollapsed q) eqn:Hcol.
    + now rewrite (measure_collapsed_run _ _ _ _ Hq Hcol).
    + rewrite (measure_uncollapsed_run _ _ _ _ Hq Hcol). cbv zeta. simpl fst.
      destruct (random_blind_keeps (collapseTo depth this
                  (pick (Math_random w (random_calls w)) q)
                  (mkMeta (Some "measurement") (Some (getProbabilities q))))
                  (with_random (Math_random w) (S (random_calls w)) w)
                  (Hct _ _ _)) as [-> ->].
      now split.
  - intros this R n w HR.
    destruct (states w !! this) as [q|] eqn:Hq.
    + assert (Hq' : states (with_random R n w) !! this = Some q) by exact Hq.
      destruct (isCollapsed q) eqn:Hcol.
      * rewrite (measure_collapsed_run _ _ _ _ Hq Hcol),
                (measure_collapsed_run _ _ _ _ Hq' Hcol). now split.
      * rewrite (measure_uncollapsed_run _ _ _ _ Hq Hcol),
                (measure_uncollapsed_run _ _ _ _ Hq' Hcol).
        cbv zeta. simpl Math_random. simpl random_calls. rewrite HR.
        change (with_random R (S n) (with_random R n w)) with (with_random R (S n) w).
        rewrite (Hct _ _ _ R (S n) w),
                (Hct _ _ _ (Math_random w) (S (random_calls w)) w).
        now split.
    + unfold measure. rewrite !bind_run. unfold getState. simpl. rewrite Hq. now split.
Qed.

(** ** The structural part of the invariants *)

Lemma prune_kept (q q' : QuantumState) :
  _pruneNearZeroAmplitudes q = (q', Ret tt) -> basis q' <> [] /\ all_kept (basis q').
Proof.
  intros H. split; [eapply prune_nonempty; eauto|].
  revert H. unfold _pruneNearZeroAmplitudes.
  destruct (_ =? _)%nat; intros [= <-]. simpl.
  apply Forall_forall. intros e He. apply list_elem_of_In, filter_In in He as [_ He].
  now apply negb_true_iff in He.
Qed.

(** After a [normalize()] that returns, the basis is not empty and holds
    no entry below the prune epsilon; a raised collapsed flag comes with a
    single entry, equal to (1,0) within 1e-12, at the stored value. *)
Lemma normalize_own_kept (q q' : QuantumState) :
  normalize_own q = (q', Ret tt) ->
  basis q' <> [] /\ all_kept (basis q') /\
  (isCollapsed q' = true ->
   exists a, basis q' = [(collapsedValue q', a)] /\ Complex_equals a Complex_one = true).
Proof.
  unfold normalize_own.
  destruct (_ || _); [discriminate|].
  destruct (scale_entries _ _) as [b' [[]|e']]; [|discriminate].
  rewrite bind_run.
  destruct (_pruneNearZeroAmplitudes _) as [q1 [[]|e1]] eqn:Hp; [|discriminate].
  apply prune_kept in Hp as [Hne Hall].
  unfold _updateCollapsedFlags.
  destruct (basis q1) as [|[v a] [|e2 rest]] eqn:Hb; [now destruct Hne| |];
    intros [= <-]; simpl; rewrite ?Hb.
  - split; [discriminate|]. split; [exact Hall|].
    intros Hc. exists a. now rewrite Hc.
  - split; [discriminate|]. split; [exact Hall|]. discriminate.
Qed.

Lemma QuantumState_new_kept (entries : list (JsValue * Complex)) (q : QuantumState) :
  QuantumState_new entries = Ret q ->
  basis q <> [] /\ all_kept (basis q) /\ entanglements q = [] /\ measurementHistory q = [].
Proof.
  unfold QuantumState_new. destruct entries as [|entry entries]; [discriminate|].
  destruct (accumulate _ _) as [b|]; [|discriminate]. simpl.
  rewrite bind_run.
  destruct (_pruneNearZeroAmplitudes _) as [q1 [[]|e1]] eqn:Hp; [|discriminate].
  destruct (normalize_own q1) as [q2 [[]|e2]] eqn:Hn; [|discriminate].
  intros [= <-]. pose proof (normalize_own_keeps _ _ _ Hn) as [Hl Hh].
  apply prune_same in Hp as (Hl1 & Hh1 & _). simpl in Hl1, Hh1.
  apply normalize_own_kept in Hn as (Hne & Hall & _).
  repeat split; auto; congruence.
Qed.

(** ** A collapsed source and its target *)

Lemma collapseState2_injects (depth : nat) (e : LinkId) (ent : Entanglement) (w : World)
    (qt : QuantumState) (k : JsValue) :
  links w !! e = Some ent ->
  states w !! state2 ent = Some qt ->
  Map_has k (basis qt) = false ->
  exists w' h,
    _collapseState2 depth e k w = (w', Ret tt) /\
    states w' = <[state2 ent := collapsed_on k h qt]> (states w) /\
    links w' = links w /\ random_calls w' = random_calls w.
Proof.
  intros He Hqt Hk. rewrite _collapseState2_eq, bind_run, (getLink_run _ _ _ He),
    bind_run, (getState_run _ _ _ Hqt), Hk, bind_run.
  unfold call_Date_now at 1. unfold onState. simpl. rewrite Hqt. simpl.
  eexists. eexists. repeat split.
Qed.

Lemma collapsed_source_injects (depth : nat) (e : LinkId) (ent : Entanglement) (w : World)
    (qs qt : QuantumState) (k : JsValue) :
  links w !! e = Some ent ->
  isActive ent = true ->
  states w !! state1 ent = Some qs ->
  isCollapsed qs = true ->
  relationFn ent (collapsedValue qs) = k ->
  k <> JUndefined ->
  states w !! state2 ent = Some qt ->
  Map_has k (basis qt) = false ->
  forall source, source = None \/ source = Some (state1 ent) ->
  exists w' h,
    updateEntanglement (S depth) e source w = (w', Ret tt) /\
    states w' = <[state2 ent := collapsed_on k h qt]> (states w) /\
    links w' = links w /\ random_calls w' = random_calls w.
Proof.
  intros He Hact Hqs Hc Hk Hdef Hqt Hhas source Hsrc.
  rewrite updateEntanglement_eq, bind_run, (getLink_run _ _ _ He), Hact.
  cbn [negb].
  assert (Hs : match source with
               | Some s => negb (bool_decide (s = state1 ent))
               | None => false
               end = false).
  { destruct Hsrc as [-> | ->]; [reflexivity|]. now rewrite bool_decide_eq_true_2. }
  rewrite Hs, bind_run, (getState_run _ _ _ Hqs), Hc. cbv zeta. rewrite Hk.
  rewrite bool_decide_eq_false_2 by exact Hdef.
  eapply collapseState2_injects; eauto.
Qed.

Lemma measured_source_injects (depth : nat) (e : LinkId) (ent : Entanglement) (w : World)
    (qt : QuantumState) (v k : JsValue) :
  links w !! e = Some ent ->
  isActive ent = true ->
  relationFn ent v = k ->
  k <> JUndefined ->
  states w !! state2 ent = Some qt ->
  Map_has k (basis qt) = false ->
  exists w' h,
    onMeasurement (S depth) e (state1 ent) v w = (w', Ret tt) /\
    states w' = <[state2 ent := collapsed_on k h qt]> (states w) /\
    links w' = links w /\ random_calls w' = random_calls w.
Proof.
  intros He Hact Hk Hdef Hqt Hhas.
  rewrite onMeasurement_eq, bind_run, (getLink_run _ _ _ He), Hact.
  cbn [negb]. rewrite bool_decide_eq_true_2 by reflexivity. cbv zeta. rewrite Hk.
  rewrite bool_decide_eq_false_2 by exact Hdef.
  eapply collapseState2_injects; eauto.
Qed.

(** [collapseTo] on an object that is only a target: one write, and the
    notifications all return at once. *)
Lemma collapseTo_target_run (depth : nat) (this : StateId) (value : JsValue)
    (metadata : CollapseMeta) (w : World) (q : QuantumState) :
  states w !! this = Some q ->
  Map_has value (basis q) = true ->
  (forall e, e ∈ entanglements q ->
     exists ent, links w !! e = Some ent /\ (isActive ent = false \/ state1 ent <> this)) ->
  collapseTo (S depth) this value metadata w =
  (mkWorld
     (<[this := collapsed_on value
                  (mkHistoryEntry (Date_now w (now_calls w)) value
                     (reason_or_default (meta_reason metadata))
                     (default (getProbabilities q) (meta_preMeasurementProbs metadata))) q]>
        (states w))
     (links w) (Math_random w) (random_calls w) (Date_now w) (S (now_calls w)),
   Ret tt).
Proof.
  intros Hq Hhas Hent.
  rewrite collapseTo_eq, bind_run, (getState_run _ _ _ Hq), Hhas. cbn [negb]. cbv zeta.
  rewrite bind_run. unfold call_Date_now at 1. rewrite bind_run.
  unfold onState at 1. simpl. rewrite Hq. simpl.
  apply forEach_skip. intros e He. destruct (Hent e He) as (ent & Hl & Hor).
  eapply onMeasurement_foreign; [exact Hl|exact Hor].
Qed.

(* ===================================================================== *)
(** ** The shape of a constructed state *)

Lemma Map_keys_set_list {V} (k : JsValue) (v : V) (m : JsMap V) :
  Map_keys (Map_set k v m) =
  if bool_decide (k ∈ Map_keys m) then Map_keys m else Map_keys m ++ [k].
Proof.
  induction m as [|[k' v'] m IH]; simpl; [reflexivity|].
  destruct (decide (k' = k)) as [->|Hne]; simpl.
  - rewrite bool_decide_eq_true_2 by left. reflexivity.
  - rewrite IH. destruct (bool_decide (k ∈ Map_keys m)) eqn:Hin.
    + apply bool_decide_eq_true in Hin.
      rewrite bool_decide_eq_true_2 by now right. reflexivity.
    + apply bool_decide_eq_false in Hin.
      rewrite bool_decide_eq_false_2; [reflexivity|].
      intros H. inversion H; subst; congruence.
Qed.

Lemma Map_set_fresh {V} (k : JsValue) (v : V) (m : JsMap V) :
  k ∉ Map_keys m -> Map_set k v m = m ++ [(k, v)].
Proof.
  induction m as [|[k' v'] m IH]; simpl; intros Hk; [reflexivity|].
  rewrite decide_False by (intros ->; apply Hk; left).
  rewrite IH; [reflexivity|]. intros H. apply Hk. now right.
Qed.

Lemma Map_set_NoDup {V} (k : JsValue) (v : V) (m : JsMap V) :
  NoDup (Map_keys m) -> NoDup (Map_keys (Map_set k v m)).
Proof.
  intros Hnd. rewrite Map_keys_set_list.
  destruct (bool_decide (k ∈ Map_keys m)) eqn:Hin; [exact Hnd|].
  apply bool_decide_eq_false in Hin.
  apply NoDup_app. split; [exact Hnd|]. split; [|apply NoDup_singleton].
  intros x Hx Hx'. apply list_elem_of_singleton in Hx'. congruence.
Qed.

Lemma accumulate_order (entries : list (JsValue * Complex)) :
  forall b b', accumulate entries b = Ret b' ->
    Map_keys b' = fold_left (fun acc k => Set_add_value k acc) (map fst entries) (Map_keys b).
Proof.
  induction entries as [|[value amplitude] rest IH]; intros b b'; simpl.
  - now intros [= <-].
  - destruct (Complex_add _ _) as [sum|]; [|discriminate]. simpl.
    intros H. apply IH in H. now rewrite H, Map_keys_set_list.
Qed.

Lemma first_mentions_app (keys : list JsValue) :
  forall acc, NoDup (acc ++ keys) ->
    fold_left (fun acc' k => Set_add_value k acc') keys acc = acc ++ keys.
Proof.
  induction keys as [|k keys IH]; intros acc Hnd; simpl.
  - now rewrite app_nil_r.
  - assert (Hk : k ∉ acc).
    { apply NoDup_app in Hnd as (_ & Hdisj & _). intros Hin. apply (Hdisj k Hin). left. }
    unfold Set_add_value at 2. rewrite bool_decide_eq_false_2 by exact Hk.
    rewrite IH; rewrite <- app_assoc; [reflexivity|exact Hnd].
Qed.

Lemma first_mentions_NoDup (keys : list JsValue) :
  NoDup keys -> first_mentions keys = keys.
Proof. intros Hnd. unfold first_mentions. now rewrite first_mentions_app. Qed.

Lemma accumulate_keys (entries : list (JsValue * Complex)) :
  forall b b', accumulate entries b = Ret b' ->
    (NoDup (Map_keys b) -> NoDup (Map_keys b')) /\
    (forall k, k ∈ Map_keys b' <-> k ∈ Map_keys b \/ k ∈ map fst entries).
Proof.
  induction entries as [|[value amplitude] rest IH]; intros b b'; simpl.
  - intros [= <-]. split; [auto|]. intros k. split; [now left|].
    intros [H|H]; [exact H|inversion H].
  - destruct (Complex_add _ _) as [sum|]; [|discriminate]. simpl.
    intros H. apply IH in H as [Hnd Hk]. split.
    + intros Hb. apply Hnd. now apply Map_set_NoDup.
    + intros k. rewrite Hk, Map_keys_set. split.
      * intros [[->|H]|H]; [right; left|now left|right; now right].
      * intros [H|H]; [left; now right|].
        inversion H; subst; [left; now left|now right].
Qed.

Lemma Complex_new_finite (re im : float) (z : Complex) :
  Complex_new re im = Ret z ->
  z = mkComplex re im /\ Number_isFinite re = true /\ Number_isFinite im = true.
Proof.
  unfold Complex_new.
  destruct (Number_isFinite re), (Number_isFinite im); simpl; try discriminate.
  now intros [= <-].
Qed.

Lemma Complex_scale_finite (z scaled : Complex) (factor : float) :
  Complex_scale z factor = Ret scaled ->
  Number_isFinite (real scaled) = true /\ Number_isFinite (imag scaled) = true.
Proof.
  unfold Complex_scale. destruct (negb _); [discriminate|].
  intros H. apply Complex_new_finite in H as (-> & Hr & Hi). now split.
Qed.

Lemma scale_entries_shape (factor : float) (b : JsMap Complex) :
  forall b', scale_entries factor b = (b', Ret tt) ->
    Map_keys b' = Map_keys b /\ finite_amplitudes b'.
Proof.
  induction b as [|[value amplitude] b IH]; simpl; intros b'.
  - intros [= <-]. split; [reflexivity|constructor].
  - destruct (Complex_scale amplitude factor) as [scaled|] eqn:Hs; [|discriminate].
    destruct (scale_entries factor b) as [b'' r] eqn:Hrest.
    intros [= <- ->]. destruct (IH _ eq_refl) as [Hk Hf]. split.
    + simpl. now rewrite Hk.
    + constructor; [|exact Hf]. simpl. eapply Complex_scale_finite; eauto.
Qed.

Lemma filter_keys_sublist {V} (f : JsValue * V -> bool) (m : JsMap V) :
  Map_keys (List.filter f m) `sublist_of` Map_keys m.
Proof.
  induction m as [|e m IH]; simpl; [constructor|].
  destruct (f e); simpl; [now apply sublist_skip|now apply sublist_cons].
Qed.

Lemma filter_Forall {A} (P : A -> Prop) (f : A -> bool) (l : list A) :
  Forall P l -> Forall P (List.filter f l).
Proof.
  induction 1 as [|x l Hx Hl IH]; simpl; [constructor|].
  destruct (f x); [now constructor|exact IH].
Qed.

Lemma prune_basis (q q' : QuantumState) (r : Outcome unit) :
  _pruneNearZeroAmplitudes q = (q', r) ->
  basis q' =
  List.filter (fun e => negb (magnitude e.2 <? AMPLITUDE_PRUNE_EPSILON)%float) (basis q).
Proof.
  unfold _pruneNearZeroAmplitudes. destruct (_ =? _)%nat; now intros [= <- <-].
Qed.

(** What a [normalize()] that returns leaves in the basis: keys of the
    basis it started from, in their order, with finite amplitudes. *)
Lemma normalize_own_shape (q q' : QuantumState) :
  normalize_own q = (q', Ret tt) ->
  Map_keys (basis q') `sublist_of` Map_keys (basis q) /\ finite_amplitudes (basis q').
Proof.
  unfold normalize_own.
  destruct (_ || _); [discriminate|].
  destruct (scale_entries _ _) as [b' [[]|e']] eqn:Hs; [|discriminate].
  apply scale_entries_shape in Hs as [Hk Hf].
  rewrite bind_run.
  destruct (_pruneNearZeroAmplitudes _) as [q1 [[]|e1]] eqn:Hp; [|discriminate].
  apply prune_basis in Hp. simpl in Hp.
  intros Hu. apply updateCollapsedFlags_keeps in Hu as (Hb & _).
  rewrite Hb, Hp, <- Hk. split; [apply filter_keys_sublist|now apply filter_Forall].
Qed.

Lemma normalize_own_flags (q q' : QuantumState) :
  normalize_own q = (q', Ret tt) -> collapsed_flags_agree q'.
Proof.
  unfold normalize_own.
  destruct (_ || _); [discriminate|].
  destruct (scale_entries _ _) as [b' [[]|e']]; [|discriminate].
  rewrite bind_run.
  destruct (_pruneNearZeroAmplitudes _) as [q1 [[]|e1]] eqn:Hp; [|discriminate].
  apply prune_nonempty in Hp.
  unfold _updateCollapsedFlags, collapsed_flags_agree.
  destruct (basis q1) as [|[v a] [|e2 rest]] eqn:Hb; [now destruct Hp| |];
    intros [= <-]; simpl; rewrite ?Hb.
  - split.
    + split.
      * intros Hc. rewrite Hc. now exists a.
      * intros (a' & [= _ <-] & Ha). exact Ha.
    + now intros ->.
  - split; [|reflexivity]. split; [discriminate|]. now intros (a' & [=] & _).
Qed.

Lemma QuantumState_new_shape (entries : list (JsValue * Complex)) (q : QuantumState) :
  QuantumState_new entries = Ret q ->
  basis q <> [] /\ all_kept (basis q) /\
  NoDup (Map_keys (basis q)) /\ Map_keys (basis q) ⊆ map fst entries /\
  finite_amplitudes (basis q) /\
  entanglements q = [] /\ measurementHistory q = [] /\
  collapsed_flags_agree q /\
  Map_keys (basis q) `sublist_of` first_mentions (map fst entries).
Proof.
  intros H. pose proof (QuantumState_new_kept _ _ H) as (Hne & Hall & Hl & Hh).
  revert H. unfold QuantumState_new. destruct entries as [|entry entries]; [discriminate|].
  destruct (accumulate _ _) as [b|] eqn:Hacc; [|discriminate]. simpl.
  pose proof (accumulate_order _ _ _ Hacc) as Hord.
  apply accumulate_keys in Hacc as [Hnd Hk].
  rewrite bind_run.
  destruct (_pruneNearZeroAmplitudes _) as [q1 [[]|e1]] eqn:Hp; [|discriminate].
  destruct (normalize_own q1) as [q2 [[]|e2]] eqn:Hn; [|discriminate].
  intros [= <-]. apply prune_basis in Hp. simpl in Hp.
  pose proof (normalize_own_flags _ _ Hn) as Hflags.
  apply normalize_own_shape in Hn as [Hsub Hfin].
  assert (Hsub' : Map_keys (basis q2) `sublist_of` Map_keys b).
  { etrans; [exact Hsub|]. rewrite Hp. apply filter_keys_sublist. }
  repeat split; auto.
  - eapply sublist_NoDup; [|exact Hsub']. apply Hnd. constructor.
  - intros k Hin. eapply sublist_subseteq in Hin; [|exact Hsub'].
    apply Hk in Hin as [Hin|Hin]; [inversion Hin|exact Hin].
  - apply Hflags.
  - apply Hflags.
  - apply Hflags.
  - rewrite Hord in Hsub'. exact Hsub'.
Qed.

(** X1 — Every state the constructor returns is well formed: its basis is
    not empty, holds no entry below the prune epsilon, has pairwise
    distinct keys, all of them keys of the entries it was given and kept
    in the order in which the entries first mention them, and only finite
    amplitudes; the state starts without entanglement and without
    history. *)
Theorem constructed_state_is_well_formed (entries : list (JsValue * Complex))
    (q : QuantumState) :
  QuantumState_new entries = Ret q ->
  basis q <> [] /\ all_kept (basis q) /\
  NoDup (Map_keys (basis q)) /\ Map_keys (basis q) ⊆ map fst entries /\
  Map_keys (basis q) `sublist_of` first_mentions (map fst entries) /\
  finite_amplitudes (basis q) /\
  entanglements q = [] /\ measurementHistory q = [].
Proof.
  intros H. apply QuantumState_new_shape in H. tauto.
Qed.


(* ===================================================================== *)
(** ** Probabilities and the measured value *)

Lemma getProbabilities_fold (b : JsMap Complex) :
  forall acc, NoDup (Map_keys acc ++ Map_keys b) ->
    fold_left (fun probs e => Map_set e.1 (magnitudeSquared e.2) probs) b acc =
    acc ++ map (fun e => (e.1, magnitudeSquared e.2)) b.
Proof.
  induction b as [|[k a] b IH]; intros acc Hnd; simpl.
  - now rewrite app_nil_r.
  - rewrite Map_set_fresh.
    + rewrite IH.
      * now rewrite <- app_assoc.
      * unfold Map_keys in *. rewrite map_app. simpl. rewrite <- app_assoc. exact Hnd.
    + apply NoDup_app in Hnd as (_ & Hdisj & _). intros Hin. apply (Hdisj k Hin). left.
Qed.

Lemma Map_get_map {V W} (g : V -> W) (k : JsValue) (m : JsMap V) :
  Map_get k (map (fun e => (e.1, g e.2)) m) = g <$> Map_get k m.
Proof.
  induction m as [|[k' v] m IH]; simpl; [reflexivity|].
  now destruct (decide (k' = k)).
Qed.

Lemma getProbabilities_distinct (q : QuantumState) :
  NoDup (Map_keys (basis q)) ->
  getProbabilities q = map (fun e => (e.1, magnitudeSquared e.2)) (basis q).
Proof.
  intros Hnd. unfold getProbabilities. now rewrite getProbabilities_fold.
Qed.

(** X3 — [getProbabilities()] of a state with distinct keys lists the
    outcomes in the order of the basis, each with the squared magnitude of
    its amplitude; looking an outcome up in it gives the probability the
    engine reports for it, and 0 for an outcome that is absent. *)
Theorem probabilities_follow_the_basis (q : QuantumState) :
  NoDup (Map_keys (basis q)) ->
  getProbabilities q = map (fun e => (e.1, magnitudeSquared e.2)) (basis q) /\
  forall value, default 0%float (Map_get value (getProbabilities q)) = probability q value.
Proof.
  intros Hnd. split; [now apply getProbabilities_distinct|].
  intros value. rewrite (getProbabilities_distinct q Hnd), Map_get_map.
  unfold probability, getAmplitude. now destruct (Map_get value (basis q)).
Qed.

(** X4 — The value [measure()] picks is an outcome of the basis, whatever
    the sample; it is [undefined] only if [undefined] is the key of the
    last entry, so an [undefined] key anywhere else is never measured: a
    hit on it is taken for an exhausted walk and answered with the last
    key. *)
Theorem measured_value_is_an_outcome (rand : float) (q : QuantumState) :
  basis q <> [] ->
  pick rand q ∈ Map_keys (basis q) /\
  (pick rand q = JUndefined -> last_key (basis q) = JUndefined).
Proof.
  intros Hne. split.
  - apply Map_has_keys. now apply pick_in_basis.
  - unfold pick. destruct (bool_decide _) eqn:Hu; [auto|].
    apply bool_decide_eq_false in Hu. intros H. congruence.
Qed.

(** X5 — [measure()] on an object in superposition that has no
    entanglement: it draws one sample, reads the clock once, returns the
    picked outcome [v], and leaves the object with the single entry
    [v ↦ (1,0)], the flag raised at [v], and one more record at the end of
    its history, of reason "measurement", holding the distribution from
    before the collapse.  Nothing else in the store changes. *)
Theorem measure_lone_object (depth : nat) (this : StateId) (w : World) (q : QuantumState) :
  states w !! this = Some q ->
  isCollapsed q = false ->
  entanglements q = [] ->
  basis q <> [] ->
  let v := pick (Math_random w (random_calls w)) q in
  measure depth this w =
  (mkWorld
     (<[this := mkQuantumState [(v, Complex_one)] []
                  (measurementHistory q ++
                   [mkHistoryEntry (Date_now w (now_calls w)) v "measurement"
                                   (getProbabilities q)])
                  true v]> (states w))
     (links w) (Math_random w) (S (random_calls w)) (Date_now w) (S (now_calls w)),
   Ret v).
Proof.
  intros Hq Hc Hl Hne. cbv zeta. rewrite (measure_uncollapsed_run _ _ _ _ Hq Hc). cbv zeta.
  rewrite (collapseTo_no_links_run depth this _ _ (with_random _ _ w) q Hq
             (pick_in_basis _ _ Hne) Hl).
  simpl. unfold collapsed_on. now rewrite Hl.
Qed.

(** X6 — [collapseTo(value)].  A value that is not a key of the basis is
    refused with a RangeError before anything is written or the clock is
    read.  On an object without entanglement a key of the basis is always
    accepted, also on an object that is collapsed already: the basis
    becomes the single entry [value ↦ (1,0)] and the history gets one more
    record, whose reason is 'manual-collapse' when none (or an empty one)
    is given and whose distribution is the current one when none is
    given. *)
Theorem collapseTo_outcome (depth : nat) (this : StateId) (value : JsValue)
    (metadata : CollapseMeta) (w : World) (q : QuantumState) :
  states w !! this = Some q ->
  (Map_has value (basis q) = false ->
   collapseTo depth this value metadata w =
   (w, Throw (RangeError "Cannot collapse to a value not present in the basis."))) /\
  (Map_has value (basis q) = true -> entanglements q = [] ->
   collapseTo depth this value metadata w =
   (mkWorld
      (<[this := mkQuantumState [(value, Complex_one)] []
                   (measurementHistory q ++
                    [mkHistoryEntry (Date_now w (now_calls w)) value
                       (match meta_reason metadata with
                        | Some (String c s) => String c s
                        | _ => "manual-collapse"
                        end)
                       (match meta_preMeasurementProbs metadata with
                        | Some probs => probs
                        | None => getProbabilities q
                        end)])
                   true value]> (states w))
      (links w) (Math_random w) (random_calls w) (Date_now w) (S (now_calls w)),
    Ret tt)).
Proof.
  intros Hq. split.
  - intros Hhas. rewrite collapseTo_eq, bind_run, (getState_run _ _ _ Hq), Hhas. reflexivity.
  - intros Hhas Hl. rewrite (collapseTo_no_links_run _ _ _ _ _ _ Hq Hhas Hl).
    unfold collapsed_on, reason_or_default. rewrite Hl.
    now destruct (meta_preMeasurementProbs metadata).
Qed.

(* ===================================================================== *)
(** ** Records that propagation never rewrites *)

Lemma log_extended_refl (w : World) : log_extended w w.
Proof. repeat split. intros i q Hq. exists q. repeat split; auto. Qed.

Lemma log_extended_trans (w1 w2 w3 : World) :
  log_extended w1 w2 -> log_extended w2 w3 -> log_extended w1 w3.
Proof.
  intros (Hl1 & Hn1 & H1) (Hl2 & Hn2 & H2). repeat split; [congruence|congruence|].
  intros i q Hq. destruct (H1 i q Hq) as (q' & Hq' & He' & Hp').
  destruct (H2 i q' Hq') as (q'' & Hq'' & He'' & Hp'').
  exists q''. split; [exact Hq''|]. split; [congruence|]. etrans; eauto.
Qed.

Lemma keeps_log_same {A} (m : Eff World A) :
  (forall w, states (m w).1 = states w /\ links (m w).1 = links w) -> keeps_log m.
Proof.
  intros H w. destruct (H w) as [Hs Hl]. split; [exact Hl|]. split; [now rewrite Hs|].
  intros i q Hq. exists q. rewrite Hs. repeat split; auto.
Qed.

Lemma keeps_log_ret {A} (a : A) : keeps_log (mret a : Eff World A).
Proof. now apply keeps_log_same. Qed.

Lemma keeps_log_throw {A} (e : JsError) : keeps_log (throw e : Eff World A).
Proof. now apply keeps_log_same. Qed.

Lemma keeps_log_liftO {A} (o : Outcome A) : keeps_log (liftO o : Eff World A).
Proof. now apply keeps_log_same. Qed.

Lemma keeps_log_getState (id : StateId) : keeps_log (getState id).
Proof. apply keeps_log_same. intros w. unfold getState. now destruct (states w !! id). Qed.

Lemma keeps_log_getLink (e : LinkId) : keeps_log (getLink e).
Proof. apply keeps_log_same. intros w. unfold getLink. now destruct (links w !! e). Qed.

Lemma keeps_log_Date_now : keeps_log call_Date_now.
Proof. now apply keeps_log_same. Qed.

Lemma keeps_log_Math_random : keeps_log call_Math_random.
Proof. now apply keeps_log_same. Qed.

Lemma keeps_log_bind {A B} (m : Eff World A) (k : A -> Eff World B) :
  keeps_log m -> (forall a, keeps_log (k a)) -> keeps_log (m ≫= k).
Proof.
  intros Hm Hk w. rewrite bind_run. specialize (Hm w).
  destruct (m w) as [w1 [a|e]]; simpl in *; [|exact Hm].
  eapply log_extended_trans; [exact Hm|apply Hk].
Qed.

Lemma keeps_log_forEach {A} (xs : list A) (body : A -> Eff World unit) :
  (forall x, keeps_log (body x)) -> keeps_log (forEach xs body).
Proof.
  intros Hb. induction xs as [|x xs IH]; simpl.
  - apply keeps_log_ret.
  - apply keeps_log_bind; auto.
Qed.

Lemma keeps_log_onState {A} (id : StateId) (m : Eff QuantumState A) :
  (forall q, entanglements (m q).1 = entanglements q /\
             measurementHistory q `prefix_of` measurementHistory (m q).1) ->
  keeps_log (onState id m).
Proof.
  intros Hm w. unfold onState. destruct (states w !! id) as [q|] eqn:Hq;
    [|apply log_extended_refl].
  specialize (Hm q). destruct (m q) as [q' r]. unfold log_extended, set_states. simpl in *.
  split; [reflexivity|]. split; [apply length_insert|].
  intros i q0 Hq0. destruct (decide (i = id)) as [->|Hne].
  - exists q'. rewrite list_lookup_insert_eq by (eapply lookup_lt_Some; eauto).
    pose proof (eq_trans (eq_sym Hq0) Hq) as [= ->]. split; [reflexivity|exact Hm].
  - exists q0. rewrite list_lookup_insert_ne by congruence. now split.
Qed.

Lemma keeps_log_normalize_own (id : StateId) : keeps_log (onState id normalize_own).
Proof.
  apply keeps_log_onState. intros q. destruct (normalize_own q) as [q' r] eqn:Hn.
  apply normalize_own_keeps in Hn as [Hl Hh]. simpl. now rewrite Hl, Hh.
Qed.

Lemma keeps_log_prune (id : StateId) : keeps_log (onState id _pruneNearZeroAmplitudes).
Proof.
  apply keeps_log_onState. intros q. destruct (_pruneNearZeroAmplitudes q) as [q' r] eqn:Hn.
  apply prune_same in Hn as (Hl & Hh & _). simpl. now rewrite Hl, Hh.
Qed.

Lemma keeps_log_setAmplitude_own (id : StateId) (value : JsValue) (a : Complex) :
  keeps_log (onState id (setAmplitude_own value a)).
Proof.
  apply keeps_log_onState. intros q. destruct (setAmplitude_own value a q) as [q' r] eqn:Hn.
  apply setAmplitude_own_same in Hn as (Hl & Hh & _). simpl. now rewrite Hl, Hh.
Qed.

Lemma keeps_log_set_basis (id : StateId) (b : JsMap Complex) :
  keeps_log (onState id (modifyS (set_basis b))).
Proof. apply keeps_log_onState. intros q. now split. Qed.

Lemma keeps_log_collapsed_on (id : StateId) (value : JsValue) (h : HistoryEntry) :
  keeps_log (onState id (modifyS (collapsed_on value h))).
Proof.
  apply keeps_log_onState. intros q. split; [reflexivity|]. simpl. now apply prefix_app_r.
Qed.

Create HintDb log.

#[local] Hint Resolve keeps_log_ret keeps_log_throw keeps_log_liftO keeps_log_getState
  keeps_log_getLink keeps_log_Date_now keeps_log_Math_random keeps_log_normalize_own
  keeps_log_prune keeps_log_setAmplitude_own keeps_log_set_basis keeps_log_collapsed_on : log.

Ltac log_step :=
  match goal with
  | |- keeps_log (_ ≫= _) => apply keeps_log_bind; [|intros ?]
  | |- keeps_log (forEach _ _) => apply keeps_log_forEach; intros ?
  | |- keeps_log (if ?b then _ else _) => destruct b
  | |- keeps_log (let _ := _ in _) => cbv zeta
  | |- keeps_log stack_overflow => apply keeps_log_throw
  | |- keeps_log _ => solve [auto with log]
  end.

Lemma collapse_cascade_log (depth : nat) :
  (forall e value, keeps_log (_collapseState2 depth e value)) /\
  (forall this value metadata, keeps_log (collapseTo depth this value metadata)) /\
  (forall e measuredState value, keeps_log (onMeasurement depth e measuredState value)).
Proof.
  induction depth as [depth IH] using lt_wf_ind.
  split; [|split]; intros.
  - rewrite _collapseState2_eq. repeat log_step.
    destruct depth as [|d]; [log_step|]. apply (IH d); lia.
  - rewrite collapseTo_eq. repeat log_step.
    destruct depth as [|d]; [log_step|]. apply (IH d); lia.
  - rewrite onMeasurement_eq. repeat log_step.
    destruct depth as [|d]; [log_step|]. apply (IH d); lia.
Qed.

Lemma normalize_cascade_log (depth : nat) :
  (forall this, keeps_log (normalize depth this)) /\
  (forall e source, keeps_log (updateEntanglement depth e source)).
Proof.
  induction depth as [depth IH] using lt_wf_ind.
  split; intros.
  - rewrite normalize_eq. repeat log_step.
    destruct depth as [|d]; [log_step|]. apply (IH d); lia.
  - rewrite updateEntanglement_eq. repeat log_step.
    + destruct depth as [|d]; [log_step|]. apply (collapse_cascade_log d).
    + destruct depth as [|d]; [log_step|]. apply (IH d); lia.
Qed.

(** X7 — The records of the store are append-only under every operation
    on states, however far it propagates and whether it returns or throws:
    [normalize], [stabilize], [setAmplitude], [collapseTo], [measure] and
    the entanglement callbacks create and delete no object and no
    entanglement, leave every object's set of entanglements as it was, and
    only ever add records at the end of a measurement history. *)
Theorem history_is_append_only (depth : nat) :
  (forall this, keeps_log (normalize depth this)) /\
  (forall this, keeps_log (stabilize depth this)) /\
  (forall this value amplitude, keeps_log (setAmplitude depth this value amplitude)) /\
  (forall this value metadata, keeps_log (collapseTo depth this value metadata)) /\
  (forall this, keeps_log (measure depth this)) /\
  (forall e source, keeps_log (updateEntanglement depth e source)) /\
  (forall e measuredState value, keeps_log (onMeasurement depth e measuredState value)).
Proof.
  pose proof (collapse_cascade_log depth) as (Hc2 & Hct & Hom).
  pose proof (normalize_cascade_log depth) as (Hn & Hu).
  split; [exact Hn|]. split; [|split; [|split; [exact Hct|split; [|split; [exact Hu|exact Hom]]]]].
  - intros this. unfold stabilize. repeat log_step.
  - intros this value amplitude. unfold setAmplitude. destruct amplitude; repeat log_step.
  - intros this. unfold measure. repeat log_step.
Qed.

(* ===================================================================== *)
(** ** Connecting and disconnecting two objects *)

Lemma lookup_update_pair (g : QuantumState -> QuantumState) (l : list QuantumState)
    (s1 s2 : StateId) (q1 qx : QuantumState) :
  (forall q, g (g q) = g q) ->
  l !! s1 = Some q1 ->
  <[s1 := g q1]> l !! s2 = Some qx ->
  forall i q, l !! i = Some q ->
    <[s2 := g qx]> (<[s1 := g q1]> l) !! i =
    Some (if bool_decide (i = s1 \/ i = s2) then g q else q).
Proof.
  intros Hg H1 Hx i q Hq.
  assert (Hlt1 : s1 < length l) by (eapply lookup_lt_Some; eauto).
  destruct (decide (i = s2)) as [->|Hne2].
  - rewrite list_lookup_insert_eq by (eapply lookup_lt_Some; eauto).
    rewrite bool_decide_eq_true_2 by now right. f_equal.
    destruct (decide (s1 = s2)) as [->|Hne].
    + rewrite list_lookup_insert_eq in Hx by exact Hlt1.
      injection Hx as <-. pose proof (eq_trans (eq_sym Hq) H1) as [= ->]. apply Hg.
    + rewrite list_lookup_insert_ne in Hx by exact Hne.
      now pose proof (eq_trans (eq_sym Hq) Hx) as [= ->].
  - rewrite list_lookup_insert_ne by congruence.
    destruct (decide (i = s1)) as [->|Hne1].
    + rewrite list_lookup_insert_eq by exact Hlt1.
      rewrite bool_decide_eq_true_2 by now left.
      now pose proof (eq_trans (eq_sym Hq) H1) as [= ->].
    + rewrite list_lookup_insert_ne by congruence.
      rewrite bool_decide_eq_false_2 by (intros [?|?]; congruence). exact Hq.
Qed.

Lemma Set_delete_idemp (e : LinkId) (l : list LinkId) :
  Set_delete e (Set_delete e l) = Set_delete e l.
Proof.
  unfold Set_delete. induction l as [|x l IH]; simpl; [reflexivity|].
  destruct (negb (bool_decide (x = e))) eqn:Hx; simpl; [|exact IH].
  now rewrite Hx, IH.
Qed.

Lemma Set_delete_gone (e : LinkId) (l : list LinkId) : e ∉ Set_delete e l.
Proof.
  unfold Set_delete. intros H. apply list_elem_of_In, filter_In in H as [_ H].
  now rewrite bool_decide_eq_true_2 in H.
Qed.

Lemma Set_add_idemp (e : LinkId) (l : list LinkId) : Set_add e (Set_add e l) = Set_add e l.
Proof.
  unfold Set_add. destruct (bool_decide (e ∈ l)) eqn:Hin.
  - now rewrite Hin.
  - rewrite bool_decide_eq_true_2; [reflexivity|]. apply elem_of_app. right. left.
Qed.

Lemma Set_add_there (e : LinkId) (l : list LinkId) : e ∈ Set_add e l.
Proof.
  unfold Set_add. destruct (bool_decide (e ∈ l)) eqn:Hin.
  - now apply bool_decide_eq_true in Hin.
  - apply elem_of_app. right. left.
Qed.

(** An entanglement that is not active answers every call by doing
    nothing. *)
Lemma inactive_link_is_inert (e : LinkId) (w : World) (ent : Entanglement) :
  links w !! e = Some ent ->
  isActive ent = false ->
  (forall depth source, updateEntanglement depth e source w = (w, Ret tt)) /\
  (forall depth measuredState value,
      onMeasurement depth e measuredState value w = (w, Ret tt)) /\
  dispose e w = (w, Ret tt).
Proof.
  intros He Ha. split; [|split]; intros.
  - now rewrite updateEntanglement_eq, bind_run, (getLink_run _ _ _ He), Ha.
  - now rewrite onMeasurement_eq, bind_run, (getLink_run _ _ _ He), Ha.
  - unfold dispose. now rewrite bind_run, (getLink_run _ _ _ He), Ha.
Qed.

(** X8 — [dispose()] of an active entanglement marks it inactive and
    takes it out of the sets of both its objects, changing nothing else in
    the store.  From then on the entanglement is inert: [updateEntanglement],
    [onMeasurement] and a second [dispose] on it return without writing
    anything. *)
Theorem dispose_disconnects (e : LinkId) (w : World) (ent : Entanglement)
    (q1 q2 : QuantumState) :
  links w !! e = Some ent ->
  isActive ent = true ->
  states w !! state1 ent = Some q1 ->
  states w !! state2 ent = Some q2 ->
  exists w',
    dispose e w = (w', Ret tt) /\
    links w' = <[e := mkEntanglement (state1 ent) (state2 ent) (relationFn ent) false]> (links w) /\
    (forall i q, states w !! i = Some q ->
       states w' !! i =
       Some (if bool_decide (i = state1 ent \/ i = state2 ent)
             then set_entanglements (Set_delete e (entanglements q)) q else q)) /\
    (forall l, e ∉ Set_delete e l) /\
    (forall depth source, updateEntanglement depth e source w' = (w', Ret tt)) /\
    (forall depth measuredState value,
        onMeasurement depth e measuredState value w' = (w', Ret tt)) /\
    dispose e w' = (w', Ret tt).
Proof.
  intros He Ha H1 H2.
  set (g := fun q => set_entanglements (Set_delete e (entanglements q)) q).
  assert (Hg : forall q, g (g q) = g q).
  { intros q. unfold g, set_entanglements. simpl. now rewrite Set_delete_idemp. }
  destruct (lookup_lt_is_Some_2 (<[state1 ent := g q1]> (states w)) (state2 ent))
    as [qx Hx].
  { rewrite length_insert. eapply lookup_lt_Some; eauto. }
  set (ent' := mkEntanglement (state1 ent) (state2 ent) (relationFn ent) false).
  set (w1 := set_links (<[e := ent']> (links w)) w).
  set (w2 := set_states (<[state1 ent := g q1]> (states w)) w1).
  set (w3 := set_states (<[state2 ent := g qx]> (states w2)) w2).
  assert (Hrun : dispose e w = (w3, Ret tt)).
  { unfold dispose. rewrite bind_run, (getLink_run _ _ _ He), Ha. cbn [negb].
    rewrite bind_run. unfold writeLink at 1. fold ent'. fold w1.
    rewrite bind_run, (onState_run _ _ w1 q1 H1). simpl fst. simpl snd. fold (g q1). fold w2.
    rewrite (onState_run _ _ w2 qx Hx). reflexivity. }
  assert (He' : links w3 !! e = Some ent').
  { simpl. apply list_lookup_insert_eq. eapply lookup_lt_Some; eauto. }
  exists w3. split; [exact Hrun|]. split; [reflexivity|]. split.
  { intros i q Hq. apply (lookup_update_pair g (states w) _ _ q1 qx Hg H1 Hx i q Hq). }
  split; [apply Set_delete_gone|].
  apply (inactive_link_is_inert e w3 ent' He' eq_refl).
Qed.

(** X9 — [new Entanglement(s1, s2, f)].  The same object twice is refused
    with a RangeError and nothing is created.  For two distinct objects the
    new entanglement is created active and added to the sets of both
    objects before the first derivation runs, so it stays registered on
    both whether that derivation returns or throws; the derivation itself
    creates nothing and only appends to histories. *)
Theorem Entanglement_new_registers (depth : nat) (s1 s2 : StateId) (f : JsValue -> JsValue)
    (w : World) (q1 q2 : QuantumState) :
  states w !! s1 = Some q1 ->
  states w !! s2 = Some q2 ->
  (s1 = s2 ->
   Entanglement_new depth s1 s2 f w =
   (w, Throw (RangeError "Entanglement requires two distinct quantum states."))) /\
  (s1 <> s2 ->
   let r := Entanglement_new depth s1 s2 f w in
   let e := length (links w) in
   links r.1 = links w ++ [mkEntanglement s1 s2 f true] /\
   (forall i q, states w !! i = Some q ->
      exists q', states r.1 !! i = Some q' /\
        entanglements q' =
          (if bool_decide (i = s1 \/ i = s2) then Set_add e (entanglements q)
           else entanglements q) /\
        measurementHistory q `prefix_of` measurementHistory q') /\
   (forall e', r.2 = Ret e' -> e' = e)).
Proof.
  intros H1 H2. split.
  - intros Heq. unfold Entanglement_new.
    rewrite bind_run, (getState_run _ _ _ H1), bind_run, (getState_run _ _ _ H2).
    now rewrite bool_decide_eq_true_2.
  - intros Hne. cbv zeta.
    set (e := length (links w)).
    set (g := fun q => set_entanglements (Set_add e (entanglements q)) q).
    assert (Hg : forall q, g (g q) = g q).
    { intros q. unfold g, set_entanglements. simpl. now rewrite Set_add_idemp. }
    assert (Hx : <[s1 := g q1]> (states w) !! s2 = Some q2)
      by now rewrite list_lookup_insert_ne.
    set (w1 := set_links (links w ++ [mkEntanglement s1 s2 f true]) w).
    set (w2 := set_states (<[s1 := g q1]> (states w)) w1).
    set (w3 := set_states (<[s2 := g q2]> (states w2)) w2).
    assert (Hrun : Entanglement_new depth s1 s2 f w =
                   (updateEntanglement depth e None;; mret e) w3).
    { unfold Entanglement_new.
      rewrite bind_run, (getState_run _ _ _ H1), bind_run, (getState_run _ _ _ H2).
      rewrite bool_decide_eq_false_2 by exact Hne.
      rewrite bind_run. unfold allocLink at 1. fold e. fold w1.
      rewrite bind_run, (onState_run _ _ w1 q1 H1). simpl fst. simpl snd. fold (g q1). fold w2.
      rewrite bind_run, (onState_run _ _ w2 q2 Hx). reflexivity. }
    rewrite Hrun, bind_run.
    pose proof (proj2 (normalize_cascade_log depth) e None w3) as (Hl & _ & Hst).
    destruct (updateEntanglement depth e None w3) as [w4 [[]|err]]; simpl in *.
    + split; [exact Hl|]. split; [|now intros e' [= <-]].
      intros i q Hq.
      pose proof (lookup_update_pair g (states w) s1 s2 q1 q2 Hg H1 Hx i q Hq) as Hi.
      destruct (Hst _ _ Hi) as (q' & Hq' & Hent & Hpre). exists q'. split; [exact Hq'|].
      rewrite Hent. now destruct (bool_decide _).
    + split; [exact Hl|]. split; [|discriminate].
      intros i q Hq.
      pose proof (lookup_update_pair g (states w) s1 s2 q1 q2 Hg H1 Hx i q Hq) as Hi.
      destruct (Hst _ _ Hi) as (q' & Hq' & Hent & Hpre). exists q'. split; [exact Hq'|].
      rewrite Hent. now destruct (bool_decide _).
Qed.

(* ===================================================================== *)
(** ** Deriving the target from a source in superposition *)

Lemma induce_undefined (f : JsValue -> JsValue) (entries : JsMap Complex) :
  (exists k, k ∈ Map_keys entries /\ f k = JUndefined) ->
  forall acc, exists err, induce f entries acc = Throw err.
Proof.
  induction entries as [|[k1 a1] rest IH]; intros (k & Hin & Hk) acc; simpl.
  - inversion Hin.
  - destruct (bool_decide (f k1 = JUndefined)) eqn:Hu; [now eexists|].
    apply bool_decide_eq_false in Hu.
    destruct (Complex_add _ _) as [sum|err]; [|now exists err]. simpl.
    apply IH. exists k. split; [|exact Hk].
    inversion Hin; subst; [congruence|assumption].
Qed.

Lemma induce_keys (f : JsValue -> JsValue) (entries : JsMap Complex) :
  forall acc b, induce f entries acc = Ret b ->
    forall k, k ∈ Map_keys b ->
      k ∈ Map_keys acc \/ (k ∈ map f (Map_keys entries) /\ k <> JUndefined).
Proof.
  induction entries as [|[k1 a1] rest IH]; intros acc b; simpl.
  - intros [= <-] k Hk. now left.
  - destruct (bool_decide (f k1 = JUndefined)) eqn:Hu; [discriminate|].
    apply bool_decide_eq_false in Hu.
    destruct (Complex_add _ _) as [sum|err]; [|discriminate]. simpl.
    intros H k Hk. destruct (IH _ _ H k Hk) as [Hacc|[Hm Hd]].
    + apply Map_keys_set in Hacc as [->|Hacc]; [right; split; [left|exact Hu]|now left].
    + right. split; [now right|exact Hd].
Qed.

(** X10 — A source in superposition whose [relationFn] is undefined at
    one of its outcomes: [updateEntanglement] throws before the target is
    touched, so the store is left exactly as it was. *)
Theorem update_with_partial_relation_writes_nothing (depth : nat) (e : LinkId)
    (ent : Entanglement) (w : World) (q1 : QuantumState) (source : option StateId) :
  links w !! e = Some ent ->
  isActive ent = true ->
  states w !! state1 ent = Some q1 ->
  isCollapsed q1 = false ->
  (exists k, k ∈ Map_keys (basis q1) /\ relationFn ent k = JUndefined) ->
  source = None \/ source = Some (state1 ent) ->
  exists err, updateEntanglement depth e source w = (w, Throw err).
Proof.
  intros He Ha H1 Hc Hk Hsrc.
  destruct (induce_undefined _ _ Hk []) as [err Herr]. exists err.
  rewrite updateEntanglement_eq, bind_run, (getLink_run _ _ _ He), Ha. cbn [negb].
  replace (match source with
           | Some s => negb (bool_decide (s = state1 ent))
           | None => false
           end) with false
    by (destruct Hsrc as [->| ->]; [reflexivity|now rewrite bool_decide_eq_true_2]).
  rewrite bind_run, (getState_run _ _ _ H1), Hc, bind_run.
  unfold liftO at 1. now rewrite Herr.
Qed.

Lemma normalize_own_well_formed (q q' : QuantumState) :
  normalize_own q = (q', Ret tt) -> well_formed q'.
Proof.
  intros H. pose proof (normalize_own_kept _ _ H) as (Hne & Hall & _).
  pose proof (normalize_own_shape _ _ H) as (_ & Hfin).
  pose proof (normalize_own_flags _ _ H) as Hflags.
  split; [exact Hne|]. split; [exact Hall|]. split; [exact Hfin|exact Hflags].
Qed.

(** X11 — A source in superposition whose derivation returns, towards a
    target that is the source of nothing: the target's previous basis
    plays no part.  Its new basis is the renormalised image of the
    source's basis under [relationFn], so its outcomes are images of
    outcomes of the source and never [undefined]; the target is well
    formed again, keeps its history and its entanglements, and no other
    object is written. *)
Theorem derivation_lands_in_the_image (depth : nat) (e : LinkId) (ent : Entanglement)
    (w w' : World) (q1 q2 : QuantumState) :
  links w !! e = Some ent ->
  isActive ent = true ->
  states w !! state1 ent = Some q1 ->
  isCollapsed q1 = false ->
  states w !! state2 ent = Some q2 ->
  source_of_none w (state2 ent) q2 ->
  updateEntanglement (S (S depth)) e None w = (w', Ret tt) ->
  exists inducedBasis q2',
    induce (relationFn ent) (basis q1) [] = Ret inducedBasis /\
    normalize_own (set_basis inducedBasis q2) = (q2', Ret tt) /\
    w' = set_states (<[state2 ent := q2']> (states w)) w /\
    Map_keys (basis q2') ⊆ map (relationFn ent) (Map_keys (basis q1)) /\
    (JUndefined ∉ Map_keys (basis q2')) /\
    well_formed q2' /\
    entanglements q2' = entanglements q2 /\
    measurementHistory q2' = measurementHistory q2.
Proof.
  intros He Ha H1 Hc H2 Hs.
  rewrite updateEntanglement_eq, bind_run, (getLink_run _ _ _ He), Ha. cbn [negb].
  rewrite bind_run, (getState_run _ _ _ H1), Hc, bind_run. unfold liftO at 1.
  destruct (induce _ _ _) as [inducedBasis|err] eqn:Hind; [|discriminate].
  rewrite bind_run, (onState_run _ _ _ _ H2). simpl fst. simpl snd.
  set (w1 := set_states _ w).
  assert (Hq : states w1 !! state2 ent = Some (set_basis inducedBasis q2))
    by (eapply lookup_set_states_eq; eauto).
  rewrite (normalize_source_of_none depth _ w1 _ Hq) by exact Hs.
  rewrite (onState_run _ _ _ _ Hq).
  destruct (normalize_own _) as [q2' r] eqn:Hn. simpl.
  intros [= <- ->]. exists inducedBasis, q2'.
  pose proof (normalize_own_keeps _ _ _ Hn) as [Hl Hh].
  pose proof (normalize_own_well_formed _ _ Hn) as Hwf.
  pose proof (normalize_own_shape _ _ Hn) as [Hsub _]. simpl in Hsub.
  assert (Hkeys : forall k, k ∈ Map_keys (basis q2') ->
                    k ∈ map (relationFn ent) (Map_keys (basis q1)) /\ k <> JUndefined).
  { intros k Hk. eapply sublist_subseteq in Hk; [|exact Hsub].
    destruct (induce_keys _ _ _ _ Hind k Hk) as [Hnil|Hm]; [inversion Hnil|exact Hm]. }
  split; [reflexivity|]. split; [exact Hn|]. split.
  { unfold w1, set_states. simpl. now rewrite list_insert_insert_eq. }
  split; [intros k Hk; now apply Hkeys|].
  split; [intros Hk; now apply Hkeys in Hk as [_ Hk]|].
  split; [exact Hwf|]. now split.
Qed.

(* ===================================================================== *)
(** ** The invariants after a write *)

Lemma Map_get_unique {V} (k : JsValue) (v : V) (m : JsMap V) :
  NoDup (Map_keys m) -> (k, v) ∈ m -> Map_get k m = Some v.
Proof.
  induction m as [|[k' v'] m IH]; simpl; intros Hnd Hin; [inversion Hin|].
  apply NoDup_cons in Hnd as [Hk' Hnd].
  destruct (decide (k' = k)) as [->|Hne].
  - inversion Hin; subst; [reflexivity|].
    exfalso. apply Hk'. change k with (k, v).1. now apply list_elem_of_fmap_2.
  - inversion Hin; subst; [congruence|now apply IH].
Qed.

Lemma prune_drops (q q' : QuantumState) (r : Outcome unit) (k : JsValue) (a : Complex) :
  NoDup (Map_keys (basis q)) ->
  Map_get k (basis q) = Some a ->
  (magnitude a <? AMPLITUDE_PRUNE_EPSILON)%float = true ->
  _pruneNearZeroAmplitudes q = (q', r) ->
  k ∉ Map_keys (basis q').
Proof.
  intros Hnd Hget Hsmall Hp Hin. apply prune_basis in Hp. rewrite Hp in Hin.
  apply list_elem_of_fmap in Hin as ([k' a'] & -> & Hin). simpl in *.
  apply list_elem_of_In, filter_In in Hin as [Hin Hkeep]. apply list_elem_of_In in Hin.
  apply (Map_get_unique _ _ _ Hnd) in Hin.
  assert (a' = a) as -> by congruence. simpl in Hkeep. now rewrite Hsmall in Hkeep.
Qed.



(* ===================================================================== *)
(** ** Interference *)

Lemma Set_add_value_elem (v x : JsValue) (l : list JsValue) :
  x ∈ Set_add_value v l <-> x = v \/ x ∈ l.
Proof.
  unfold Set_add_value. destruct (bool_decide (v ∈ l)) eqn:Hin.
  - apply bool_decide_eq_true in Hin. split; [now right|]. intros [->|H]; assumption.
  - rewrite elem_of_app, list_elem_of_singleton. tauto.
Qed.

Lemma Set_add_value_NoDup (v : JsValue) (l : list JsValue) :
  NoDup l -> NoDup (Set_add_value v l).
Proof.
  intros Hnd. unfold Set_add_value. destruct (bool_decide (v ∈ l)) eqn:Hin; [exact Hnd|].
  apply bool_decide_eq_false in Hin.
  apply NoDup_app. split; [exact Hnd|]. split; [|apply NoDup_singleton].
  intros x Hx Hx'. apply list_elem_of_singleton in Hx'. congruence.
Qed.

Lemma add_keys_spec (keys : list JsValue) :
  forall acc,
    (NoDup acc -> NoDup (fold_left (fun acc' v => Set_add_value v acc') keys acc)) /\
    (forall x, x ∈ fold_left (fun acc' v => Set_add_value v acc') keys acc <->
               x ∈ acc \/ x ∈ keys).
Proof.
  induction keys as [|k keys IH]; intros acc; simpl.
  - split; [auto|]. intros x. split; [now left|]. intros [H|H]; [exact H|inversion H].
  - destruct (IH (Set_add_value k acc)) as [Hnd Hx]. split.
    + intros H. now apply Hnd, Set_add_value_NoDup.
    + intros x. rewrite Hx, Set_add_value_elem. split.
      * intros [[->|H]|H]; [right; left|now left|right; now right].
      * intros [H|H]; [left; now right|]. inversion H; subst; [left; now left|now right].
Qed.

Lemma allValues_spec (qstates : list QuantumState) :
  NoDup (allValues qstates) /\
  forall x, x ∈ allValues qstates <-> exists q, q ∈ qstates /\ x ∈ Map_keys (basis q).
Proof.
  unfold allValues.
  assert (H : forall acc,
    (NoDup acc ->
     NoDup (fold_left (fun acc q =>
              fold_left (fun acc' v => Set_add_value v acc') (Map_keys (basis q)) acc)
              qstates acc)) /\
    (forall x,
       x ∈ fold_left (fun acc q =>
              fold_left (fun acc' v => Set_add_value v acc') (Map_keys (basis q)) acc)
              qstates acc <->
       x ∈ acc \/ exists q, q ∈ qstates /\ x ∈ Map_keys (basis q))).
  { induction qstates as [|q0 qstates IH]; intros acc; simpl.
    - split; [auto|]. intros x. split; [now left|].
      intros [H|(q & Hq & _)]; [exact H|inversion Hq].
    - destruct (IH (fold_left (fun acc' v => Set_add_value v acc') (Map_keys (basis q0)) acc))
        as [Hnd Hx].
      destruct (add_keys_spec (Map_keys (basis q0)) acc) as [Hnd0 Hx0]. split.
      + intros H. now apply Hnd, Hnd0.
      + intros x. rewrite Hx, Hx0. split.
        * intros [[H|H]|(q & Hq & H)]; [now left|right; exists q0; split; [left|exact H]|].
          right. exists q. split; [now right|exact H].
        * intros [H|(q & Hq & H)]; [left; now left|].
          inversion Hq; subst; [left; now right|right; now exists q]. }
  destruct (H []) as [Hnd Hx]. split; [apply Hnd; constructor|].
  intros x. rewrite Hx. split; [|now right]. intros [Hnil|Hq]; [inversion Hnil|exact Hq].
Qed.

Lemma interfere_entries_keys (values : list JsValue) (weighted : list (QuantumState * float)) :
  forall entries, interfere_entries values weighted = Ret entries ->
    map fst entries `sublist_of` values.
Proof.
  induction values as [|value rest IH]; intros entries; simpl.
  - intros [= <-]. constructor.
  - destruct (combinedAmplitude _ _ _) as [total|]; [|discriminate]. simpl.
    destruct (interfere_entries rest weighted) as [more|]; [|discriminate]. simpl.
    intros [= <-]. destruct (_ <? _)%float; simpl.
    + apply sublist_skip. now apply IH.
    + apply sublist_cons. now apply IH.
Qed.

(** X13 — [interfere].  No state at all, and a list of weights of
    another length than the list of states, are refused with a RangeError.
    A result is a fresh, well-formed state whose outcomes are outcomes of
    the input states, in the order in which the inputs first mention
    them. *)
Theorem interfere_outcomes (qstates : list QuantumState) (weights : option (list float)) :
  (qstates = [] ->
   interfere qstates weights =
   Throw (RangeError
     "Interference.interfere requires a non-empty array of QuantumState instances.")) /\
  (forall ws, qstates <> [] -> weights = Some ws -> length ws <> length qstates ->
   interfere qstates weights =
   Throw (RangeError ("weights must be an array of length "
                      +:+ pretty (length qstates) +:+ "."))) /\
  (forall r, interfere qstates weights = Ret r ->
   well_formed r /\ entanglements r = [] /\ measurementHistory r = [] /\
   NoDup (Map_keys (basis r)) /\
   Map_keys (basis r) `sublist_of` allValues qstates /\
   forall k, k ∈ Map_keys (basis r) -> exists q, q ∈ qstates /\ k ∈ Map_keys (basis q)).
Proof.
  split; [now intros ->|]. split.
  - intros ws Hne -> Hlen. unfold interfere. destruct qstates as [|q0 qs]; [congruence|].
    unfold _resolveWeights.
    now rewrite (proj2 (Nat.eqb_neq _ _) Hlen).
  - intros r. unfold interfere. destruct qstates as [|q0 qs]; [discriminate|].
    destruct (_resolveWeights _ _) as [resolved|]; [|discriminate]. simpl.
    destruct (interfere_entries _ _) as [entries|] eqn:Hent; [|discriminate]. simpl.
    apply interfere_entries_keys in Hent.
    destruct entries as [|entry entries]; [discriminate|].
    intros Hnew.
    pose proof (QuantumState_new_shape _ _ Hnew)
      as (Hne & Hall & Hnd & Hsub & Hfin & Hl & Hh & Hflags & Horder).
    destruct (allValues_spec (q0 :: qs)) as [Hnd' Hx].
    assert (Hsl : Map_keys (basis r) `sublist_of` allValues (q0 :: qs)).
    { etrans; [exact Horder|].
      rewrite first_mentions_NoDup by (eapply sublist_NoDup; [exact Hnd'|exact Hent]).
      exact Hent. }
    split; [now repeat (split; [assumption|])|].
    split; [exact Hl|]. split; [exact Hh|]. split; [exact Hnd|]. split; [exact Hsl|].
    intros k Hk. apply Hx. eapply sublist_subseteq; eauto.
Qed.

(** ** [analyzeInterference] *)

Lemma classify_perm (ct dt : float) (init : Analysis) (row : AnalysisRow) :
  let r := classify ct dt init row in
  map row_value (constructive r ++ destructive r ++ neutral r) ≡ₚ
  map row_value (constructive init ++ destructive init ++ neutral init) ++ [row_value row].
Proof.
  cbv zeta. unfold classify.
  destruct (ct <? _)%float; [|destruct (_ <? dt)%float]; simpl;
    rewrite !map_app; simpl; solve_Permutation.
Qed.

Lemma classify_classified (qstates : list QuantumState) (combined : QuantumState)
    (ct dt : float) (init : Analysis) (value : JsValue) :
  classified qstates combined ct dt init ->
  classified qstates combined ct dt
    (classify ct dt init (analysis_row qstates combined value)).
Proof.
  unfold classified, classify. intros (Hc & Hd & Hn & Hrows).
  apply Forall_app in Hrows as [Hr1 Hrows]. apply Forall_app in Hrows as [Hr2 Hr3].
  destruct (ct <? _)%float eqn:E1; [|destruct (_ <? dt)%float eqn:E2]; simpl;
    rewrite ?Forall_app; repeat split; auto; now repeat constructor.
Qed.

Lemma classify_fold (qstates : list QuantumState) (combined : QuantumState)
    (ct dt : float) (values : list JsValue) :
  forall init,
    let r := fold_left (fun analysis value =>
                          classify ct dt analysis (analysis_row qstates combined value))
                       values init in
    map row_value (constructive r ++ destructive r ++ neutral r) ≡ₚ
    map row_value (constructive init ++ destructive init ++ neutral init) ++ values /\
    (classified qstates combined ct dt init -> classified qstates combined ct dt r).
Proof.
  induction values as [|value values IH]; intros init; cbv zeta; simpl.
  - rewrite app_nil_r. split; [reflexivity|auto].
  - specialize (IH (classify ct dt init (analysis_row qstates combined value))).
    cbv zeta in IH. destruct IH as [Hperm Hok]. split.
    + rewrite Hperm, classify_perm. simpl. now rewrite <- app_assoc.
    + intros Hinit. now apply Hok, classify_classified.
Qed.

(** X14 — [analyzeInterference] reports on a combination that exists: it
    returns only when [interfere] does, so a total cancellation is thrown,
    not reported.  When it returns, every outcome of the input states is
    classified exactly once: the rows of the three classes, taken together,
    are the outcomes without repetition; each row holds the figures of its
    outcome, and it is constructive when its ratio is above the
    constructive threshold, destructive when it is not and the ratio is
    below the destructive threshold, and neutral otherwise. *)
Theorem analysis_classifies_each_outcome_once (qstates : list QuantumState)
    (constructiveThreshold destructiveThreshold : option float) (r : Analysis) :
  analyzeInterference qstates constructiveThreshold destructiveThreshold = Ret r ->
  let ct := default 1.2%float constructiveThreshold in
  let dt := default 0.8%float destructiveThreshold in
  (exists combined, interfere qstates None = Ret combined /\
                    classified qstates combined ct dt r) /\
  map row_value (constructive r ++ destructive r ++ neutral r) ≡ₚ allValues qstates /\
  NoDup (map row_value (constructive r ++ destructive r ++ neutral r)).
Proof.
  unfold analyzeInterference. destruct qstates as [|q0 qs]; [discriminate|].
  destruct (_ || _); [discriminate|]. destruct (_ <=? _)%float; [discriminate|].
  destruct (interfere (q0 :: qs) None) as [combined|] eqn:Hint; [|discriminate]. simpl.
  intros [= <-].
  destruct (classify_fold (q0 :: qs) combined (default 1.2%float constructiveThreshold)
              (default 0.8%float destructiveThreshold) (allValues (q0 :: qs))
              (mkAnalysis [] [] [])) as [Hperm Hok].
  simpl in Hperm.
  split; [exists combined; split; [reflexivity|]|].
  { apply Hok. unfold classified. simpl. repeat split; constructor. }
  split; [exact Hperm|]. rewrite Hperm. apply allValues_spec.
Qed.

(* ===================================================================== *)
(** ** The loops and the switch *)

Lemma clone_shape (q copy : QuantumState) :
  clone q = Ret copy ->
  basis copy <> [] /\ entanglements copy = [] /\
  measurementHistory copy = measurementHistory q /\
  isCollapsed copy = isCollapsed q /\ collapsedValue copy = collapsedValue q.
Proof.
  unfold clone. destruct (mapM _ _) as [entries|]; [|discriminate]. simpl.
  destruct (QuantumState_new entries) as [c|] eqn:Hnew; [|discriminate]. simpl.
  intros [= <-]. simpl. apply QuantumState_new_kept in Hnew as (Hne & _ & Hl & _).
  now repeat split.
Qed.

Lemma quantumFor_loop_spec (bodyFn : JsValue -> nat -> BranchResult) (remaining : nat) :
  forall index currentState hist r,
    quantumFor_loop remaining index bodyFn currentState hist = Ret r ->
    length (for_history r) = length hist + remaining /\
    hist `prefix_of` for_history r /\
    ((exists snapshot, last hist = Some snapshot /\ clone currentState = Ret snapshot) ->
     exists snapshot, last (for_history r) = Some snapshot /\
                      clone (for_finalState r) = Ret snapshot).
Proof.
  induction remaining as [|remaining IH]; intros index currentState hist r; simpl.
  - intros [= <-]. simpl. split; [lia|]. split; [reflexivity|auto].
  - destruct (_applyBodyToState _ _ _) as [next|]; [|discriminate]. simpl.
    destruct (clone next) as [snapshot|] eqn:Hc; [|discriminate]. simpl.
    intros H. apply IH in H as (Hlen & Hpre & Hlast).
    rewrite length_app in Hlen. simpl in Hlen. split; [lia|]. split.
    + etrans; [|exact Hpre]. now apply prefix_app_r.
    + intros _. apply Hlast. exists snapshot. now rewrite last_snoc.
Qed.

(** X15 — [quantumFor].  A negative count is refused with a RangeError.
    A loop that returns has recorded exactly one snapshot per iteration
    after the initial one; the first snapshot is a copy of a copy of the
    initial state, the last one is a copy of the final state, and with a
    count of 0 the final state is the copy of the initial state. *)
Theorem quantumFor_history (iterations : Z) (initialState : QuantumState)
    (bodyFn : JsValue -> nat -> BranchResult) :
  ((iterations < 0)%Z ->
   quantumFor iterations initialState bodyFn =
   Throw (RangeError "quantumFor iterations must be a non-negative integer.")) /\
  (forall r, quantumFor iterations initialState bodyFn = Ret r ->
   length (for_history r) = S (Z.to_nat iterations) /\
   (exists current first,
       clone initialState = Ret current /\ clone current = Ret first /\
       head (for_history r) = Some first /\
       (iterations = 0%Z -> for_finalState r = current)) /\
   (exists snapshot, last (for_history r) = Some snapshot /\
                     clone (for_finalState r) = Ret snapshot)).
Proof.
  unfold quantumFor. split.
  - intros Hneg. now rewrite (proj2 (Z.ltb_lt _ _) Hneg).
  - intros r. destruct (iterations <? 0)%Z; [discriminate|].
    destruct (clone initialState) as [current|]; [|discriminate]. simpl.
    destruct (clone current) as [first|] eqn:Hfirst; [|discriminate]. simpl.
    intros H. pose proof (quantumFor_loop_spec _ _ _ _ _ _ H) as (Hlen & [k Hk] & Hlast).
    simpl in Hlen. split; [exact Hlen|]. split.
    + exists current, first. repeat split; [exact Hfirst|now rewrite Hk|].
      intros ->. simpl in H. now injection H as <-.
    + apply Hlast. now exists first.
Qed.

Lemma quantumWhile_loop_history (condition : JsValue -> bool)
    (bodyFn : JsValue -> nat -> BranchResult) (remaining : nat) :
  forall iteration currentState hist r,
    quantumWhile_loop remaining iteration condition bodyFn currentState hist = Ret r ->
    length (history r) + iteration = length hist + iterations r /\
    iteration <= iterations r <= iteration + remaining /\
    hist `prefix_of` history r /\
    ((exists snapshot, last hist = Some snapshot /\ clone currentState = Ret snapshot) ->
     exists snapshot, last (history r) = Some snapshot /\
                      clone (finalState r) = Ret snapshot).
Proof.
  induction remaining as [|remaining IH]; intros iteration currentState hist r; simpl.
  - intros [= <-]. simpl. split; [lia|]. split; [lia|]. split; [reflexivity|auto].
  - destruct (negb _).
    { intros [= <-]. simpl. split; [lia|]. split; [lia|]. split; [reflexivity|auto]. }
    destruct (_applyConditionalBody _ _ _ _) as [next|]; [|discriminate]. simpl.
    destruct (clone next) as [snapshot|] eqn:Hc; [|discriminate]. simpl.
    intros H. apply IH in H as (Hlen & Hit & Hpre & Hlast).
    rewrite length_app in Hlen. simpl in Hlen. split; [lia|]. split; [lia|]. split.
    + etrans; [|exact Hpre]. now apply prefix_app_r.
    + intros _. apply Hlast. exists snapshot. now rewrite last_snoc.
Qed.

(** X16 — [quantumWhile] that returns has recorded exactly one snapshot
    per iteration it ran after the initial one, and ran at most
    [maxIterations] of them; the first snapshot is a copy of a copy of the
    initial state and the last one is a copy of the final state. *)
Theorem quantumWhile_history (condition : JsValue -> bool)
    (bodyFn : JsValue -> nat -> BranchResult) (initialState : QuantumState)
    (maxIterations : Z) (r : WhileResult) :
  quantumWhile condition bodyFn initialState maxIterations = Ret r ->
  length (history r) = S (iterations r) /\
  (Z.of_nat (iterations r) <= maxIterations)%Z /\
  (exists current first,
      clone initialState = Ret current /\ clone current = Ret first /\
      head (history r) = Some first) /\
  (exists snapshot, last (history r) = Some snapshot /\ clone (finalState r) = Ret snapshot).
Proof.
  unfold quantumWhile. destruct (maxIterations <? 0)%Z eqn:Hneg; [discriminate|].
  apply Z.ltb_ge in Hneg.
  destruct (clone initialState) as [current|]; [|discriminate]. simpl.
  destruct (clone current) as [first|] eqn:Hfirst; [|discriminate]. simpl.
  intros H. pose proof (quantumWhile_loop_history _ _ _ _ _ _ _ H)
    as (Hlen & Hit & [k Hk] & Hlast).
  simpl in Hlen. split; [lia|]. split; [lia|]. split.
  - exists current, first. repeat split; [exact Hfirst|now rewrite Hk].
  - apply Hlast. now exists first.
Qed.

Lemma conditionalBody_always (entries : JsMap Complex) (iteration : nat)
    (bodyFn : JsValue -> nat -> BranchResult) :
  forall combined,
    conditionalBody_loop entries iteration (fun _ => true) bodyFn combined =
    applyBody_loop entries iteration bodyFn combined.
Proof.
  induction entries as [|[value amplitude] rest IH]; intros combined; simpl; [reflexivity|].
  destruct (_coerceToState _) as [resultState|]; [|reflexivity]. simpl.
  destruct (merge_branch _ _ _) as [combined'|]; [|reflexivity]. simpl. apply IH.
Qed.

Lemma same_return_step (state : QuantumState) (iteration : nat)
    (bodyFn : JsValue -> nat -> BranchResult) :
  same_return (_applyBodyToState state iteration bodyFn)
              (_applyConditionalBody state iteration (fun _ => true) bodyFn).
Proof.
  unfold _applyBodyToState, _applyConditionalBody. rewrite conditionalBody_always.
  destruct (applyBody_loop _ _ _ _) as [combined|]; simpl; [|exact I].
  unfold _buildStateFromMap. destruct combined as [|entry combined]; [exact I|].
  now destruct (QuantumState_new _).
Qed.

Lemma anyTrue_always (state : QuantumState) :
  basis state <> [] -> anyTrue (fun _ => true) state = true.
Proof. unfold anyTrue. now destruct (basis state). Qed.

Lemma buildStateFromMap_new (amplitudeMap : JsMap Complex) (operation : string)
    (q : QuantumState) :
  _buildStateFromMap amplitudeMap operation = Ret q -> QuantumState_new amplitudeMap = Ret q.
Proof. unfold _buildStateFromMap. now destruct amplitudeMap. Qed.

Lemma applyBodyToState_shape (state : QuantumState) (iteration : nat)
    (bodyFn : JsValue -> nat -> BranchResult) (next : QuantumState) :
  _applyBodyToState state iteration bodyFn = Ret next ->
  exists combined, QuantumState_new combined = Ret next.
Proof.
  unfold _applyBodyToState. destruct (applyBody_loop _ _ _ _) as [combined|]; [|discriminate].
  simpl. intros H. exists combined. eapply buildStateFromMap_new; eauto.
Qed.

Lemma same_return_loop (bodyFn : JsValue -> nat -> BranchResult) (remaining : nat) :
  forall index currentState hist,
    basis currentState <> [] ->
    same_return
      (rf ← quantumFor_loop remaining index bodyFn currentState hist;
       Ret (mkWhileResult (for_finalState rf) (for_history rf) (index + remaining) true))
      (quantumWhile_loop remaining index (fun _ => true) bodyFn currentState hist).
Proof.
  induction remaining as [|remaining IH]; intros index currentState hist Hne; simpl.
  - now rewrite Nat.add_0_r.
  - rewrite anyTrue_always by exact Hne. cbn [negb].
    pose proof (same_return_step currentState index bodyFn) as Hstep.
    destruct (_applyBodyToState _ _ _) as [next|] eqn:Hf;
      destruct (_applyConditionalBody _ _ _ _) as [next'|]; simpl in *;
      try contradiction; [subst next'|exact I].
    destruct (clone next) as [snapshot|] eqn:Hc; simpl; [|exact I].
    replace (index + S remaining) with (S index + remaining) by lia.
    apply IH. apply applyBodyToState_shape in Hf as [combined Hnew].
    now apply QuantumState_new_kept in Hnew.
Qed.

(** X17 — A [quantumWhile] whose condition holds at every outcome is a
    [quantumFor] over [maxIterations]: the two return together, with the
    same final state and the same history, and the while-loop then reports
    [maxIterations] iterations and the termination by the guard. *)
Theorem while_true_is_for (iterations : Z) (initialState : QuantumState)
    (bodyFn : JsValue -> nat -> BranchResult) :
  same_return
    (rf ← quantumFor iterations initialState bodyFn;
     Ret (mkWhileResult (for_finalState rf) (for_history rf) (Z.to_nat iterations) true))
    (quantumWhile (fun _ => true) bodyFn initialState iterations).
Proof.
  unfold quantumFor, quantumWhile. destruct (iterations <? 0)%Z; [exact I|].
  destruct (clone initialState) as [current|] eqn:Hc; simpl; [|exact I].
  destruct (clone current) as [first|]; simpl; [|exact I].
  apply (same_return_loop bodyFn (Z.to_nat iterations) 0 current [first]).
  now apply clone_shape in Hc.
Qed.




(* ===================================================================== *)
(** ** The gates *)

Lemma QuantumState_new_fresh (entries : list (JsValue * Complex)) (q : QuantumState) :
  QuantumState_new entries = Ret q ->
  fresh_state q /\ Map_keys (basis q) ⊆ map fst entries /\
  Map_keys (basis q) `sublist_of` first_mentions (map fst entries).
Proof.
  intros H. apply QuantumState_new_shape in H
    as (Hne & Hall & Hnd & Hsub & Hfin & Hl & Hh & Hflags & Horder).
  split; [|now split]. split; [|now repeat split].
  split; [exact Hne|]. split; [exact Hall|]. split; [exact Hfin|exact Hflags].
Qed.

Lemma mapM_keys (g : JsValue * Complex -> Outcome Complex) (l : JsMap Complex) :
  forall l', mapM (fun e => a ← g e; mret (e.1, a)) l = Ret l' -> map fst l' = map fst l.
Proof.
  induction l as [|e l IH]; intros l'; simpl.
  - now intros [= <-].
  - destruct (g e) as [a|]; [|discriminate]. simpl.
    destruct (mapM _ l) as [rest|]; [|discriminate]. simpl.
    intros [= <-]. simpl. now rewrite (IH rest).
Qed.

Lemma amplify_entries_shape (targets : list JsValue) (factor : float)
    (entries : JsMap Complex) :
  forall s, amplify_entries entries targets factor = Ret s ->
    map fst s.1 = Map_keys entries /\
    (s.2 = true -> exists k, k ∈ Map_keys entries /\ k ∈ targets).
Proof.
  induction entries as [|[value amplitude] rest IH]; intros s; simpl.
  - intros [= <-]. split; [reflexivity|discriminate].
  - destruct (bool_decide (value ∈ targets)) eqn:Hin.
    + apply bool_decide_eq_true in Hin.
      destruct (Complex_scale _ _) as [scaled|]; [|discriminate]. simpl.
      destruct (amplify_entries rest targets factor) as [more|]; [|discriminate]. simpl.
      intros [= <-]. simpl. destruct (IH _ eq_refl) as [Hk _]. split; [now rewrite Hk|].
      intros _. exists value. split; [left|exact Hin].
    + destruct (Complex_clone _) as [copy|]; [|discriminate]. simpl.
      destruct (amplify_entries rest targets factor) as [more|]; [|discriminate]. simpl.
      intros [= <-]. simpl. destruct (IH _ eq_refl) as [Hk Hm]. split; [now rewrite Hk|].
      intros Htrue. destruct (Hm Htrue) as (k & Hk1 & Hk2). exists k. split; [now right|exact Hk2].
Qed.

Lemma amplify_entries_none (targets : list JsValue) (factor : float)
    (entries : JsMap Complex) :
  finite_amplitudes entries ->
  (forall k, k ∈ Map_keys entries -> k ∉ targets) ->
  exists es, amplify_entries entries targets factor = Ret (es, false).
Proof.
  induction entries as [|[value amplitude] rest IH]; intros Hfin Hno; simpl.
  - now eexists.
  - apply Forall_cons in Hfin as [[Hr Hi] Hfin]. simpl in Hr, Hi.
    rewrite bool_decide_eq_false_2 by (apply Hno; left).
    unfold Complex_clone, Complex_new. rewrite Hr, Hi. simpl.
    destruct IH as [es Hes]; [exact Hfin|intros k Hk; apply Hno; now right|].
    rewrite Hes. simpl. now eexists.
Qed.

(** X19 — The gates hand out new states over the outcomes of their
    input.  Whatever [hadamard], [phase], [rotate] or [amplify] returns is
    well formed, has distinct outcomes, no entanglement and no history, and
    every one of its outcomes is an outcome of the input state; [phase]
    returns only for a target that is an outcome of the input, [amplify]
    only when one of its targets is. *)
Theorem gates_return_fresh_states (qstate : QuantumState) :
  (forall r, hadamard qstate = Ret r ->
     fresh_state r /\ Map_keys (basis r) ⊆ Map_keys (basis qstate)) /\
  (forall targetValue phaseAngle r, phase qstate targetValue phaseAngle = Ret r ->
     fresh_state r /\ Map_keys (basis r) ⊆ Map_keys (basis qstate) /\
     targetValue ∈ Map_keys (basis qstate)) /\
  (forall angle r, rotate qstate angle = Ret r ->
     fresh_state r /\ Map_keys (basis r) ⊆ Map_keys (basis qstate)) /\
  (forall targetValues factor r, amplify qstate targetValues factor = Ret r ->
     fresh_state r /\ Map_keys (basis r) ⊆ Map_keys (basis qstate) /\
     exists k, k ∈ Map_keys (basis qstate) /\ k ∈ targetValues).
Proof.
  split; [|split; [|split]].
  - intros r. unfold hadamard.
    destruct (Map_keys (basis qstate)) as [|v0 [|v1 [|v2 rest]]] eqn:Hk; try discriminate.
    destruct (Complex_add _ _) as [sum|]; [|discriminate]. cbn [mbind Outcome_bind].
    destruct (Complex_scale sum _) as [nextA0|]; [|discriminate]. cbn [mbind Outcome_bind].
    destruct (Complex_subtract _ _) as [difference|]; [|discriminate].
    cbn [mbind Outcome_bind].
    destruct (Complex_scale difference _) as [nextA1|]; [|discriminate].
    cbn [mbind Outcome_bind].
    intros H. apply QuantumState_new_fresh in H as (Hf & Hsub & _). now split.
  - intros targetValue phaseAngle r. unfold phase.
    destruct (negb (Number_isFinite phaseAngle)); [discriminate|].
    destruct (Map_has targetValue (basis qstate)) eqn:Hhas; [|discriminate]. cbn [negb].
    apply Map_has_keys in Hhas.
    destruct (Complex_fromPolar _ _) as [phaseFactor|]; [|discriminate]. simpl.
    destruct (mapM _ _) as [entries|] eqn:Hm; [|discriminate]. simpl.
    apply mapM_keys in Hm.
    intros H. apply QuantumState_new_fresh in H as (Hf & Hsub & _).
    rewrite Hm in Hsub. split; [exact Hf|]. split; [exact Hsub|exact Hhas].
  - intros angle r. unfold rotate.
    destruct (negb (Number_isFinite angle)); [discriminate|].
    destruct (Complex_fromPolar _ _) as [rotor|]; [|discriminate]. simpl.
    destruct (mapM _ _) as [entries|] eqn:Hm; [|discriminate]. simpl.
    apply mapM_keys in Hm.
    intros H. apply QuantumState_new_fresh in H as (Hf & Hsub & _).
    rewrite Hm in Hsub. now split.
  - intros targetValues factor r. unfold amplify.
    destruct (_ || _); [discriminate|].
    destruct targetValues as [|t targets]; [discriminate|].
    destruct (amplify_entries _ _ _) as [scaled|] eqn:Ha; [|discriminate]. simpl.
    apply amplify_entries_shape in Ha as [Hk Hm].
    destruct (scaled.2); [|discriminate]. cbn [negb].
    intros H. apply QuantumState_new_fresh in H as (Hf & Hsub & _).
    rewrite Hk in Hsub. split; [exact Hf|]. split; [exact Hsub|]. now apply Hm.
Qed.

(** X20 — What the gates refuse, and in which order.  [hadamard] takes
    exactly two outcomes and names the count it found.  [phase] and
    [rotate] check the angle before anything else, so an angle that is not
    finite is a TypeError also for a target that is absent; [phase] with a
    finite angle refuses an absent target with a RangeError.  [amplify]
    checks the factor first, then that there is a target, and refuses with
    a RangeError when no target is an outcome of a state whose amplitudes
    are finite. *)
Theorem gates_refusals (qstate : QuantumState) :
  (length (basis qstate) <> 2 ->
   hadamard qstate =
   Throw (RangeError ("Hadamard requires exactly 2 basis states, received "
                      +:+ pretty (length (basis qstate)) +:+ "."))) /\
  (forall targetValue phaseAngle,
     (Number_isFinite phaseAngle = false ->
      phase qstate targetValue phaseAngle =
      Throw (TypeError "phaseAngle must be a finite number in radians.")) /\
     (Number_isFinite phaseAngle = true -> targetValue ∉ Map_keys (basis qstate) ->
      phase qstate targetValue phaseAngle =
      Throw (RangeError "Target value does not exist in quantum basis."))) /\
  (forall angle,
     Number_isFinite angle = false ->
     rotate qstate angle = Throw (TypeError "angle must be a finite number in radians.")) /\
  (forall targetValues factor,
     let f := default 1.5%float factor in
     (Number_isFinite f = false \/ (f <=? 0)%float = true ->
      amplify qstate targetValues factor =
      Throw (RangeError "Amplification factor must be a finite number > 0.")) /\
     (Number_isFinite f = true -> (f <=? 0)%float = false ->
      (targetValues = [] ->
       amplify qstate targetValues factor =
       Throw (RangeError "targetValues must contain at least one value.")) /\
      (targetValues <> [] -> finite_amplitudes (basis qstate) ->
       (forall k, k ∈ Map_keys (basis qstate) -> k ∉ targetValues) ->
       amplify qstate targetValues factor =
       Throw (RangeError "None of the targetValues exist in the quantum basis.")))).
Proof.
  split; [|split; [|split]].
  - intros Hlen. unfold hadamard, Map_keys. rewrite <- (length_map fst) in Hlen |- *.
    destruct (map fst (basis qstate)) as [|v0 [|v1 [|v2 rest]]]; simpl in *;
      try reflexivity. congruence.
  - intros targetValue phaseAngle. split.
    + intros Hfin. unfold phase. now rewrite Hfin.
    + intros Hfin Habs. unfold phase. rewrite Hfin. cbn [negb].
      destruct (Map_has targetValue (basis qstate)) eqn:Hhas; [|reflexivity].
      now apply Map_has_keys in Hhas.
  - intros angle Hfin. unfold rotate. now rewrite Hfin.
  - intros targetValues factor. cbv zeta. split.
    + intros Hbad. unfold amplify.
      destruct Hbad as [-> | ->]; [reflexivity|]. now rewrite orb_true_r.
    + intros Hfin Hpos. unfold amplify. rewrite Hfin, Hpos. cbn [negb orb]. split.
      * now intros ->.
      * intros Hne Hfa Hno. destruct targetValues as [|t targets]; [congruence|].
        destruct (amplify_entries_none (t :: targets) (default 1.5%float factor)
                    (basis qstate) Hfa Hno) as [es Hes].
        now rewrite Hes.
Qed.

(* ===================================================================== *)
(** ** The helpers of the language-model front end *)

Lemma allValues_flat (qstates : list QuantumState) :
  allValues qstates = first_mentions (map fst (flat_map basis qstates)).
Proof.
  unfold allValues, first_mentions. generalize (@nil JsValue).
  induction qstates as [|q qs IH]; intros acc; simpl; [reflexivity|].
  now rewrite map_app, fold_left_app, IH.
Qed.

(** X21 — [ensemble].  Without a mode, or with 'interference', it is
    [interfere] with the default weights.  With 'classical' a result is a
    fresh well-formed state whose outcomes are outcomes of the inputs, in
    the order in which the inputs first mention them (amplitudes of a
    shared outcome are added by the constructor).  Any other mode is
    refused with a RangeError that names it. *)
Theorem ensemble_modes (qstates : list QuantumState) :
  qstates <> [] ->
  ensemble qstates None = interfere qstates None /\
  ensemble qstates (Some "interference") = interfere qstates None /\
  (forall r, ensemble qstates (Some "classical") = Ret r ->
     fresh_state r /\ Map_keys (basis r) `sublist_of` allValues qstates) /\
  (forall mode, mode <> "interference" -> mode <> "classical" ->
     ensemble qstates (Some mode) = Throw (RangeError ("Unsupported analysisMode: " +:+ mode))).
Proof.
  intros Hne. destruct qstates as [|q0 qs]; [congruence|].
  split; [reflexivity|]. split; [reflexivity|]. split.
  - intros r. unfold ensemble. simpl default.
    rewrite decide_False by discriminate. rewrite decide_True by reflexivity.
    destruct (mapM _ _) as [entries|] eqn:Hm; [|discriminate]. simpl.
    apply mapM_keys in Hm.
    intros H. apply QuantumState_new_fresh in H as (Hf & _ & Hord).
    split; [exact Hf|]. now rewrite allValues_flat, <- Hm.
  - intros mode H1 H2. unfold ensemble. simpl default.
    now rewrite !decide_False by assumption.
Qed.



(* ===================================================================== *)
(** ** [isNearClassical] *)

Lemma maxProbability_attained (probabilities : JsMap float) :
  forall mx,
    fold_left (fun mx e => if (mx <? e.2)%float then e.2 else mx) probabilities mx = mx \/
    exists k p, (k, p) ∈ probabilities /\
      fold_left (fun mx e => if (mx <? e.2)%float then e.2 else mx) probabilities mx = p.
Proof.
  induction probabilities as [|[k p] rest IH]; intros mx; simpl; [now left|].
  destruct (mx <? p)%float.
  - destruct (IH p) as [H|(k' & p' & Hin & H)].
    + right. exists k, p. split; [left|exact H].
    + right. exists k', p'. split; [now right|exact H].
  - destruct (IH mx) as [H|(k' & p' & Hin & H)]; [now left|].
    right. exists k', p'. split; [now right|exact H].
Qed.

(** X23 — [isNearClassical] refuses a threshold outside (0, 1] with a
    RangeError, and answers [true] only if some outcome has a reported
    probability that reaches the threshold. *)
Theorem isNearClassical_sound (q : QuantumState) (threshold : option float) :
  let t := default 0.999999%float threshold in
  (Number_isFinite t = false \/ (t <=? 0)%float = true \/ (1 <? t)%float = true ->
   isNearClassical q threshold =
   Throw (RangeError "isNearClassical threshold must be in (0, 1].")) /\
  (isNearClassical q threshold = Ret true ->
   exists k p, (k, p) ∈ getProbabilities q /\ (t <=? p)%float = true).
Proof.
  cbv zeta. unfold isNearClassical. split.
  - intros [-> | [-> | ->]]; [reflexivity| |]; now rewrite ?orb_true_r.
  - destruct (negb _) eqn:Hfin; [discriminate|].
    destruct (_ <=? 0)%float eqn:H0; [discriminate|].
    destruct (1 <? _)%float; [discriminate|]. simpl.
    intros [= Hmax]. unfold maxProbability in Hmax.
    destruct (maxProbability_attained (getProbabilities q) 0%float)
      as [H|(k & p & Hin & H)]; rewrite H in Hmax; [congruence|].
    now exists k, p.
Qed.

(* ===================================================================== *)
(** ** Copies, and what the combinators hand back *)

(** X24 — [clone()] detaches: the copy has no entanglement, whatever the
    original is entangled with, and carries the original's history, flag
    and stored value; its basis is well kept and its outcomes are outcomes
    of the original, in their order. *)
Theorem clone_detaches (q copy : QuantumState) :
  clone q = Ret copy ->
  entanglements copy = [] /\
  measurementHistory copy = measurementHistory q /\
  isCollapsed copy = isCollapsed q /\ collapsedValue copy = collapsedValue q /\
  basis copy <> [] /\ all_kept (basis copy) /\ finite_amplitudes (basis copy) /\
  NoDup (Map_keys (basis copy)) /\
  Map_keys (basis copy) `sublist_of` first_mentions (Map_keys (basis q)).
Proof.
  unfold clone. destruct (mapM _ _) as [entries|] eqn:Hm; [|discriminate]. simpl.
  apply mapM_keys in Hm.
  destruct (QuantumState_new entries) as [c|] eqn:Hnew; [|discriminate]. simpl.
  intros [= <-]. simpl.
  apply QuantumState_new_shape in Hnew
    as (Hne & Hall & Hnd & Hsub & Hfin & Hl & Hh & Hflags & Horder).
  rewrite Hm in Horder. now repeat split.
Qed.

Lemma applyConditionalBody_shape (state : QuantumState) (iteration : nat)
    (condition : JsValue -> bool) (bodyFn : JsValue -> nat -> BranchResult)
    (next : QuantumState) :
  _applyConditionalBody state iteration condition bodyFn = Ret next ->
  exists combined, QuantumState_new combined = Ret next.
Proof.
  unfold _applyConditionalBody.
  destruct (conditionalBody_loop _ _ _ _ _) as [combined|]; [|discriminate].
  simpl. intros H. exists combined. eapply buildStateFromMap_new; eauto.
Qed.

Lemma fresh_state_detached (q : QuantumState) : fresh_state q -> detached q.
Proof. intros ((Hne & _) & _ & Hl & _). now split. Qed.

Lemma clone_detached (q copy : QuantumState) : clone q = Ret copy -> detached copy.
Proof. intros H. apply clone_shape in H as (Hne & Hl & _). now split. Qed.

Lemma quantumFor_loop_detached (bodyFn : JsValue -> nat -> BranchResult) (remaining : nat) :
  forall index currentState hist r,
    quantumFor_loop remaining index bodyFn currentState hist = Ret r ->
    detached currentState -> Forall detached hist ->
    Forall detached (for_finalState r :: for_history r).
Proof.
  induction remaining as [|remaining IH]; intros index currentState hist r; simpl.
  - intros [= <-] Hc Hh. now constructor.
  - destruct (_applyBodyToState _ _ _) as [next|] eqn:Hf; [|discriminate]. simpl.
    destruct (clone next) as [snapshot|] eqn:Hc; [|discriminate]. simpl.
    intros H _ Hh. eapply IH; [exact H| |].
    + apply applyBodyToState_shape in Hf as [combined Hnew].
      apply QuantumState_new_fresh in Hnew as [Hfresh _].
      now apply fresh_state_detached.
    + apply Forall_app. split; [exact Hh|]. constructor; [|constructor].
      eapply clone_detached; eauto.
Qed.

Lemma quantumWhile_loop_detached (condition : JsValue -> bool)
    (bodyFn : JsValue -> nat -> BranchResult) (remaining : nat) :
  forall iteration currentState hist r,
    quantumWhile_loop remaining iteration condition bodyFn currentState hist = Ret r ->
    detached currentState -> Forall detached hist ->
    Forall detached (finalState r :: history r).
Proof.
  induction remaining as [|remaining IH]; intros iteration currentState hist r; simpl.
  - intros [= <-] Hc Hh. now constructor.
  - destruct (negb _); [intros [= <-] Hc Hh; now constructor|].
    destruct (_applyConditionalBody _ _ _ _) as [next|] eqn:Hf; [|discriminate]. simpl.
    destruct (clone next) as [snapshot|] eqn:Hc; [|discriminate]. simpl.
    intros H _ Hh. eapply IH; [exact H| |].
    + apply applyConditionalBody_shape in Hf as [combined Hnew].
      apply QuantumState_new_fresh in Hnew as [Hfresh _].
      now apply fresh_state_detached.
    + apply Forall_app. split; [exact Hh|]. constructor; [|constructor].
      eapply clone_detached; eauto.
Qed.

(** X25 — What the combinators hand back is never entangled with
    anything.  [quantumIf] and [quantumSwitch] return well-formed states
    with distinct outcomes, no entanglement and no history, whatever the
    branches return; the final state and every snapshot of [quantumFor] and
    of [quantumWhile] hold outcomes and have no entanglement, also when the
    initial state or a state returned by the body is entangled. *)
Theorem combinators_return_detached_states :
  (forall condition thenBranch elseBranch r,
     quantumIf condition thenBranch elseBranch = Ret r -> fresh_state r) /\
  (forall qstate cases defaultCase r,
     quantumSwitch qstate cases defaultCase = Ret r -> fresh_state r) /\
  (forall iterations initialState bodyFn r,
     quantumFor iterations initialState bodyFn = Ret r ->
     Forall detached (for_finalState r :: for_history r)) /\
  (forall condition bodyFn initialState maxIterations r,
     quantumWhile condition bodyFn initialState maxIterations = Ret r ->
     Forall detached (finalState r :: history r)).
Proof.
  split; [|split; [|split]].
  - intros condition thenBranch elseBranch r. unfold quantumIf.
    destruct (quantumIf_loop _ _ _ _) as [combined|]; [|discriminate]. simpl.
    intros H. apply buildStateFromMap_new in H. now apply QuantumState_new_fresh in H.
  - intros qstate cases defaultCase r. unfold quantumSwitch.
    destruct (quantumSwitch_loop _ _ _ _) as [combined|]; [|discriminate]. simpl.
    intros H. apply buildStateFromMap_new in H. now apply QuantumState_new_fresh in H.
  - intros iterations initialState bodyFn r. unfold quantumFor.
    destruct (iterations <? 0)%Z; [discriminate|].
    destruct (clone initialState) as [current|] eqn:Hc; [|discriminate]. simpl.
    destruct (clone current) as [first|] eqn:Hfirst; [|discriminate]. simpl.
    intros H. eapply quantumFor_loop_detached; [exact H| |].
    + eapply clone_detached; eauto.
    + constructor; [|constructor]. eapply clone_detached; eauto.
  - intros condition bodyFn initialState maxIterations r. unfold quantumWhile.
    destruct (maxIterations <? 0)%Z; [discriminate|].
    destruct (clone initialState) as [current|] eqn:Hc; [|discriminate]. simpl.
    destruct (clone current) as [first|] eqn:Hfirst; [|discriminate]. simpl.
    intros H. eapply quantumWhile_loop_detached; [exact H| |].
    + eapply clone_detached; eauto.
    + constructor; [|constructor]. eapply clone_detached; eauto.
Qed.

(* ===================================================================== *)
(** ** Complex numbers stay finite *)

(** X26 — No operation of [Complex] hands out a number with a component
    that is not finite: a sum, difference, product, multiple, conjugate,
    quotient, copy or polar form that overflows, or whose input was not
    finite, is thrown as an error instead.  A division by a number whose
    squared magnitude is at most [Number.EPSILON] is refused with a
    RangeError. *)
Theorem Complex_results_are_finite (z w : Complex) (x y : float) (r : Complex) :
  (Complex_new x y = Ret r -> Complex_finite r) /\
  (Complex_add z w = Ret r -> Complex_finite r) /\
  (Complex_subtract z w = Ret r -> Complex_finite r) /\
  (Complex_multiply z w = Ret r -> Complex_finite r) /\
  (Complex_scale z x = Ret r -> Complex_finite r /\ Number_isFinite x = true) /\
  (Complex_conjugate z = Ret r -> Complex_finite r) /\
  (Complex_clone z = Ret r -> Complex_finite r /\ r = z) /\
  (Complex_divide z w = Ret r ->
   Complex_finite r /\ (magnitudeSquared w <=? Number_EPSILON)%float = false) /\
  (Complex_fromPolar x y = Ret r ->
   Complex_finite r /\ Number_isFinite x = true /\ Number_isFinite y = true /\
   (x <? 0)%float = false) /\
  ((magnitudeSquared w <=? Number_EPSILON)%float = true ->
   Complex_divide z w = Throw (RangeError "Cannot divide by zero-magnitude complex number.")).
Proof.
  assert (Hnew : forall a b c, Complex_new a b = Ret c -> Complex_finite c).
  { intros a b c H. apply Complex_new_finite in H as (-> & Ha & Hb). now split. }
  repeat split.
  - eapply Hnew; eauto.
  - eapply Hnew; eauto.
  - eapply Hnew; eauto.
  - eapply Hnew; eauto.
  - eapply Hnew; eauto.
  - eapply Hnew; eauto.
  - eapply Hnew; eauto.
  - eapply Hnew; eauto.
  - revert H. unfold Complex_scale. destruct (negb _); [discriminate|]. apply Hnew.
  - revert H. unfold Complex_scale. destruct (negb _); [discriminate|]. apply Hnew.
  - revert H. unfold Complex_scale. now destruct (Number_isFinite x).
  - eapply Hnew; eauto.
  - eapply Hnew; eauto.
  - eapply Hnew; eauto.
  - eapply Hnew; eauto.
  - apply Complex_new_finite in H as (-> & _). now destruct z.
  - revert H. unfold Complex_divide. destruct (_ <=? _)%float; [discriminate|].
    destruct (Complex_conjugate w); [|discriminate]. simpl.
    destruct (Complex_multiply z _); [|discriminate]. simpl. apply Hnew.
  - revert H. unfold Complex_divide. destruct (_ <=? _)%float; [discriminate|].
    destruct (Complex_conjugate w); [|discriminate]. simpl.
    destruct (Complex_multiply z _); [|discriminate]. simpl. apply Hnew.
  - revert H. unfold Complex_divide. now destruct (_ <=? _)%float.
  - revert H. unfold Complex_fromPolar. destruct (_ || _); [discriminate|].
    destruct (_ <? _)%float; [discriminate|]. apply Hnew.
  - revert H. unfold Complex_fromPolar. destruct (_ || _); [discriminate|].
    destruct (_ <? _)%float; [discriminate|]. apply Hnew.
  - revert H. unfold Complex_fromPolar. now destruct (Number_isFinite x).
  - revert H. unfold Complex_fromPolar.
    now destruct (Number_isFinite x), (Number_isFinite y).
  - revert H. unfold Complex_fromPolar. destruct (_ || _); [discriminate|].
    now destruct (_ <? _)%float.
  - intros H. unfold Complex_divide. now rewrite H.
Qed.

(* ===================================================================== *)
(** ** A basis of zeros *)

Lemma Map_set_Forall {V} (P : JsValue * V -> Prop) (k : JsValue) (v : V) (m : JsMap V) :
  Forall P m -> P (k, v) -> Forall P (Map_set k v m).
Proof.
  induction 1 as [|[k' v'] m Hx Hm IH]; simpl; intros Hk.
  - now repeat constructor.
  - destruct (decide (k' = k)); constructor; auto.
Qed.

Lemma Map_get_Forall {V} (P : JsValue * V -> Prop) (k : JsValue) (v : V) (m : JsMap V) :
  Forall P m -> Map_get k m = Some v -> P (k, v).
Proof.
  induction 1 as [|[k' v'] m Hx Hm IH]; simpl; [discriminate|].
  destruct (decide (k' = k)) as [->|]; [now intros [= <-]|exact IH].
Qed.

Lemma accumulate_zeros (entries : list (JsValue * Complex)) :
  forall b,
    Forall (fun e => e.2 = Complex_zero) entries ->
    Forall (fun e => e.2 = Complex_zero) b ->
    exists b', accumulate entries b = Ret b' /\ Forall (fun e => e.2 = Complex_zero) b'.
Proof.
  induction entries as [|[value amplitude] rest IH]; intros b He Hb; simpl.
  - now exists b.
  - apply Forall_cons in He as [Ha He]. simpl in Ha. subst amplitude.
    assert (Hcur : default Complex_zero (Map_get value b) = Complex_zero).
    { destruct (Map_get value b) as [a|] eqn:Hget; [|reflexivity].
      exact (Map_get_Forall _ _ _ _ Hb Hget). }
    rewrite Hcur. change (Complex_add Complex_zero Complex_zero) with (Ret Complex_zero).
    simpl. apply IH; [exact He|]. now apply Map_set_Forall.
Qed.

(** X27 — A state cannot be built from zeros: when every amplitude given
    to the constructor is (0,0), whatever the outcomes and however many,
    the constructor throws "Quantum state has no non-zero amplitudes after
    pruning." (for a [Math.hypot] that is exact on the axes). *)
Theorem zero_amplitudes_are_refused (entries : list (JsValue * Complex)) :
  axis_exact Math_hypot ->
  entries <> [] ->
  Forall (fun e => e.2 = Complex_zero) entries ->
  QuantumState_new entries =
  Throw (Error "Quantum state has no non-zero amplitudes after pruning.").
Proof.
  intros Hax Hne Hz. unfold QuantumState_new.
  destruct entries as [|entry entries]; [congruence|].
  destruct (accumulate_zeros _ [] Hz) as (b & -> & Hb); [constructor|]. simpl.
  rewrite bind_run. unfold _pruneNearZeroAmplitudes at 1. simpl.
  replace (List.filter _ b) with (@nil (JsValue * Complex)); [reflexivity|].
  symmetry. induction Hb as [|[k a] b Ha Hb IH]; [reflexivity|].
  simpl in *. subst a. unfold magnitude at 1. simpl.
  rewrite (Hax 0%float 0%float eq_refl). exact IH.
Qed.

(* ===================================================================== *)
(** ** The weighting law of [quantumIf] *)

(** Finite numbers, as IEEE-754 classifies them. *)
Lemma Number_isFinite_class (x : float) :
  Number_isFinite x = true <->
  match FloatOps.Prim2SF x with
  | SpecFloat.S754_zero _ | SpecFloat.S754_finite _ _ _ => True
  | _ => False
  end.
Proof.
  unfold Number_isFinite, is_finite, is_nan, is_infinity.
  rewrite !FloatAxioms.eqb_spec, FloatAxioms.abs_spec.
  change (FloatOps.Prim2SF infinity) with (SpecFloat.S754_infinity false).
  unfold SpecFloat.SFeqb.
  destruct (FloatOps.Prim2SF x) as [[|]|[|]| |[|] m e]; simpl;
    rewrite ?Z.compare_refl, ?Pos.compare_cont_refl; simpl;
    first [split; [discriminate|intros []]|split; [exact (fun _ => I)|reflexivity]].
Qed.

(** A sum is finite only if both its terms are. *)
Lemma Number_add_finite (x y : float) :
  Number_isFinite (x + y)%float = true ->
  Number_isFinite x = true /\ Number_isFinite y = true.
Proof.
  rewrite !Number_isFinite_class, FloatAxioms.add_spec.
  unfold FloatAxioms.SF64add, SpecFloat.SFadd.
  destruct (FloatOps.Prim2SF x) as [sx|sx| |sx mx ex],
    (FloatOps.Prim2SF y) as [sy|sy| |sy my ey]; cbv beta iota;
    try (intros _; split; exact I); try (intros []);
    destruct sx, sy; cbv beta iota; intros [].
Qed.

Lemma law_plus_finite (x y : Complex) :
  Complex_finite (law_plus x y) -> Complex_finite x /\ Complex_finite y.
Proof.
  unfold Complex_finite, law_plus. simpl. intros [Hr Hi].
  apply Number_add_finite in Hr as [Hr1 Hr2]. apply Number_add_finite in Hi as [Hi1 Hi2].
  split; split; assumption.
Qed.

Lemma Complex_new_returns (re im : float) :
  Complex_finite (mkComplex re im) -> Complex_new re im = Ret (mkComplex re im).
Proof. unfold Complex_finite, Complex_new. simpl. now intros [-> ->]. Qed.

Lemma Complex_multiply_law (a c z : Complex) :
  Complex_multiply a c = Ret z -> z = law_times a c.
Proof. unfold Complex_multiply. intros H. now apply Complex_new_finite in H as (-> & _). Qed.

Lemma Complex_add_law (x y z : Complex) :
  Complex_add x y = Ret z -> z = law_plus x y.
Proof. unfold Complex_add. intros H. now apply Complex_new_finite in H as (-> & _). Qed.

Lemma truthy_law (v : JsValue) : truthy v = law_truthy v.
Proof.
  unfold law_truthy. destruct v as [| |[|]|[|p|p]|[|a s]]; try reflexivity.
Qed.

Lemma merge_weighted_app (l1 l2 : list (JsValue * Complex)) (combined : JsMap Complex) :
  merge_weighted (l1 ++ l2) combined = merge_weighted l2 (merge_weighted l1 combined).
Proof.
  revert combined. induction l1 as [|[r c] l1 IH]; intros combined; simpl; [reflexivity|].
  apply IH.
Qed.

Lemma map_finite_set (r : JsValue) (c : Complex) (combined : JsMap Complex) :
  map_finite (Map_set r (law_plus (default Complex_zero (Map_get r combined)) c) combined) ->
  map_finite combined /\
  Complex_finite c /\
  Complex_finite (law_plus (default Complex_zero (Map_get r combined)) c).
Proof.
  intros Hfin.
  assert (Hsum : Complex_finite (law_plus (default Complex_zero (Map_get r combined)) c)).
  { apply (Hfin r). rewrite Map_get_set. now rewrite decide_True. }
  destruct (law_plus_finite _ _ Hsum) as [Hex Hc].
  split; [|now split].
  intros k s Hk. destruct (decide (r = k)) as [->|Hne].
  - now rewrite Hk in Hex.
  - apply (Hfin k). rewrite Map_get_set. now rewrite decide_False.
Qed.

Lemma merge_weighted_finite (contribs : list (JsValue * Complex)) :
  forall combined,
    map_finite (merge_weighted contribs combined) -> map_finite combined.
Proof.
  induction contribs as [|[r c] rest IH]; intros combined; simpl; [auto|].
  intros H. apply IH in H. now apply map_finite_set in H.
Qed.

(** The inner loop returns exactly the merge, and returns whenever the
    merge holds finite amplitudes only. *)
Lemma merge_branch_law (weight : Complex) (entries : JsMap Complex) :
  forall combined combined',
    merge_branch weight entries combined = Ret combined' ->
    combined' =
    merge_weighted (map (fun e => (e.1, law_times e.2 weight)) entries) combined.
Proof.
  induction entries as [|[rv ra] entries IH]; intros combined combined'; simpl.
  - now intros [= <-].
  - destruct (Complex_multiply ra weight) as [x|] eqn:Hx; [|discriminate]. simpl.
    destruct (Complex_add _ x) as [y|] eqn:Hy; [|discriminate]. simpl.
    apply Complex_multiply_law in Hx as ->. apply Complex_add_law in Hy as ->. apply IH.
Qed.

Lemma merge_branch_returns (weight : Complex) (entries : JsMap Complex) :
  forall combined,
    map_finite (merge_weighted (map (fun e => (e.1, law_times e.2 weight)) entries)
                               combined) ->
    merge_branch weight entries combined =
    Ret (merge_weighted (map (fun e => (e.1, law_times e.2 weight)) entries) combined).
Proof.
  induction entries as [|[rv ra] entries IH]; intros combined; simpl; [reflexivity|].
  intros Hfin. pose proof (merge_weighted_finite _ _ Hfin) as Hstep.
  apply map_finite_set in Hstep as (_ & Hc & Hsum).
  assert (Hm : Complex_multiply ra weight = Ret (law_times ra weight))
    by (apply Complex_new_returns; exact Hc).
  assert (Ha : Complex_add (default Complex_zero (Map_get rv combined)) (law_times ra weight)
               = Ret (law_plus (default Complex_zero (Map_get rv combined))
                               (law_times ra weight)))
    by (apply Complex_new_returns; exact Hsum).
  rewrite Hm. cbn [mbind Outcome_bind]. rewrite Ha. cbn [mbind Outcome_bind].
  apply IH. exact Hfin.
Qed.

Lemma mapM_cons {A B} (f : A -> Outcome B) (x : A) (l : list A) :
  mapM f (x :: l) = (y ← f x; k ← mapM f l; mret (y :: k)).
Proof. reflexivity. Qed.

Lemma quantumIf_loop_cons (cv : JsValue) (ca : Complex) (rest : JsMap Complex)
    (thenBranch elseBranch : JsValue -> BranchResult) (combined : JsMap Complex) :
  quantumIf_loop ((cv, ca) :: rest) thenBranch elseBranch combined =
  (branchState ← _coerceToState (if truthy cv then thenBranch cv else elseBranch cv);
   combined' ← merge_branch ca (basis branchState) combined;
   quantumIf_loop rest thenBranch elseBranch combined').
Proof. reflexivity. Qed.

(** The outer loop, likewise. *)
Lemma quantumIf_loop_law (thenBranch elseBranch : JsValue -> BranchResult)
    (entries : JsMap Complex) :
  forall combined combined',
    quantumIf_loop entries thenBranch elseBranch combined = Ret combined' ->
    exists branchStates,
      mapM (fun o => _coerceToState (law_branch thenBranch elseBranch o.1)) entries
        = Ret branchStates /\
      combined' =
      merge_weighted (law_contributions (zip (map snd entries) branchStates)) combined.
Proof.
  induction entries as [|[cv ca] entries IH]; intros combined combined'.
  - simpl. intros [= <-]. now exists [].
  - rewrite quantumIf_loop_cons, truthy_law. fold (law_branch thenBranch elseBranch cv).
    destruct (_coerceToState (law_branch thenBranch elseBranch cv)) as [branchState|]
      eqn:Hstate; [|discriminate].
    cbn [mbind Outcome_bind].
    destruct (merge_branch ca (basis branchState) combined) as [c1|] eqn:Hm; [|discriminate].
    cbn [mbind Outcome_bind]. intros H.
    destruct (IH _ _ H) as (branchStates & Hstates & ->).
    exists (branchState :: branchStates). split.
    + rewrite mapM_cons. cbn [fst]. rewrite Hstate. cbn [mbind Outcome_bind].
      rewrite Hstates. reflexivity.
    + unfold law_contributions. simpl. rewrite merge_weighted_app.
      now rewrite (merge_branch_law _ _ _ _ Hm).
Qed.

Lemma quantumIf_loop_returns (thenBranch elseBranch : JsValue -> BranchResult)
    (entries : JsMap Complex) :
  forall combined branchStates,
    mapM (fun o => _coerceToState (law_branch thenBranch elseBranch o.1)) entries
      = Ret branchStates ->
    map_finite (merge_weighted (law_contributions (zip (map snd entries) branchStates))
                               combined) ->
    quantumIf_loop entries thenBranch elseBranch combined =
    Ret (merge_weighted (law_contributions (zip (map snd entries) branchStates)) combined).
Proof.
  induction entries as [|[cv ca] entries IH]; intros combined branchStates.
  - simpl. now intros [= <-].
  - rewrite quantumIf_loop_cons, truthy_law, mapM_cons.
    fold (law_branch thenBranch elseBranch cv). cbn [fst].
    destruct (_coerceToState (law_branch thenBranch elseBranch cv)) as [branchState|];
      [|discriminate].
    cbn [mbind Outcome_bind].
    destruct (mapM _ entries) as [rest|] eqn:Hrest; [|discriminate].
    cbn [mbind Outcome_bind]. intros [= <-].
    unfold law_contributions. simpl. rewrite merge_weighted_app.
    intros Hfin. rewrite merge_branch_returns by (eapply merge_weighted_finite; eauto).
    cbn [mbind Outcome_bind]. now apply IH.
Qed.

(** The merge, read value by value. *)
Lemma merge_weighted_keys (contribs : list (JsValue * Complex)) :
  forall combined,
    Map_keys (merge_weighted contribs combined) =
    fold_left (fun acc k => Set_add_value k acc) (map fst contribs) (Map_keys combined).
Proof.
  induction contribs as [|[r c] rest IH]; intros combined; simpl; [reflexivity|].
  now rewrite IH, Map_keys_set_list.
Qed.

Lemma merge_weighted_get (r : JsValue) (contribs : list (JsValue * Complex)) :
  forall combined,
    r ∈ Map_keys (merge_weighted contribs combined) ->
    Map_get r (merge_weighted contribs combined) =
    Some (fold_left law_plus
            (map snd (List.filter (fun c => bool_decide (c.1 = r)) contribs))
            (default Complex_zero (Map_get r combined))).
Proof.
  induction contribs as [|[r' c] rest IH]; intros combined Hin; simpl.
  - simpl in Hin. apply Map_has_keys in Hin. unfold Map_has in Hin.
    now destruct (Map_get r combined).
  - rewrite (IH _ Hin), Map_get_set.
    destruct (decide (r' = r)) as [->|Hne].
    + now rewrite bool_decide_eq_true_2.
    + now rewrite bool_decide_eq_false_2.
Qed.

Lemma NoDup_first_mentions (keys : list JsValue) : NoDup (first_mentions keys).
Proof. apply (add_keys_spec keys []). constructor. Qed.

Lemma Map_by_keys (m : JsMap Complex) :
  NoDup (Map_keys m) ->
  m = map (fun k => (k, default Complex_zero (Map_get k m))) (Map_keys m).
Proof.
  induction m as [|[k v] m IH]; simpl; intros Hnd; [reflexivity|].
  apply NoDup_cons in Hnd as [Hk Hnd]. rewrite decide_True by reflexivity. simpl. f_equal.
  rewrite (IH Hnd) at 1. apply map_ext_in. intros k' Hk'.
  rewrite decide_False; [reflexivity|]. intros ->. apply Hk. now apply list_elem_of_In.
Qed.

Lemma merge_weighted_law (contribs : list (JsValue * Complex)) :
  merge_weighted contribs [] = law_merged contribs.
Proof.
  pose proof (merge_weighted_keys contribs []) as Hkeys. simpl in Hkeys.
  fold (first_mentions (map fst contribs)) in Hkeys.
  rewrite (Map_by_keys (merge_weighted contribs []))
    by (rewrite Hkeys; apply NoDup_first_mentions).
  rewrite Hkeys. unfold law_merged. apply map_ext_in. intros k Hk. f_equal.
  rewrite merge_weighted_get; [reflexivity|]. rewrite Hkeys. now apply list_elem_of_In.
Qed.

(** A map the constructor accepts holds finite amplitudes only. *)
Lemma accumulate_finite (entries : list (JsValue * Complex)) :
  forall b b', accumulate entries b = Ret b' ->
    Forall (fun e => Complex_finite e.2) entries.
Proof.
  induction entries as [|[value amplitude] rest IH]; intros b b'; simpl; [constructor|].
  destruct (Complex_add _ _) as [sum|] eqn:Hadd; [|discriminate]. simpl.
  intros H. constructor; [|eapply IH; eauto]. simpl.
  pose proof (Complex_add_law _ _ _ Hadd) as ->.
  apply Complex_new_finite in Hadd as (_ & Hr & Hi).
  apply (law_plus_finite (default Complex_zero (Map_get value b)) amplitude). now split.
Qed.

Lemma Map_get_elem {V} (k : JsValue) (v : V) (m : JsMap V) :
  Map_get k m = Some v -> (k, v) ∈ m.
Proof.
  induction m as [|[k' v'] m IH]; simpl; [discriminate|].
  destruct (decide (k' = k)) as [->|]; [intros [= ->]; left|intros H; right; auto].
Qed.

Lemma QuantumState_new_finite (entries : list (JsValue * Complex)) (q : QuantumState) :
  QuantumState_new entries = Ret q -> entries <> [] /\ map_finite entries.
Proof.
  unfold QuantumState_new. destruct entries as [|entry entries]; [discriminate|].
  destruct (accumulate _ _) as [b|] eqn:Hacc; [|discriminate]. intros _.
  split; [discriminate|]. apply accumulate_finite in Hacc.
  intros k s Hk. apply Map_get_elem in Hk.
  rewrite Forall_forall in Hacc. exact (Hacc _ Hk).
Qed.

(** [quantumIf] returns what the law prescribes, and returns whenever the
    law prescribes a result. *)
Lemma quantumIf_law (condition : QuantumState)
    (thenBranch elseBranch : JsValue -> BranchResult) (result : QuantumState) :
  quantumIf condition thenBranch elseBranch = Ret result <->
  law_result condition thenBranch elseBranch = Ret result.
Proof.
  unfold quantumIf, law_result. split.
  - destruct (quantumIf_loop _ _ _ _) as [combined|] eqn:Hloop; [|discriminate]. simpl.
    apply quantumIf_loop_law in Hloop as (branchStates & -> & ->). simpl.
    rewrite merge_weighted_law. apply buildStateFromMap_new.
  - destruct (mapM _ _) as [branchStates|] eqn:Hstates; [|discriminate]. simpl.
    intros Hnew. pose proof (QuantumState_new_finite _ _ Hnew) as [Hne Hfin].
    rewrite <- merge_weighted_law in Hne, Hfin, Hnew.
    rewrite (quantumIf_loop_returns _ _ _ _ _ Hstates Hfin). simpl.
    unfold _buildStateFromMap.
    now destruct (merge_weighted _ _).
Qed.

End Engine.

(* ===================================================================== *)
(** * The reference scenarios *)

(** A store with no object yet, under any random source and clock. *)
Definition fresh_world (R : nat -> float) (T : nat -> Z) : World :=
  mkWorld [] [] R 0 T 0.

Definition on_real_axis (x : float) : Complex := mkComplex x 0.

(** The cascade scenario: the classical source, any target without
    entanglement, the correlation, and one [measure()] of the source. *)
Definition cascade_scenario (hypot : float -> float -> float) (depth : nat)
    (target : QuantumState) (f : JsValue -> JsValue)
  : Eff World (StateId * StateId * JsValue) :=
  source ← QuantumState_alloc hypot [(JNum 0, on_real_axis 1); (JNum 1, on_real_axis 0)];
  target ← allocState target;
  Entanglement_new hypot depth source target f;;
  observed ← measure depth source;
  mret (source, target, observed).

(** The two reference cases of [interfere], with the default weights. *)
Definition interfere_destructive (hypot : float -> float -> float) : Outcome QuantumState :=
  s1 ← QuantumState_new hypot [(JStr "A", on_real_axis 1); (JStr "B", on_real_axis 1)];
  s2 ← QuantumState_new hypot [(JStr "A", on_real_axis (-1)); (JStr "B", on_real_axis 1)];
  interfere hypot [s1; s2] None.

Definition interfere_constructive (hypot : float -> float -> float) : Outcome QuantumState :=
  s1 ← QuantumState_new hypot [(JStr "X", on_real_axis 1)];
  s2 ← QuantumState_new hypot [(JStr "X", on_real_axis 1)];
  interfere hypot [s1; s2] None.

(** The reference case of [quantumIf]: 70/30, plain branch values. *)
Definition quantumIf_reference (hypot : float -> float -> float) : Outcome QuantumState :=
  condition ← QuantumState_new hypot
    [(JBool true, on_real_axis (sqrt 0.7)); (JBool false, on_real_axis (sqrt 0.3))];
  quantumIf hypot condition (fun _ => Plain (JStr "then")) (fun _ => Plain (JStr "else")).

(** Concrete stores and arguments the statements are run on. *)
Definition clock0 : nat -> Z := fun n => Z.of_nat n.

Definition start_world : World := fresh_world (fun _ => 0.3%float) clock0.

(** One object, a fair coin over 0 and 1. *)
Definition coin_world : World :=
  (QuantumState_alloc Math_hypot_ref [(JNum 0, on_real_axis 1); (JNum 1, on_real_axis 1)]
     start_world).1.

(** One object, classical at "A". *)
Definition lone_world : World :=
  (QuantumState_alloc Math_hypot_ref [(JStr "A", on_real_axis 1)] start_world).1.

(** One object, built from [{0:(1,0), 1:(0,0)}]. *)
Definition classical_world : World :=
  (QuantumState_alloc Math_hypot_ref [(JNum 0, on_real_axis 1); (JNum 1, on_real_axis 0)]
     start_world).1.

Definition bit_to_letter (v : JsValue) : JsValue :=
  match v with
  | JNum 0 => JStr "A"
  | _ => JStr "B"
  end.

(** A coin (object 0) correlated to a target (object 1). *)
Definition pair_setup : Eff World LinkId :=
  source ← QuantumState_alloc Math_hypot_ref
    [(JNum 0, on_real_axis 1); (JNum 1, on_real_axis 1)];
  target ← QuantumState_alloc Math_hypot_ref [(JStr "A", on_real_axis 1)];
  Entanglement_new Math_hypot_ref 5 source target bit_to_letter.

Definition pair_world : World := (pair_setup start_world).1.

(** Two objects correlated in both directions.  The second constructor
    registers its entanglement on both objects and then throws, because its
    mapping is undefined at "y"; a caller that catches the error goes on
    with the store as the constructor left it. *)
Definition forward (v : JsValue) : JsValue :=
  match v with
  | JNum 0 => JStr "x"
  | _ => JStr "y"
  end.

Definition backward (v : JsValue) : JsValue :=
  match v with
  | JStr "x" => JNum 1
  | _ => JUndefined
  end.

Definition cyclic_setup : Eff World LinkId :=
  a ← QuantumState_alloc Math_hypot_ref [(JNum 0, on_real_axis 1); (JNum 1, on_real_axis 1)];
  b ← QuantumState_alloc Math_hypot_ref [(JStr "x", on_real_axis 1); (JStr "y", on_real_axis 1)];
  Entanglement_new Math_hypot_ref 10 a b forward;;
  Entanglement_new Math_hypot_ref 10 b a backward.

Definition cyclic_world : World := (cyclic_setup start_world).1.

(** A classical source (object 0) correlated to a target (object 1)
    through a mapping defined at "x" only. *)
Definition only_at_x (v : JsValue) : JsValue :=
  match v with
  | JStr "x" => JStr "p"
  | _ => JUndefined
  end.

Definition partial_setup : Eff World LinkId :=
  source ← QuantumState_alloc Math_hypot_ref [(JStr "x", on_real_axis 1)];
  target ← QuantumState_alloc Math_hypot_ref [(JStr "p", on_real_axis 1)];
  Entanglement_new Math_hypot_ref 5 source target only_at_x.

Definition partial_world : World := (partial_setup start_world).1.

(** A loop that steps 0 to 1 and 1 to 2: the condition
    [v => v === 0 || v === 1] and the body
    [v => v === 0 ? 1 : v === 1 ? 2 : v]. *)
Definition zero_or_one (v : JsValue) : bool :=
  bool_decide (v = JNum 0) || bool_decide (v = JNum 1).

Definition step_up (v : JsValue) (iteration : nat) : BranchResult :=
  if bool_decide (v = JNum 0) then Plain (JNum 1)
  else if bool_decide (v = JNum 1) then Plain (JNum 2)
  else Plain v.

Definition zero_or_three : QuantumState :=
  mkQuantumState [(JNum 0, on_real_axis (sqrt 0.5)); (JNum 3, on_real_axis (sqrt 0.5))]
                 [] [] false JUndefined.

Definition seventy_thirty : QuantumState :=
  mkQuantumState [(JBool true, on_real_axis (sqrt 0.7)); (JBool false, on_real_axis (sqrt 0.3))]
                 [] [] false JUndefined.

(** A state classical at 3. *)
Definition only_three : QuantumState :=
  mkQuantumState [(JNum 3, Complex_one)] [] [] true (JNum 3).

(** [Math.hypot] exact on the imaginary axis too, and the engine's
    [Math.hypot] with both axes built in. *)
Definition imaginary_axis_exact (hypot : float -> float -> float) : Prop :=
  forall x y, is_zero x = true -> hypot x y = abs y.

Definition on_axes (hypot : float -> float -> float) (x y : float) : float :=
  if is_zero y then abs x else if is_zero x then abs y else hypot x y.

(** A case of [quantumIf] with amplitudes off the real axis, outcomes that
    are not booleans, a branch that returns a state and a merge: the
    condition [{5: 0.6i, "": 0.8}], [thenFn] returning the state
    [{x: 0.6i, y: 0.8}] and [elseFn] the plain value "x". *)
Definition quantumIf_complex (hypot : float -> float -> float) : Outcome QuantumState :=
  condition ← QuantumState_new hypot
    [(JNum 5, mkComplex 0 0.6); (JStr EmptyString, mkComplex 0.8 0)];
  branch ← QuantumState_new hypot [(JStr "x", mkComplex 0 0.6); (JStr "y", mkComplex 0.8 0)];
  quantumIf hypot condition (fun _ => AState branch) (fun _ => Plain (JStr "x")).

(** Entries that mention "a" twice, unnormalised. *)
Definition three_four_one : list (JsValue * Complex) :=
  [(JStr "a", on_real_axis 3); (JStr "b", on_real_axis 4); (JStr "a", on_real_axis 1)].

(** A classical state at "A", as the constructor leaves it. *)
Definition classical_at_A : QuantumState :=
  mkQuantumState [(JStr "A", Complex_one)] [] [] true (JStr "A").

(** A coin (object 0) and a classical object (object 1), not yet
    entangled. *)
Definition two_objects : World :=
  ((QuantumState_alloc Math_hypot_ref [(JNum 0, on_real_axis 1); (JNum 1, on_real_axis 1)];;
    QuantumState_alloc Math_hypot_ref [(JStr "A", on_real_axis 1)]) start_world).1.


(** Stand-ins for [Math.cos] and [Math.sin] that are exact at 0. *)
Definition cos_at_zero (x : float) : float := 1%float.
Definition sin_at_zero (x : float) : float := 0%float.

(** A stand-in for the exponent notation of [Number::toString]; the
    outcomes below are far from 1e21. *)
Definition exponent_unused (n : Z) : string := "1e+21".

(** ** Facts *)

Lemma axis_exact_ref : axis_exact Math_hypot_ref.
Proof. intros x y Hy. unfold Math_hypot_ref. now rewrite Hy. Qed.

Lemma axis_exact_eq (hypot : float -> float -> float) :
  axis_exact hypot -> hypot = on_axis hypot.
Proof.
  intros H. apply functional_extensionality. intros x.
  apply functional_extensionality. intros y. unfold on_axis.
  destruct (is_zero y) eqn:Hy; [now apply H|reflexivity].
Qed.

Lemma imaginary_axis_exact_ref : imaginary_axis_exact Math_hypot_ref.
Proof.
  intros x y Hx. unfold Math_hypot_ref. rewrite Hx.
  destruct (is_zero y) eqn:Hy; [|reflexivity].
  rewrite <- (FloatAxioms.SF2Prim_Prim2SF (abs x)), <- (FloatAxioms.SF2Prim_Prim2SF (abs y)).
  f_equal. rewrite !FloatAxioms.abs_spec.
  revert Hx Hy. unfold is_zero. rewrite !FloatAxioms.eqb_spec.
  change (FloatOps.Prim2SF 0) with (SpecFloat.S754_zero false).
  destruct (FloatOps.Prim2SF x) as [sx|sx| |sx mx ex]; try discriminate;
    destruct (FloatOps.Prim2SF y) as [sy|sy| |sy my ey]; try discriminate;
    try reflexivity; cbn; try (destruct sx; discriminate); destruct sy; discriminate.
Qed.

Lemma axes_exact_eq (hypot : float -> float -> float) :
  axis_exact hypot -> imaginary_axis_exact hypot -> hypot = on_axes hypot.
Proof.
  intros H1 H2. apply functional_extensionality. intros x.
  apply functional_extensionality. intros y. unfold on_axes.
  destruct (is_zero y) eqn:Hy; [now apply H1|].
  destruct (is_zero x) eqn:Hx; [now apply H2|reflexivity].
Qed.

Lemma classical_source (hypot : float -> float -> float) :
  axis_exact hypot ->
  QuantumState_new hypot [(JNum 0, on_real_axis 1); (JNum 1, on_real_axis 0)]
  = Ret (mkQuantumState [(JNum 0, Complex_one)] [] [] true (JNum 0)).
Proof. intros H. rewrite (axis_exact_eq hypot H). vm_compute. reflexivity. Qed.

Lemma cascade_scenario_run (hypot : float -> float -> float) (depth : nat)
    (target : QuantumState) (f : JsValue -> JsValue) (R : nat -> float) (T : nat -> Z) :
  axis_exact hypot ->
  entanglements target = [] ->
  f (JNum 0) = JStr "A" ->
  exists w' h,
    cascade_scenario hypot (3 + depth) target f (fresh_world R T) = (w', Ret (0, 1, JNum 0)) /\
    states w' !! 1 = Some (collapsed_on (JStr "A") h (set_entanglements [0] target)) /\
    reason h = "entanglement-collapse" /\
    random_calls w' = 0.
Proof.
  intros Hax Hl Hf. destruct target as [b ents hist c v]. simpl in Hl. subst ents.
  unfold cascade_scenario, QuantumState_alloc.
  rewrite bind_run, bind_run. unfold liftO at 1. rewrite (classical_source hypot Hax).
  cbv -[_collapseState2 Map_has getProbabilities]. rewrite Hf.
  cbv -[_collapseState2 Map_has getProbabilities].
  rewrite _collapseState2_eq.
  cbv -[collapseTo Map_has getProbabilities].
  destruct (Map_has (JStr "A") b) eqn:Hhas.
  - erewrite collapseTo_target_run; [|reflexivity|exact Hhas|].
    + cbv -[Map_has getProbabilities].
      eexists. eexists. split; [reflexivity|]. split; [reflexivity|]. split; reflexivity.
    + intros e He. apply list_elem_of_singleton in He as ->.
      eexists. split; [reflexivity|]. right. discriminate.
  - cbv -[Map_has getProbabilities].
    eexists. eexists. split; [reflexivity|]. split; [reflexivity|]. split; reflexivity.
Qed.

(** C3 — The entanglement cascade.  The source built from
    [{0:(1,0), 1:(0,0)}] is classical after pruning; correlating it with any
    target through a mapping that sends 0 to "A" and measuring the source
    returns 0 and leaves the target with the single entry "A" of amplitude
    (1,0): collapsed, probability 1, one more history record whose reason is
    the entanglement, and no random sample drawn by anyone.  In general a
    collapsed source whose mapped value is not in the basis of the target
    does not fail: the value is injected as the only entry. *)
Theorem entanglement_cascade (hypot : float -> float -> float) (depth : nat) :
  (forall target f R T,
      axis_exact hypot ->
      entanglements target = [] ->
      f (JNum 0) = JStr "A" ->
      exists w' q' h,
        cascade_scenario hypot (3 + depth) target f (fresh_world R T)
          = (w', Ret (0, 1, JNum 0)) /\
        states w' !! 1 = Some q' /\
        basis q' = [(JStr "A", Complex_one)] /\
        isCollapsed q' = true /\
        collapsedValue q' = JStr "A" /\
        probability q' (JStr "A") = 1%float /\
        measurementHistory q' = measurementHistory target ++ [h] /\
        reason h = "entanglement-collapse" /\
        random_calls w' = 0) /\
  (forall e ent w qs qt k source,
      links w !! e = Some ent ->
      isActive ent = true ->
      states w !! state1 ent = Some qs ->
      isCollapsed qs = true ->
      relationFn ent (collapsedValue qs) = k ->
      k <> JUndefined ->
      states w !! state2 ent = Some qt ->
      Map_has k (basis qt) = false ->
      source = None \/ source = Some (state1 ent) ->
      exists w' q',
        updateEntanglement hypot (S depth) e source w = (w', Ret tt) /\
        states w' !! state2 ent = Some q' /\
        basis q' = [(k, Complex_one)] /\
        isCollapsed q' = true /\
        collapsedValue q' = k) /\
  (forall e ent w qt v k,
      links w !! e = Some ent ->
      isActive ent = true ->
      relationFn ent v = k ->
      k <> JUndefined ->
      states w !! state2 ent = Some qt ->
      Map_has k (basis qt) = false ->
      exists w' q',
        onMeasurement (S depth) e (state1 ent) v w = (w', Ret tt) /\
        states w' !! state2 ent = Some q' /\
        basis q' = [(k, Complex_one)] /\
        isCollapsed q' = true /\
        collapsedValue q' = k).
Proof.
  split; [|split].
  - intros target f R T Hax Hl Hf.
    destruct (cascade_scenario_run hypot depth target f R T Hax Hl Hf)
      as (w' & h & Hrun & Hst & Hr & Hn).
    exists w', (collapsed_on (JStr "A") h (set_entanglements [0] target)), h.
    repeat split; auto.
  - intros e ent w qs qt k source He Hact Hqs Hc Hk Hdef Hqt Hhas Hsrc.
    destruct (collapsed_source_injects hypot depth e ent w qs qt k
                He Hact Hqs Hc Hk Hdef Hqt Hhas source Hsrc)
      as (w' & h & Hrun & Hst & _).
    exists w', (collapsed_on k h qt). repeat split; auto.
    rewrite Hst. apply list_lookup_insert_eq. eapply lookup_lt_Some; eauto.
  - intros e ent w qt v k He Hact Hk Hdef Hqt Hhas.
    destruct (measured_source_injects depth e ent w qt v k He Hact Hk Hdef Hqt Hhas)
      as (w' & h & Hrun & Hst & _).
    exists w', (collapsed_on k h qt). repeat split; auto.
    rewrite Hst. apply list_lookup_insert_eq. eapply lookup_lt_Some; eauto.
Qed.

(** C4 — [interfere] with the default uniform weights.  Destructive case:
    the amplitudes at "A" cancel, "A" is pruned from the result (probability
    0) and "B" has probability 1 within 1e-9.  Constructive case: "X" has
    probability 1 within 1e-9. *)
Theorem interfere_reference_cases (hypot : float -> float -> float) :
  axis_exact hypot ->
  (exists r,
      interfere_destructive hypot = Ret r /\
      Map_has (JStr "A") (basis r) = false /\
      probability r (JStr "A") = 0%float /\
      close_to (probability r (JStr "B")) 1 = true) /\
  (exists r,
      interfere_constructive hypot = Ret r /\
      close_to (probability r (JStr "X")) 1 = true).
Proof.
  intros H. rewrite (axis_exact_eq hypot H). split.
  - eexists. split; [vm_compute; reflexivity|]. now vm_compute.
  - eexists. split; [vm_compute; reflexivity|]. now vm_compute.
Qed.

(** C6 — The weighting law of [quantumIf].  On the condition
    [{true: sqrt 0.7, false: sqrt 0.3}] with branches returning the plain
    values "then" and "else", the result has exactly these two outcomes with
    probabilities 0.7 and 0.3 within 1e-9.  On the condition
    [{5: 0.6i, "": 0.8}], with [thenFn] returning the state
    [{x: 0.6i, y: 0.8}] and [elseFn] the plain value "x", the truthy 5
    selects [thenFn] and the falsy "" selects [elseFn], the products are
    complex products and the two contributions at "x" add up: the result
    holds x with amplitude 0.44 and y with amplitude 0.48i, renormalised.
    In general [quantumIf] returns a result exactly when the law prescribes
    one, and it is that one: the state constructed from the map holding,
    at every result value in the order of first mention, the in-order sum
    of branch amplitude times condition amplitude over the branches
    selected by truthiness. *)
Theorem quantumIf_weighting_law (hypot : float -> float -> float) :
  (axis_exact hypot ->
   exists r,
     quantumIf_reference hypot = Ret r /\
     Map_keys (basis r) = [JStr "then"; JStr "else"] /\
     close_to (probability r (JStr "then")) 0.7 = true /\
     close_to (probability r (JStr "else")) 0.3 = true) /\
  (axis_exact hypot -> imaginary_axis_exact hypot ->
   exists r,
     quantumIf_complex hypot = Ret r /\
     Map_keys (basis r) = [JStr "x"; JStr "y"] /\
     close_to (real (getAmplitude r (JStr "x"))) (0.44 / sqrt 0.424) = true /\
     is_zero (imag (getAmplitude r (JStr "x"))) = true /\
     is_zero (real (getAmplitude r (JStr "y"))) = true /\
     close_to (imag (getAmplitude r (JStr "y"))) (0.48 / sqrt 0.424) = true /\
     close_to (probability r (JStr "x")) (0.1936 / 0.424) = true /\
     close_to (probability r (JStr "y")) (0.2304 / 0.424) = true) /\
  (forall condition thenBranch elseBranch result,
      quantumIf hypot condition thenBranch elseBranch = Ret result <->
      law_result hypot condition thenBranch elseBranch = Ret result).
Proof.
  split; [|split].
  - intros H. rewrite (axis_exact_eq hypot H).
    eexists. split; [vm_compute; reflexivity|]. now vm_compute.
  - intros H1 H2. rewrite (axes_exact_eq hypot H1 H2).
    eexists. split; [vm_compute; reflexivity|]. now vm_compute.
  - intros condition thenBranch elseBranch result. apply quantumIf_law.
Qed.

(** ** The statements at concrete inputs *)

(** C3 on the target [{A:(1,0)}] with the mapping of the test suite. *)
Lemma entanglement_cascade_witness :
  axis_exact Math_hypot_ref /\
  entanglements (mkQuantumState [(JStr "A", Complex_one)] [] [] true (JStr "A")) = [] /\
  bit_to_letter (JNum 0) = JStr "A" /\
  exists w' q' h,
    cascade_scenario Math_hypot_ref 3
      (mkQuantumState [(JStr "A", Complex_one)] [] [] true (JStr "A")) bit_to_letter start_world
      = (w', Ret (0, 1, JNum 0)) /\
    states w' !! 1 = Some q' /\
    basis q' = [(JStr "A", Complex_one)] /\
    isCollapsed q' = true /\
    collapsedValue q' = JStr "A" /\
    probability q' (JStr "A") = 1%float /\
    measurementHistory q' = [] ++ [h] /\
    reason h = "entanglement-collapse" /\
    random_calls w' = 0.
Proof.
  split; [exact axis_exact_ref|]. split; [reflexivity|]. split; [reflexivity|].
  exact (proj1 (entanglement_cascade Math_hypot_ref 0)
           (mkQuantumState [(JStr "A", Complex_one)] [] [] true (JStr "A"))
           bit_to_letter (fun _ => 0.3%float) clock0 axis_exact_ref eq_refl eq_refl).
Defined.

(** C4 under the reference [Math.hypot]. *)
Lemma interfere_reference_cases_witness :
  axis_exact Math_hypot_ref /\
  (exists r,
      interfere_destructive Math_hypot_ref = Ret r /\
      Map_has (JStr "A") (basis r) = false /\
      probability r (JStr "A") = 0%float /\
      close_to (probability r (JStr "B")) 1 = true) /\
  (exists r,
      interfere_constructive Math_hypot_ref = Ret r /\
      close_to (probability r (JStr "X")) 1 = true).
Proof.
  split; [exact axis_exact_ref|].
  exact (interfere_reference_cases Math_hypot_ref axis_exact_ref).
Defined.

(** C6 under the reference [Math.hypot]: the two cases, and the law on the
    condition with outcomes that are not booleans. *)
Lemma quantumIf_weighting_law_witness :
  axis_exact Math_hypot_ref /\ imaginary_axis_exact Math_hypot_ref /\
  (exists r,
     quantumIf_reference Math_hypot_ref = Ret r /\
     Map_keys (basis r) = [JStr "then"; JStr "else"] /\
     close_to (probability r (JStr "then")) 0.7 = true /\
     close_to (probability r (JStr "else")) 0.3 = true) /\
  (exists r,
     quantumIf_complex Math_hypot_ref = Ret r /\
     Map_keys (basis r) = [JStr "x"; JStr "y"] /\
     close_to (real (getAmplitude r (JStr "x"))) (0.44 / sqrt 0.424) = true /\
     is_zero (imag (getAmplitude r (JStr "x"))) = true /\
     is_zero (real (getAmplitude r (JStr "y"))) = true /\
     close_to (imag (getAmplitude r (JStr "y"))) (0.48 / sqrt 0.424) = true /\
     close_to (probability r (JStr "x")) (0.1936 / 0.424) = true /\
     close_to (probability r (JStr "y")) (0.2304 / 0.424) = true) /\
  (exists result,
     law_result Math_hypot_ref seventy_thirty
       (fun _ => Plain (JStr "then")) (fun _ => Plain (JStr "else")) = Ret result /\
     quantumIf Math_hypot_ref seventy_thirty
       (fun _ => Plain (JStr "then")) (fun _ => Plain (JStr "else")) = Ret result).
Proof.
  destruct (quantumIf_weighting_law Math_hypot_ref) as (H1 & H2 & H3).
  split; [exact axis_exact_ref|]. split; [exact imaginary_axis_exact_ref|].
  split; [exact (H1 axis_exact_ref)|].
  split; [exact (H2 axis_exact_ref imaginary_axis_exact_ref)|].
  eexists. split; [vm_compute; reflexivity|].
  apply (proj2 (H3 seventy_thirty (fun _ => Plain (JStr "then"))
                  (fun _ => Plain (JStr "else")) _)).
  vm_compute. reflexivity.
Defined.

(** C7 with ten rounds allowed: the loop that steps up, which stops after
    two rounds on the state over 0 and 3; the state classical at 3, on
    which no round runs; and the same state with no round allowed. *)
Lemma quantumWhile_termination_flag_witness :
  (exists r,
     quantumWhile Math_hypot_ref zero_or_one step_up zero_or_three 10 = Ret r /\
     iterations r = 2 /\ terminatedByMaxIterations r = false /\
     Map_keys (basis (finalState r)) = [JNum 2; JNum 3] /\
     anyTrue zero_or_one (finalState r) = false) /\
  (exists r,
     quantumWhile Math_hypot_ref zero_or_one step_up only_three 10 = Ret r /\
     finalState r = only_three /\ iterations r = 0 /\
     terminatedByMaxIterations r = false) /\
  (exists r,
     quantumWhile Math_hypot_ref zero_or_one step_up only_three 0 = Ret r /\
     finalState r = only_three /\ iterations r = 0 /\
     terminatedByMaxIterations r = true) /\
  quantumWhile Math_hypot_ref zero_or_one step_up only_three (-1)
    = Throw (RangeError "quantumWhile maxIterations must be a non-negative integer.").
Proof.
  assert (Hclone : clone Math_hypot_ref only_three = Ret only_three)
    by (vm_compute; reflexivity).
  split; [|split; [|split]].
  - destruct (quantumWhile Math_hypot_ref zero_or_one step_up zero_or_three 10)
      as [r|err] eqn:Hr; [|vm_compute in Hr; discriminate Hr].
    destruct (proj1 (proj2 (quantumWhile_termination_flag Math_hypot_ref zero_or_one step_up
                              zero_or_three 10)) r Hr)
      as (start & _ & _ & _ & _ & Hflag & Hstop & _).
    assert (Hit : iterations r = 2) by (vm_compute in Hr; now injection Hr as <-).
    assert (Hf : terminatedByMaxIterations r = false)
      by (apply (proj2 Hflag); rewrite Hit; reflexivity).
    exists r. split; [reflexivity|]. split; [exact Hit|]. split; [exact Hf|].
    split; [vm_compute in Hr; now injection Hr as <-|exact (Hstop Hf)].
  - destruct (proj2 (proj2 (quantumWhile_termination_flag Math_hypot_ref zero_or_one step_up
                              only_three 10)) only_three only_three 0 only_three
                Hclone Hclone) as (hist & Hrun).
    + discriminate.
    + reflexivity.
    + intros k s Hk. inversion Hk.
    + right. reflexivity.
    + intros k s [Hk1 Hk2]. exfalso. inversion Hk2. subst. inversion Hk1.
    + eexists. split; [exact Hrun|]. repeat split.
  - destruct (proj2 (proj2 (quantumWhile_termination_flag Math_hypot_ref zero_or_one step_up
                              only_three 0)) only_three only_three 0 only_three
                Hclone Hclone) as (hist & Hrun).
    + reflexivity.
    + reflexivity.
    + intros k s Hk. inversion Hk.
    + left. reflexivity.
    + intros k s [Hk1 Hk2]. exfalso. inversion Hk2. subst. inversion Hk1.
    + eexists. split; [exact Hrun|]. repeat split.
  - apply (proj1 (quantumWhile_termination_flag Math_hypot_ref zero_or_one step_up
                    only_three (-1))). reflexivity.
Defined.

(** C5 on [{A:(1,0)}]: a refused argument, and an amplitude whose square
    overflows. *)
Lemma setAmplitude_failure_witness :
  setAmplitude Math_hypot_ref 3 0 (JStr "A") (AOther JNull) lone_world
    = (lone_world, Throw (TypeError "setAmplitude requires amplitude to be Complex.")) /\
  exists w' q',
    setAmplitude Math_hypot_ref 3 0 (JStr "A") (AComplex (on_real_axis 1e200)) lone_world
      = (w', Throw (Error "Quantum state collapsed to zero probability mass.")) /\
    w' = set_states (<[0 := q']> (states lone_world)) lone_world /\
    same_but_basis (mkQuantumState [(JStr "A", Complex_one)] [] [] true (JStr "A")) q'.
Proof.
  destruct (setAmplitude_failure Math_hypot_ref 3 0 (JStr "A") lone_world) as [H1 _].
  destruct (setAmplitude_failure Math_hypot_ref 2 0 (JStr "A") lone_world) as [_ H2].
  split; [apply H1|].
  destruct (H2 (on_real_axis 1e200)
              (mkQuantumState [(JStr "A", Complex_one)] [] [] true (JStr "A"))
              (setAmplitude Math_hypot_ref 3 0 (JStr "A")
                 (AComplex (on_real_axis 1e200)) lone_world).1
              (Error "Quantum state collapsed to zero probability mass.")
              eq_refl) as (q' & Hw & Hs);
    [intros e He; inversion He|vm_compute; reflexivity|].
  exists (setAmplitude Math_hypot_ref 3 0 (JStr "A")
            (AComplex (on_real_axis 1e200)) lone_world).1, q'.
  split; [vm_compute; reflexivity|]. split; [exact Hw|exact Hs].
Defined.

(** C9 on the object built from [{0:(1,0), 1:(0,0)}]. *)
Lemma measure_collapsed_changes_nothing_witness :
  states classical_world !! 0 = Some (mkQuantumState [(JNum 0, Complex_one)] [] [] true (JNum 0)) /\
  measure 5 0 classical_world = (classical_world, Ret (JNum 0)).
Proof.
  split; [reflexivity|].
  exact (measure_collapsed_changes_nothing 5 0 classical_world
           (mkQuantumState [(JNum 0, Complex_one)] [] [] true (JNum 0)) eq_refl eq_refl).
Defined.

(** C10 on a coin correlated to a target: notifications that come from
    the target, and methods run on the target. *)
Lemma propagation_is_one_directional_witness :
  updateEntanglement Math_hypot_ref 5 0 (Some 1) pair_world = (pair_world, Ret tt) /\
  onMeasurement 5 0 1 (JStr "A") pair_world = (pair_world, Ret tt) /\
  writes_only 1 (normalize Math_hypot_ref 5 1) pair_world /\
  writes_only 1 (measure 5 1) pair_world.
Proof.
  destruct (propagation_is_one_directional Math_hypot_ref 5 pair_world) as [H1 H2].
  destruct (H1 0 (mkEntanglement 0 1 bit_to_letter true) 1 (JStr "A") eq_refl) as [Hu Hm];
    [discriminate|].
  split; [exact Hu|]. split; [exact Hm|].
  destruct (states pair_world !! 1) as [q|] eqn:Hq; [|discriminate Hq].
  assert (Hot : only_target pair_world 1 q).
  { injection Hq as <-. intros e ent He Hl. simpl in He.
    apply list_elem_of_singleton in He as ->. injection Hl as <-. right. discriminate. }
  destruct (H2 1 q Hq Hot) as (Hn & _ & _ & _ & Hms). split; [exact Hn|exact Hms].
Defined.

(** C8 on a fair coin. *)
Lemma randomness_only_in_measure_witness :
  random_calls (measure 0 0 coin_world).1 = 1 /\
  random_calls (normalize Math_hypot_ref 0 0 coin_world).1 = 0 /\
  (measure 0 0 (with_random (fun _ => 0.3%float) 7 coin_world)).2 = (measure 0 0 coin_world).2.
Proof.
  destruct (randomness_only_in_measure Math_hypot_ref 0) as ((Hn & _) & H2 & H3).
  split; [|split].
  - destruct (states coin_world !! 0) as [q|] eqn:Hq; [|discriminate Hq].
    destruct (H2 0 coin_world q Hq) as [_ ->]. injection Hq as <-. reflexivity.
  - exact (proj1 (random_blind_keeps (normalize Math_hypot_ref 0 0) coin_world (Hn 0))).
  - exact (proj1 (H3 0 (fun _ => 0.3%float) 7 coin_world eq_refl)).
Defined.

(** ** The further properties at concrete inputs *)

(** X1 on entries that mention "a" twice. *)
Lemma constructed_state_is_well_formed_witness :
  exists q,
    QuantumState_new Math_hypot_ref three_four_one = Ret q /\
    basis q <> [] /\ all_kept Math_hypot_ref (basis q) /\
    NoDup (Map_keys (basis q)) /\ Map_keys (basis q) ⊆ map fst three_four_one /\
    Map_keys (basis q) `sublist_of` first_mentions (map fst three_four_one) /\
    finite_amplitudes (basis q) /\
    entanglements q = [] /\ measurementHistory q = [].
Proof.
  eexists. split; [vm_compute; reflexivity|].
  apply (constructed_state_is_well_formed Math_hypot_ref three_four_one).
  vm_compute. reflexivity.
Defined.


(** X3 on the 70/30 state. *)
Lemma probabilities_follow_the_basis_witness :
  NoDup (Map_keys (basis seventy_thirty)) /\
  getProbabilities seventy_thirty =
    map (fun e => (e.1, magnitudeSquared e.2)) (basis seventy_thirty) /\
  forall value,
    default 0%float (Map_get value (getProbabilities seventy_thirty)) =
    probability seventy_thirty value.
Proof.
  assert (Hnd : NoDup (Map_keys (basis seventy_thirty)))
    by (apply (bool_decide_unpack _); vm_compute; exact I).
  split; [exact Hnd|]. exact (probabilities_follow_the_basis seventy_thirty Hnd).
Defined.

(** X4 on the 70/30 state and the sample 0.9. *)
Lemma measured_value_is_an_outcome_witness :
  basis seventy_thirty <> [] /\
  pick 0.9 seventy_thirty ∈ Map_keys (basis seventy_thirty) /\
  (pick 0.9 seventy_thirty = JUndefined -> last_key (basis seventy_thirty) = JUndefined).
Proof.
  assert (Hne : basis seventy_thirty <> []) by discriminate.
  split; [exact Hne|]. exact (measured_value_is_an_outcome 0.9 seventy_thirty Hne).
Defined.

(** X5 on a fair coin and the sample 0.3. *)
Lemma measure_lone_object_witness :
  exists q w',
    states coin_world !! 0 = Some q /\
    measure 3 0 coin_world = (w', Ret (JNum 0)) /\
    states w' !! 0 =
      Some (mkQuantumState [(JNum 0, Complex_one)] []
              [mkHistoryEntry 0 (JNum 0) "measurement" (getProbabilities q)] true (JNum 0)) /\
    random_calls w' = 1 /\ now_calls w' = 1.
Proof.
  eexists. eexists. split; [vm_compute; reflexivity|].
  split.
  - rewrite (measure_lone_object 3 0 coin_world _ eq_refl eq_refl eq_refl); [|discriminate].
    vm_compute. reflexivity.
  - vm_compute. repeat split; reflexivity.
Defined.

(** X6 on the classical object at "A": an absent value, and "A" again. *)
Lemma collapseTo_outcome_witness :
  states lone_world !! 0 = Some classical_at_A /\
  collapseTo 3 0 (JStr "B") (mkMeta None None) lone_world =
    (lone_world, Throw (RangeError "Cannot collapse to a value not present in the basis.")) /\
  exists w',
    collapseTo 3 0 (JStr "A") (mkMeta None None) lone_world = (w', Ret tt) /\
    states w' !! 0 =
      Some (mkQuantumState [(JStr "A", Complex_one)] []
              [mkHistoryEntry 0 (JStr "A") "manual-collapse" [(JStr "A", 1%float)]]
              true (JStr "A")).
Proof.
  assert (Hq : states lone_world !! 0 = Some classical_at_A) by (vm_compute; reflexivity).
  split; [exact Hq|]. split.
  - exact (proj1 (collapseTo_outcome 3 0 (JStr "B") (mkMeta None None) lone_world
                    classical_at_A Hq) eq_refl).
  - eexists. split.
    + exact (proj2 (collapseTo_outcome 3 0 (JStr "A") (mkMeta None None) lone_world
                      classical_at_A Hq) eq_refl eq_refl).
    + vm_compute. reflexivity.
Defined.

(** X8 on the coin entangled to a target. *)
Lemma dispose_disconnects_witness :
  exists ent q1 q2 w',
    links pair_world !! 0 = Some ent /\ isActive ent = true /\
    states pair_world !! state1 ent = Some q1 /\
    states pair_world !! state2 ent = Some q2 /\
    dispose 0 pair_world = (w', Ret tt) /\
    updateEntanglement Math_hypot_ref 3 0 None w' = (w', Ret tt) /\
    dispose 0 w' = (w', Ret tt).
Proof.
  destruct (dispose_disconnects Math_hypot_ref 0 pair_world
              (mkEntanglement 0 1 bit_to_letter true)
              (default classical_at_A (states pair_world !! 0))
              (default classical_at_A (states pair_world !! 1)))
    as (w' & Hrun & _ & _ & _ & Hu & _ & Hd); try (vm_compute; reflexivity).
  eexists. eexists. eexists. exists w'.
  split; [vm_compute; reflexivity|]. split; [reflexivity|].
  split; [vm_compute; reflexivity|]. split; [vm_compute; reflexivity|].
  split; [exact Hrun|]. split; [apply Hu|exact Hd].
Defined.

(** X9 on a coin and a classical object: the same object twice, and the
    two of them. *)
Lemma Entanglement_new_registers_witness :
  exists q1 q2,
    states two_objects !! 0 = Some q1 /\ states two_objects !! 1 = Some q2 /\
    Entanglement_new Math_hypot_ref 5 0 1 bit_to_letter two_objects = (pair_world, Ret 0) /\
    links pair_world = links two_objects ++ [mkEntanglement 0 1 bit_to_letter true] /\
    exists q1', states pair_world !! 0 = Some q1' /\
                entanglements q1' = Set_add 0 (entanglements q1).
Proof.
  eexists. eexists. split; [vm_compute; reflexivity|]. split; [vm_compute; reflexivity|].
  split; [vm_compute; reflexivity|].
  destruct (proj2 (Entanglement_new_registers Math_hypot_ref 5 0 1 bit_to_letter two_objects
                     _ _ eq_refl eq_refl)) as (Hl & Hst & _); [discriminate|].
  split; [exact Hl|].
  destruct (Hst 0 _ eq_refl) as (q1' & Hq1' & Hent & _).
  exists q1'. split; [exact Hq1'|exact Hent].
Defined.

(** X10 on the second entanglement of the cyclic store, whose mapping is
    undefined at "y". *)
Lemma update_with_partial_relation_writes_nothing_witness :
  exists ent q1,
    links cyclic_world !! 1 = Some ent /\ isActive ent = true /\
    states cyclic_world !! state1 ent = Some q1 /\ isCollapsed q1 = false /\
    JStr "y" ∈ Map_keys (basis q1) /\ relationFn ent (JStr "y") = JUndefined /\
    exists err, updateEntanglement Math_hypot_ref 3 1 None cyclic_world
                = (cyclic_world, Throw err).
Proof.
  eexists. eexists. split; [vm_compute; reflexivity|]. split; [reflexivity|].
  split; [vm_compute; reflexivity|]. split; [reflexivity|].
  assert (Hin : JStr "y" ∈ [JStr "x"; JStr "y"]) by (right; left).
  split; [exact Hin|]. split; [reflexivity|].
  eapply (update_with_partial_relation_writes_nothing Math_hypot_ref 3 1 _ cyclic_world _ None).
  - vm_compute. reflexivity.
  - reflexivity.
  - vm_compute. reflexivity.
  - reflexivity.
  - exists (JStr "y"). split; [exact Hin|reflexivity].
  - now left.
Defined.


(** X11 on the coin entangled to a target: a second derivation. *)
Lemma derivation_lands_in_the_image_witness :
  exists q1 q2 w' inducedBasis q2',
    states pair_world !! 0 = Some q1 /\ isCollapsed q1 = false /\
    states pair_world !! 1 = Some q2 /\
    updateEntanglement Math_hypot_ref 2 0 None pair_world = (w', Ret tt) /\
    induce bit_to_letter (basis q1) [] = Ret inducedBasis /\
    w' = set_states (<[1 := q2']> (states pair_world)) pair_world /\
    Map_keys (basis q2') ⊆ map bit_to_letter (Map_keys (basis q1)) /\
    well_formed Math_hypot_ref q2'.
Proof.
  set (q1 := default classical_at_A (states pair_world !! 0)).
  set (q2 := default classical_at_A (states pair_world !! 1)).
  set (w' := (updateEntanglement Math_hypot_ref 2 0 None pair_world).1).
  assert (Hs : source_of_none pair_world 1 q2).
  { intros e He. exists (mkEntanglement 0 1 bit_to_letter true).
    assert (Hent : entanglements q2 = [0]) by (vm_compute; reflexivity).
    rewrite Hent in He. apply list_elem_of_singleton in He as ->.
    split; [vm_compute; reflexivity|]. right. discriminate. }
  destruct (derivation_lands_in_the_image Math_hypot_ref 0 0
              (mkEntanglement 0 1 bit_to_letter true) pair_world w' q1 q2)
    as (inducedBasis & q2' & Hind & _ & Hw & Hkeys & _ & Hwf & _);
    try (vm_compute; reflexivity); [exact Hs|].
  exists q1, q2, w', inducedBasis, q2'.
  split; [vm_compute; reflexivity|]. split; [vm_compute; reflexivity|].
  split; [vm_compute; reflexivity|]. split; [vm_compute; reflexivity|].
  split; [exact Hind|]. split; [exact Hw|]. split; [exact Hkeys|exact Hwf].
Defined.


(** X13 on the 70/30 state and the state over 0 and 3. *)
Lemma interfere_outcomes_witness :
  exists r,
    interfere Math_hypot_ref [seventy_thirty; zero_or_three] None = Ret r /\
    well_formed Math_hypot_ref r /\ entanglements r = [] /\ measurementHistory r = [] /\
    NoDup (Map_keys (basis r)) /\
    Map_keys (basis r) `sublist_of` allValues [seventy_thirty; zero_or_three] /\
    forall k, k ∈ Map_keys (basis r) ->
      exists q, q ∈ [seventy_thirty; zero_or_three] /\ k ∈ Map_keys (basis q).
Proof.
  eexists. split; [vm_compute; reflexivity|].
  apply (proj2 (proj2 (interfere_outcomes Math_hypot_ref [seventy_thirty; zero_or_three] None))).
  vm_compute. reflexivity.
Defined.

(** X14 on the same two states, with the default thresholds. *)
Lemma analysis_classifies_each_outcome_once_witness :
  exists r,
    analyzeInterference Math_hypot_ref [seventy_thirty; zero_or_three] None None = Ret r /\
    map row_value (constructive r ++ destructive r ++ neutral r)
      ≡ₚ allValues [seventy_thirty; zero_or_three] /\
    NoDup (map row_value (constructive r ++ destructive r ++ neutral r)).
Proof.
  eexists. split; [vm_compute; reflexivity|].
  apply (analysis_classifies_each_outcome_once Math_hypot_ref
           [seventy_thirty; zero_or_three] None None).
  vm_compute. reflexivity.
Defined.

(** X15 on two rounds of the body that steps up. *)
Lemma quantumFor_history_witness :
  exists r,
    quantumFor Math_hypot_ref 2 zero_or_three step_up = Ret r /\
    length (for_history r) = 3 /\
    exists snapshot, last (for_history r) = Some snapshot /\
                     clone Math_hypot_ref (for_finalState r) = Ret snapshot.
Proof.
  edestruct (proj2 (quantumFor_history Math_hypot_ref 2 zero_or_three step_up))
    as (Hlen & _ & Hlast); [vm_compute; reflexivity|].
  eexists. split; [vm_compute; reflexivity|].
  split; [exact Hlen|exact Hlast].
Defined.

(** X16 on the loop that steps up, with ten rounds allowed. *)
Lemma quantumWhile_history_witness :
  exists r,
    quantumWhile Math_hypot_ref zero_or_one step_up zero_or_three 10 = Ret r /\
    length (history r) = S (iterations r) /\
    (Z.of_nat (iterations r) <= 10)%Z.
Proof.
  edestruct (quantumWhile_history Math_hypot_ref zero_or_one step_up zero_or_three 10)
    as (Hlen & Hmax & _); [vm_compute; reflexivity|].
  eexists. split; [vm_compute; reflexivity|].
  split; [exact Hlen|exact Hmax].
Defined.


(** X19 on the 70/30 state. *)
Lemma gates_return_fresh_states_witness :
  exists r,
    hadamard Math_hypot_ref seventy_thirty = Ret r /\
    fresh_state Math_hypot_ref r /\
    Map_keys (basis r) ⊆ Map_keys (basis seventy_thirty).
Proof.
  eexists. split; [vm_compute; reflexivity|].
  apply (proj1 (gates_return_fresh_states Math_hypot_ref cos_at_zero sin_at_zero
                  seventy_thirty)).
  vm_compute. reflexivity.
Defined.

(** X20 on the classical state at "A": one outcome is not two, and "B" is
    no outcome of it. *)
Lemma gates_refusals_witness :
  hadamard Math_hypot_ref classical_at_A =
    Throw (RangeError "Hadamard requires exactly 2 basis states, received 1.") /\
  phase Math_hypot_ref cos_at_zero sin_at_zero classical_at_A (JStr "B") 0 =
    Throw (RangeError "Target value does not exist in quantum basis.") /\
  amplify Math_hypot_ref classical_at_A [JStr "B"] None =
    Throw (RangeError "None of the targetValues exist in the quantum basis.").
Proof.
  destruct (gates_refusals Math_hypot_ref cos_at_zero sin_at_zero classical_at_A)
    as (Hh & Hp & _ & Ha).
  split; [|split].
  - apply Hh. discriminate.
  - apply (proj2 (Hp (JStr "B") 0%float)); [reflexivity|].
    intros Hin. apply list_elem_of_singleton in Hin. discriminate.
  - apply (proj2 (Ha [JStr "B"] None)); [reflexivity|reflexivity| | |].
    + discriminate.
    + repeat constructor.
    + intros k Hk Hin. apply list_elem_of_singleton in Hin. subst k.
      apply list_elem_of_singleton in Hk. discriminate Hk.
Defined.

(** X21 on the 70/30 state and the state over 0 and 3. *)
Lemma ensemble_modes_witness :
  [seventy_thirty; zero_or_three] <> [] /\
  exists r,
    ensemble Math_hypot_ref [seventy_thirty; zero_or_three] (Some "classical") = Ret r /\
    fresh_state Math_hypot_ref r /\
    Map_keys (basis r) `sublist_of` allValues [seventy_thirty; zero_or_three].
Proof.
  assert (Hne : [seventy_thirty; zero_or_three] <> []) by discriminate.
  split; [exact Hne|]. eexists. split; [vm_compute; reflexivity|].
  apply (proj1 (proj2 (proj2 (ensemble_modes Math_hypot_ref
                                [seventy_thirty; zero_or_three] Hne)))).
  vm_compute. reflexivity.
Defined.

(** X23 on the classical state at "A", with the default threshold. *)
Lemma isNearClassical_sound_witness :
  isNearClassical classical_at_A None = Ret true /\
  exists k p, (k, p) ∈ getProbabilities classical_at_A /\ (0.999999 <=? p)%float = true.
Proof.
  split; [vm_compute; reflexivity|].
  apply (proj2 (isNearClassical_sound classical_at_A None)). vm_compute. reflexivity.
Defined.

(** X24 on the 70/30 state. *)
Lemma clone_detaches_witness :
  exists copy,
    clone Math_hypot_ref seventy_thirty = Ret copy /\
    entanglements copy = [] /\
    measurementHistory copy = measurementHistory seventy_thirty /\
    isCollapsed copy = isCollapsed seventy_thirty /\
    collapsedValue copy = collapsedValue seventy_thirty.
Proof.
  eexists. split; [vm_compute; reflexivity|].
  destruct (clone_detaches Math_hypot_ref seventy_thirty _ eq_refl) as (H1 & H2 & H3 & H4 & _).
  now repeat split.
Defined.

(** X25 on the reference case of [quantumIf]. *)
Lemma combinators_return_detached_states_witness :
  exists r,
    quantumIf Math_hypot_ref seventy_thirty
      (fun _ => Plain (JStr "then")) (fun _ => Plain (JStr "else")) = Ret r /\
    fresh_state Math_hypot_ref r.
Proof.
  eexists. split; [vm_compute; reflexivity|].
  apply (proj1 (combinators_return_detached_states Math_hypot_ref exponent_unused) seventy_thirty
           (fun _ => Plain (JStr "then")) (fun _ => Plain (JStr "else"))).
  vm_compute. reflexivity.
Defined.

(** X26 on 1 + 2, and on a division by zero. *)
Lemma Complex_results_are_finite_witness :
  Complex_add (on_real_axis 1) (on_real_axis 2) = Ret (on_real_axis 3) /\
  Complex_finite (on_real_axis 3) /\
  Complex_divide (on_real_axis 1) Complex_zero =
    Throw (RangeError "Cannot divide by zero-magnitude complex number.").
Proof.
  destruct (Complex_results_are_finite cos_at_zero sin_at_zero
              (on_real_axis 1) (on_real_axis 2) 0 0 (on_real_axis 3))
    as (_ & Hadd & _).
  destruct (Complex_results_are_finite cos_at_zero sin_at_zero
              (on_real_axis 1) Complex_zero 0 0 Complex_zero)
    as (_ & _ & _ & _ & _ & _ & _ & _ & _ & Hdiv).
  split; [reflexivity|]. split; [exact (Hadd eq_refl)|exact (Hdiv eq_refl)].
Defined.

(** X27 on two outcomes of amplitude zero. *)
Lemma zero_amplitudes_are_refused_witness :
  axis_exact Math_hypot_ref /\
  QuantumState_new Math_hypot_ref [(JStr "A", Complex_zero); (JStr "B", Complex_zero)] =
    Throw (Error "Quantum state has no non-zero amplitudes after pruning.").
Proof.
  split; [exact axis_exact_ref|].
  apply (zero_amplitudes_are_refused Math_hypot_ref); [exact axis_exact_ref|discriminate|].
  repeat constructor.
Defined.

(** X28 on the target (object 1) of the coin's entanglement, and the
    sample 0.3. *)
Lemma second_measure_agrees_off_cycles_witness :
  ~ reaches (links pair_world) 1 1 /\
  exists w1,
    measure 5 1 pair_world = (w1, Ret (JStr "A")) /\
    measure 5 1 w1 = (w1, Ret (JStr "A")).
Proof.
  assert (Hacyclic : ~ reaches (links pair_world) 1 1).
  { intros H. apply reaches_source in H as (e & ent & He & _ & Hs).
    destruct e as [|e]; [|destruct e; discriminate He].
    vm_compute in He. injection He as <-. discriminate Hs. }
  split; [exact Hacyclic|].
  eexists. split; [vm_compute; reflexivity|].
  refine (proj2 (proj1 (second_measure_agrees_off_cycles 5 5 1 pair_world) _ (JStr "A") _)
            Hacyclic).
  vm_compute. reflexivity.
Defined.

(** ** Where the code breaks its own promise *)

(** C2 — A second [measure()] that differs from the first.  Two objects
    are entangled in both directions; the second constructor has
    registered its entanglement when it throws, and the caller catches the
    error.  With the sample 0.3 the first [measure()] of object 0 returns
    0; its collapse propagates to object 1, which collapses to "x" and
    propagates back, and the value 1 is injected into object 0, which is
    left collapsed at 1.  The second [measure()] takes the early return on
    [isCollapsed] and returns 1. *)
Lemma second_measure_differs_on_cycle :
  (cyclic_setup start_world).2
    = Throw (Error "Entanglement relationFn returned undefined for an input value.") /\
  (measure 10 0 cyclic_world).2 = Ret (JNum 0) /\
  isCollapsed <$> states (measure 10 0 cyclic_world).1 !! 0 = Some true /\
  collapsedValue <$> states (measure 10 0 cyclic_world).1 !! 0 = Some (JNum 1) /\
  (measure 10 0 (measure 10 0 cyclic_world).1).2 = Ret (JNum 1).
Proof. vm_compute. repeat split. Qed.

(** ** Where the specification says more than the code does *)

(** C5, as stated, fails: [setAmplitude] writes the entry and prunes
    before it finds the basis empty, so the error leaves the object with an
    empty basis. *)
Lemma setAmplitude_mutates_before_failing :
  basis <$> states lone_world !! 0 = Some [(JStr "A", Complex_one)] /\
  (setAmplitude Math_hypot_ref 3 0 (JStr "A") (AComplex Complex_zero) lone_world).2
    = Throw (Error "Quantum state has no non-zero amplitudes after pruning.") /\
  basis <$> states (setAmplitude Math_hypot_ref 3 0 (JStr "A") (AComplex Complex_zero)
                      lone_world).1 !! 0 = Some [].
Proof. vm_compute. repeat split. Qed.

(** The later failures of [setAmplitude] on a source: the error raised
    while the change propagates comes after the flags were recomputed. *)
Lemma setAmplitude_fails_while_propagating :
  (partial_setup start_world).2 = Ret 0 /\
  isCollapsed <$> states partial_world !! 0 = Some true /\
  (setAmplitude Math_hypot_ref 5 0 (JStr "z") (AComplex (on_real_axis 1)) partial_world).2
    = Throw (Error "Entanglement relationFn returned undefined for an input value.") /\
  isCollapsed <$> states (setAmplitude Math_hypot_ref 5 0 (JStr "z")
                            (AComplex (on_real_axis 1)) partial_world).1 !! 0 = Some false.
Proof. vm_compute. repeat split. Qed.

(** C8, as stated, fails: the sample is not handed to [measure()] nor
    held by the object; two stores with the same objects and entanglements
    answer differently when the ambient [Math.random] differs. *)
Lemma measure_reads_ambient_random :
  states (with_random (fun _ => 0.9%float) 0 coin_world) = states coin_world /\
  links (with_random (fun _ => 0.9%float) 0 coin_world) = links coin_world /\
  (measure 0 0 coin_world).2 = Ret (JNum 0) /\
  (measure 0 0 (with_random (fun _ => 0.9%float) 0 coin_world)).2 = Ret (JNum 1).
Proof. vm_compute. repeat split. Qed.
